(** * blrec: HLS segment dumper, ffprobe wrapper and analyser

    A shallow embedding of
      - [src/blrec/utils/ffprobe.py]               (module [Ffprobe]),
      - [src/blrec/hls/operators/segment_dumper.py] (module [SegmentDumper]),
      - [src/blrec/hls/operators/analyser.py]       (module [Analyser]),
    together with the properties of the recording pipeline that the
    specification states about them.

    Python values decoded from JSON are modelled by the inductive type
    [json]; Python exceptions by [exn]; a computation that can raise by
    [result]; code that has effects on files, processes and observers by
    the state-and-exception monad [M] over an explicit [world]. *)

From Stdlib Require Import ZArith List String Ascii Bool Lia Arith.
From Stdlib Require Import Strings.Byte.
Import ListNotations.

Set Warnings "-register-all".

Local Open Scope string_scope.
Local Open Scope list_scope.
Local Open Scope Z_scope.

(* ===================================================================== *)
(** ** Python exceptions and fallible computations *)

Module Py.

(** The exception classes that the modelled code paths can raise.
    [KeyboardInterrupt] and [SystemExit] derive from [BaseException] only,
    every other one from [Exception]. *)
Inductive exn : Type :=
| AssertionError
| AttributeError
| TypeError
| KeyError (key : string)
| ValueError
| OSError
| TimeoutExpired
| JSONDecodeError
| KeyboardInterrupt
| SystemExit.

(** [isinstance(e, Exception)] *)
Definition is_Exception (e : exn) : bool :=
  match e with
  | KeyboardInterrupt | SystemExit => false
  | _ => true
  end.

Inductive result (A : Type) : Type :=
| Ok (a : A)
| Raise (e : exn).
Arguments Ok {A} a.
Arguments Raise {A} e.

Definition rbind {A B} (r : result A) (k : A -> result B) : result B :=
  match r with
  | Ok a => k a
  | Raise e => Raise e
  end.

Declare Scope result_scope.
Delimit Scope result_scope with res.
Notation "x <- r ;; k" := (rbind r (fun x => k))
  (at level 61, r at next level, right associativity) : result_scope.

(* --------------------------------------------------------------------- *)
(** *** Values produced by [json.loads]

    Objects are association lists in insertion order (a Python [dict]
    keeps insertion order); number literals are integers, which is all
    that ffprobe's JSON writer prints bare (rationals and durations are
    printed as strings). *)
Inductive json : Type :=
| JNull
| JBool (b : bool)
| JInt (z : Z)
| JStr (s : string)
| JList (l : list json)
| JDict (d : list (string * json)).

Definition dict := list (string * json).

(** [d.get(k)] on the association list: the first binding wins. *)
Fixpoint dict_get (k : string) (d : dict) : option json :=
  match d with
  | [] => None
  | (k', v) :: d' => if String.eqb k k' then Some v else dict_get k d'
  end.

(** [d[k] = v]: an existing key keeps its position, a new key is
    appended. *)
Fixpoint dict_set (k : string) (v : json) (d : dict) : dict :=
  match d with
  | [] => [(k, v)]
  | (k', v') :: d' =>
      if String.eqb k k' then (k', v) :: d' else (k', v') :: dict_set k v d'
  end.

Definition dict_mem (k : string) (d : dict) : bool :=
  match dict_get k d with Some _ => true | None => false end.

(** Python's truth value of a decoded JSON value. *)
Definition truthy (v : json) : bool :=
  match v with
  | JNull => false
  | JBool b => b
  | JInt z => negb (z =? 0)
  | JStr s => negb (String.eqb s EmptyString)
  | JList l => match l with [] => false | _ => true end
  | JDict d => match d with [] => false | _ => true end
  end.

(** Python's [==] on decoded JSON values: [bool] is a subclass of [int]
    ([True == 1]), lists compare element-wise, dicts compare as finite
    maps, values of unrelated types are different. *)
Fixpoint py_eq (a b : json) : bool :=
  match a, b with
  | JNull, JNull => true
  | JBool x, JBool y => Bool.eqb x y
  | JBool x, JInt y => (if x then 1 else 0) =? y
  | JInt x, JBool y => x =? (if y then 1 else 0)
  | JInt x, JInt y => x =? y
  | JStr x, JStr y => String.eqb x y
  | JList xs, JList ys =>
      (fix go (xs ys : list json) : bool :=
         match xs, ys with
         | [], [] => true
         | x :: xs', y :: ys' => py_eq x y && go xs' ys'
         | _, _ => false
         end) xs ys
  | JDict d1, JDict d2 =>
      (List.length d1 =? List.length d2)%nat &&
      (fix all (d : dict) : bool :=
         match d with
         | [] => true
         | (k, v) :: d' =>
             match dict_get k d2 with
             | Some v' => py_eq v v'
             | None => false
             end && all d'
         end) d1
  | _, _ => false
  end.

(** [o.get(k, default)]: only a [dict] has the method. *)
Definition py_get (o : json) (k : string) (default : json) : result json :=
  match o with
  | JDict d => Ok (match dict_get k d with Some v => v | None => default end)
  | _ => Raise AttributeError
  end.

(** [o[k]] with a string key. *)
Definition py_getitem (o : json) (k : string) : result json :=
  match o with
  | JDict d =>
      match dict_get k d with
      | Some v => Ok v
      | None => Raise (KeyError k)
      end
  | _ => Raise TypeError
  end.

(** [iter(o)]: a list yields its elements, a dict its keys, a string its
    characters; nothing else is iterable. *)
Definition py_iter (o : json) : result (list json) :=
  match o with
  | JList l => Ok l
  | JDict d => Ok (map (fun kv => JStr (fst kv)) d)
  | JStr s => Ok (map (fun c => JStr (String c EmptyString)) (list_ascii_of_string s))
  | _ => Raise TypeError
  end.

(** [k in o] with a string [k]: key test on a dict, substring test on a
    string, element test on a list. *)
Definition py_contains (k : string) (o : json) : result bool :=
  match o with
  | JDict d => Ok (dict_mem k d)
  | JStr s => Ok (match String.index 0 k s with Some _ => true | None => false end)
  | JList l => Ok (existsb (fun x => py_eq x (JStr k)) l)
  | _ => Raise TypeError
  end.

(** [o[k] = v] with a string key [k]: only a dict supports it. *)
Definition py_setitem (o : json) (k : string) (v : json) : result json :=
  match o with
  | JDict d => Ok (JDict (dict_set k v d))
  | _ => Raise TypeError
  end.

End Py.
Import Py.

(* ===================================================================== *)
(** ** The outside world: files, child processes, observers *)

Module World.

Definition bytes := list byte.

(** A file object returned by [open(path, 'wb')].  The file is created
    empty and only ever appended to, so [f_data] is both the content
    of the file and what [tell()] measures. *)
Record file_obj : Type := mk_file {
  f_path : string;
  f_data : bytes;
  f_closed : bool
}.

(** A child process handle: still running, terminated but not yet
    waited for, or reaped. *)
Inductive proc_state : Type := Running | Exited | Reaped.

Inductive log_level : Type := Debug | Warning | ErrorLevel.

(** Modelled from the spec: the items of [segment_fetcher]
    ([InitSectionData] and [SegmentData]), whose declaration is not part
    of the sources at hand.  Both variants carry the originating chunk
    descriptor, of which only [custom_parser_values] is read, a binary
    payload and a byte offset; [len(item)] is the length of the
    payload. *)
Inductive item_kind : Type := InitSectionData | SegmentData.

Record item : Type := mk_item {
  kind : item_kind;
  custom_parser_values : dict;
  payload : bytes;
  offset : Z
}.

Definition item_len (it : item) : Z := Z.of_nat (List.length (payload it)).

(** [attr.evolve(item, offset=offset)] *)
Definition evolve_offset (it : item) (off : Z) : item :=
  mk_item (kind it) (custom_parser_values it) (payload it) off.

(** Everything the code does to its environment, in the order in which
    it happens. *)
Inductive event : Type :=
| EvOpen (fd : nat) (path : string)        (* open(path, 'wb') returned file object fd *)
| EvWrite (fd : nat) (data : bytes)        (* file.write(data) returned *)
| EvClose (fd : nat)                       (* file.close() *)
| EvFileOpened (path : string) (timestamp : Z)   (* _file_opened.on_next *)
| EvFileClosed (path : string)             (* _file_closed.on_next *)
| EvForward (it : item)                    (* observer.on_next *)
| EvError (e : exn)                        (* observer.on_error *)
| EvCompleted                              (* observer.on_completed *)
| EvEscaped (e : exn)                      (* an exception left on_next *)
| EvSpawn (pid : nat)                      (* Popen(...) *)
| EvKill (pid : nat)                       (* process.kill() *)
| EvWait (pid : nat) (before : proc_state) (* process.wait() *)
| EvLog (level : log_level) (msg : string).

Record world : Type := mk_world {
  files : list file_obj;
  procs : list proc_state;
  journal : list event;
  clock : nat
}.

Definition empty_world : world := mk_world [] [] [] 0.

(** What [process.communicate(data, timeout=10)] does. *)
Inductive communicate_outcome : Type :=
| CommOk (stdout : string)            (* the child exited and was waited for *)
| CommRaise (e : exn) (alive : bool). (* raised; [alive] for a child still
                                         running, as after TimeoutExpired *)

Inductive popen_outcome : Type :=
| SpawnError (e : exn)
| Spawned (c : communicate_outcome).

(** The behaviour of everything outside the three modules.  The [nat]
    argument of an oracle is the value of the world's [clock] at the
    call, so that two calls with the same arguments may differ. *)
Record env : Type := mk_env {
  path_provider : nat -> result (string * Z);
  with_suffix_m4s : string -> result string;
  open_wb : nat -> string -> option exn;
  file_write : nat -> bytes -> option exn;
  file_close : nat -> option exn;
  popen : nat -> bytes -> popen_outcome;
  json_loads : string -> result json
}.

(** *** State and exceptions *)

Definition M (S A : Type) : Type := S -> result A * S.

Definition ret {S A} (a : A) : M S A := fun s => (Ok a, s).

Definition raise {S A} (e : exn) : M S A := fun s => (Raise e, s).

Definition bind {S A B} (m : M S A) (k : A -> M S B) : M S B :=
  fun s =>
    match m s with
    | (Ok a, s') => k a s'
    | (Raise e, s') => (Raise e, s')
    end.

Definition lift {S A} (r : result A) : M S A := fun s => (r, s).

Definition gets {S A} (f : S -> A) : M S A := fun s => (Ok (f s), s).

Definition modify {S} (f : S -> S) : M S unit := fun s => (Ok tt, f s).

(** [try: body / except BaseException as e: handler(e) / else: els(x)] *)
Definition try_except_else {S A B} (body : M S A) (handler : exn -> M S B)
    (els : A -> M S B) : M S B :=
  fun s =>
    match body s with
    | (Ok a, s') => els a s'
    | (Raise e, s') => handler e s'
    end.

(** [try: body / except Exception as e: handler(e)] *)
Definition try_except_Exception {S A} (body : M S A) (handler : exn -> M S A)
  : M S A :=
  fun s =>
    match body s with
    | (Ok a, s') => (Ok a, s')
    | (Raise e, s') => if is_Exception e then handler e s' else (Raise e, s')
    end.

(** Run [m], then [exit], which is told how [m] ended (the exit of a
    [with] block). *)
Definition then_exit {S A} (m : M S A) (exit : result A -> S -> S) : M S A :=
  fun s => let '(r, s') := m s in (r, exit r s').

Declare Scope monad_scope.
Delimit Scope monad_scope with monad.
Notation "x <- m ;; k" := (bind m (fun x => k))
  (at level 61, m at next level, right associativity) : monad_scope.
Notation "m ;; k" := (bind m (fun _ => k))
  (at level 61, right associativity) : monad_scope.

(** *** Primitive effects on the world *)

Definition emit_w (ev : event) (w : world) : world :=
  mk_world (files w) (procs w) (journal w ++ [ev]) (clock w).

Definition tick_w (w : world) : world :=
  mk_world (files w) (procs w) (journal w) (S (clock w)).

Fixpoint update_nth {A} (n : nat) (f : A -> A) (l : list A) : list A :=
  match l, n with
  | [], _ => []
  | x :: l', O => f x :: l'
  | x :: l', S n' => x :: update_nth n' f l'
  end.

Definition set_proc (pid : nat) (ps : proc_state) (w : world) : world :=
  mk_world (files w) (update_nth pid (fun _ => ps) (procs w)) (journal w) (clock w).

Definition proc_of (pid : nat) (w : world) : proc_state :=
  nth pid (procs w) Reaped.

(** [process.kill()]: a child that has already terminated is left
    alone. *)
Definition kill_w (pid : nat) (w : world) : world :=
  let w := emit_w (EvKill pid) w in
  match proc_of pid w with
  | Running => set_proc pid Exited w
  | _ => w
  end.

(** [process.wait()]: collects the exit status.  On a running child it
    blocks until the child terminates; the state before the call is
    recorded in the journal. *)
Definition wait_w (pid : nat) (w : world) : world :=
  let w := emit_w (EvWait pid (proc_of pid w)) w in
  set_proc pid Reaped w.

End World.
Import World.

(* ===================================================================== *)
(** ** [blrec.utils.ffprobe]: normalisation of the probe output *)

Module Ffprobe.

Section Normalize.

Local Open Scope result_scope.


(** [[s for s in streams if s.get('codec_type') == kind]] over the
    already iterated elements; raises at the first element that is not a
    dict. *)
Fixpoint streams_of_kind (kind : string) (streams : list json) : result (list json) :=
  match streams with
  | [] => Ok []
  | s :: rest =>
      t <- py_get s "codec_type" JNull ;;
      tl <- streams_of_kind kind rest ;;
      Ok (if py_eq t (JStr kind) then s :: tl else tl)
  end.

(** The placeholder appended when no video stream was found
    (ffprobe.py, lines 151-178). *)
Definition video_placeholder : json :=
  JDict [ ("codec_type", JStr "video"); ("codec_name", JStr "none");
          ("width", JInt 0); ("height", JInt 0); ("index", JInt (-1));
          ("codec_long_name", JStr EmptyString); ("codec_tag_string", JStr EmptyString);
          ("codec_tag", JStr EmptyString); ("coded_width", JInt 0);
          ("coded_height", JInt 0); ("closed_captions", JInt 0);
          ("film_grain", JInt 0); ("has_b_frames", JInt 0);
          ("level", JInt 0); ("refs", JInt 0); ("is_avc", JStr EmptyString);
          ("nal_length_size", JStr EmptyString); ("id", JStr EmptyString);
          ("r_frame_rate", JStr EmptyString); ("avg_frame_rate", JStr EmptyString);
          ("time_base", JStr EmptyString); ("duration_ts", JInt 0);
          ("duration", JStr EmptyString); ("extradata_size", JInt 0);
          ("disposition", JDict []); ("tags", JDict []) ].

(** The placeholder appended when no audio stream was found
    (ffprobe.py, lines 180-202). *)
Definition audio_placeholder : json :=
  JDict [ ("codec_type", JStr "audio"); ("codec_name", JStr "none");
          ("sample_fmt", JStr EmptyString); ("sample_rate", JStr "0");
          ("channels", JInt 0); ("channel_layout", JStr EmptyString);
          ("bits_per_sample", JInt 0); ("index", JInt (-1));
          ("codec_long_name", JStr EmptyString); ("codec_tag_string", JStr EmptyString);
          ("codec_tag", JStr EmptyString); ("id", JStr EmptyString);
          ("r_frame_rate", JStr EmptyString); ("avg_frame_rate", JStr EmptyString);
          ("time_base", JStr EmptyString); ("duration_ts", JInt 0);
          ("duration", JStr EmptyString); ("bit_rate", JStr EmptyString);
          ("extradata_size", JInt 0); ("disposition", JDict []);
          ("tags", JDict []) ].

(** Lines 143-148: copy the container's encoder tag into the first video
    stream.  [video_streams[0]] is the same object as the list element,
    so the update is an update of the head of the list. *)
Definition add_encoder_tag (encoder : json) (video_streams : list json)
  : result (list json) :=
  match video_streams with
  | video_stream :: rest =>
      if truthy encoder then
        has_tags <- py_contains "tags" video_stream ;;
        video_stream <- (if has_tags then Ok video_stream
                         else py_setitem video_stream "tags" (JDict [])) ;;
        tags <- py_getitem video_stream "tags" ;;
        has_encoder <- py_contains "encoder" tags ;;
        if has_encoder then Ok (video_stream :: rest)
        else
          tags <- py_setitem tags "encoder" encoder ;;
          video_stream <- py_setitem video_stream "tags" tags ;;
          Ok (video_stream :: rest)
      else Ok video_streams
  | [] => Ok []
  end.

(** One turn of the merging loop, lines 208-211. *)
Definition merge_step (video_streams audio_streams merged : list json) (i : nat)
  : list json :=
  let merged :=
    match nth_error video_streams i with
    | Some v => merged ++ [v]
    | None => merged
    end in
  match nth_error audio_streams i with
  | Some a => merged ++ [a]
  | None => merged
  end.

(** Lines 205-211. *)
Definition merge_streams (video_streams audio_streams : list json) : list json :=
  let max_len := Nat.max (List.length video_streams) (List.length audio_streams) in
  fold_left (merge_step video_streams audio_streams) (seq 0 max_len) [].

(** [normalize_streams(profile)], lines 136-214.  The argument is
    mutated and returned by the source; the model returns the updated
    value. *)
Definition normalize_streams (profile : json) : result json :=
  streams_v <- py_get profile "streams" (JList []) ;;
  streams <- py_iter streams_v ;;
  video_streams <- streams_of_kind "video" streams ;;
  audio_streams <- streams_of_kind "audio" streams ;;
  format <- py_get profile "format" (JDict []) ;;
  format_tags <- py_get format "tags" (JDict []) ;;
  encoder <- py_get format_tags "encoder" JNull ;;
  video_streams <- add_encoder_tag encoder video_streams ;;
  let video_streams :=
    match video_streams with
    | [] => video_streams ++ [video_placeholder]
    | _ => video_streams
    end in
  let audio_streams :=
    match audio_streams with
    | [] => audio_streams ++ [audio_placeholder]
    | _ => audio_streams
    end in
  let merged := merge_streams video_streams audio_streams in
  py_setitem profile "streams" (JList merged).

End Normalize.

(** *** The probe itself *)

Section Probe.

Variable E : env.

Local Open Scope monad_scope.

(** [Popen.__exit__]: waits for the child, unless the block is left by
    [KeyboardInterrupt]; then it returns at once (at most after a short
    timed wait, which finds a child that the handler of [ffprobe] has
    already reaped) and the interrupt resumes. *)
Definition popen_exit {A} (process : nat) (r : result A) (w : world) : world :=
  match r with
  | Raise KeyboardInterrupt => w
  | _ => wait_w process w
  end.

(** [with Popen(args, stdin=PIPE, stdout=PIPE, stderr=PIPE) as process:
    body].  When the spawn fails nothing is created and the exception
    propagates; otherwise the handle is entered in the process table and
    the block is left through [Popen.__exit__]. *)
Definition with_Popen {A} (data : bytes)
    (body : nat -> communicate_outcome -> M world A) : M world A :=
  fun w =>
    match popen E (clock w) data with
    | SpawnError e => (Raise e, tick_w w)
    | Spawned c =>
        let process := List.length (procs w) in
        let w := tick_w w in
        let w := mk_world (files w) (procs w ++ [Running]) (journal w) (clock w) in
        let w := emit_w (EvSpawn process) w in
        then_exit (body process c) (popen_exit process) w
    end.

(** [process.communicate(data, timeout=10)] *)
Definition communicate (process : nat) (c : communicate_outcome) : M world string :=
  match c with
  | CommOk stdout => modify (set_proc process Reaped) ;; ret stdout
  | CommRaise e alive =>
      modify (set_proc process (if alive then Running else Exited)) ;; raise e
  end.

(** [ffprobe(data)], lines 90-111. *)
Definition ffprobe (data : bytes) : M world json :=
  with_Popen data (fun process c =>
    try_except_else
      (stdout <- communicate process c ;;
       lift (json_loads E stdout))
      (fun e =>
         modify (emit_w (EvLog Warning "ffprobe error")) ;;
         modify (kill_w process) ;;
         modify (wait_w process) ;;
         raise e)
      (fun profile => lift (normalize_streams profile))).

End Probe.

End Ffprobe.

(* ===================================================================== *)
(** ** [blrec.hls.operators.segment_dumper] *)

Module SegmentDumper.

(** The attributes of a [SegmentDumper] ([_path], [_file], [_filesize]),
    the variables of the closure made by [subscribe] ([disposed],
    [last_init_item]), the [is_stopped] flag of the observer that
    reactivex hands to [subscribe], and the world.  [_file] is the index
    of a file object in the world's [files]. *)
Record state : Type := mk_state {
  _path : string;
  _file : option nat;
  _filesize : Z;
  disposed : bool;
  last_init_item : option item;
  is_stopped : bool;
  w : world
}.

Definition set_path (p : string) (st : state) : state :=
  mk_state p (_file st) (_filesize st) (disposed st) (last_init_item st)
           (is_stopped st) (w st).
Definition set_file (f : option nat) (st : state) : state :=
  mk_state (_path st) f (_filesize st) (disposed st) (last_init_item st)
           (is_stopped st) (w st).
Definition set_filesize (n : Z) (st : state) : state :=
  mk_state (_path st) (_file st) n (disposed st) (last_init_item st)
           (is_stopped st) (w st).
Definition set_disposed (b : bool) (st : state) : state :=
  mk_state (_path st) (_file st) (_filesize st) b (last_init_item st)
           (is_stopped st) (w st).
Definition set_last_init_item (i : option item) (st : state) : state :=
  mk_state (_path st) (_file st) (_filesize st) (disposed st) i
           (is_stopped st) (w st).
Definition set_is_stopped (b : bool) (st : state) : state :=
  mk_state (_path st) (_file st) (_filesize st) (disposed st)
           (last_init_item st) b (w st).
Definition on_world (f : world -> world) (st : state) : state :=
  mk_state (_path st) (_file st) (_filesize st) (disposed st)
           (last_init_item st) (is_stopped st) (f (w st)).

(** A computation on the world alone, run inside the dumper. *)
Definition liftW {A} (m : M world A) : M state A :=
  fun st => let '(r, w') := m (w st) in (r, on_world (fun _ => w') st).

Definition emit (ev : event) : M state unit := modify (on_world (emit_w ev)).

Definition file_of (fd : nat) (wd : world) : file_obj :=
  nth fd (files wd) (mk_file EmptyString [] true).

Definition bytes_eqb (a b : bytes) : bool :=
  if list_eq_dec Byte.byte_eq_dec a b then true else false.

Section Dumper.

Variable E : env.

Local Open Scope monad_scope.

(** *** System calls *)

(** [open(path, 'wb')]: a new, empty file object. *)
Definition sys_open (path : string) : M state nat :=
  fun st =>
    let wd := w st in
    match open_wb E (clock wd) path with
    | Some e => (Raise e, on_world tick_w st)
    | None =>
        let fd := List.length (files wd) in
        let wd := mk_world (files wd ++ [mk_file path [] false]) (procs wd)
                           (journal wd ++ [EvOpen fd path]) (S (clock wd)) in
        (Ok fd, on_world (fun _ => wd) st)
    end.

(** [file.tell()] *)
Definition sys_tell (fd : nat) : M state Z :=
  fun st =>
    let f := file_of fd (w st) in
    if f_closed f then (Raise ValueError, st)
    else (Ok (Z.of_nat (List.length (f_data f))), st).

(** [file.write(data)]: either all of [data] is appended and its length
    returned, or the call raises and the file is left as it was. *)
Definition sys_write (fd : nat) (data : bytes) : M state Z :=
  fun st =>
    let wd := w st in
    let f := file_of fd wd in
    if f_closed f then (Raise ValueError, st)
    else
      match file_write E (clock wd) data with
      | Some e => (Raise e, on_world tick_w st)
      | None =>
          let f' := mk_file (f_path f) (f_data f ++ data) false in
          let wd := mk_world (update_nth fd (fun _ => f') (files wd)) (procs wd)
                             (journal wd ++ [EvWrite fd data]) (S (clock wd)) in
          (Ok (Z.of_nat (List.length data)), on_world (fun _ => wd) st)
      end.

(** [file.close()]: the buffer is flushed and the file object is
    closed.  When the flush fails the file object is closed all the
    same and the exception of the flush is raised; a file to which
    nothing was written has nothing to flush. *)
Definition sys_close (fd : nat) : M state unit :=
  fun st =>
    let wd := w st in
    let f := file_of fd wd in
    let wd' :=
      mk_world (update_nth fd (fun _ => mk_file (f_path f) (f_data f) true) (files wd))
               (procs wd) (journal wd ++ [EvClose fd]) (clock wd) in
    match f_data f, file_close E (clock wd) with
    | _ :: _, Some e => (Raise e, on_world (fun _ => wd') st)
    | _, _ => (Ok tt, on_world (fun _ => wd') st)
    end.

(** [self._path_provider()] *)
Definition call_path_provider : M state (string * Z) :=
  fun st => (path_provider E (clock (w st)), on_world tick_w st).

(** *** The observer given to [subscribe]

    reactivex wraps the subscriber in an auto-detaching observer: a
    notification after a terminal one is dropped, and a terminal
    notification disposes the subscription, that is, the upstream
    subscription and then [Disposable(dispose)], whose action runs at
    most once. *)

Definition observer_on_next (it : item) : M state unit :=
  stopped <- gets is_stopped ;;
  if stopped then ret tt else emit (EvForward it).

(** *** Methods of [SegmentDumper] *)

(** Lines 26-29. *)
Definition _reset : M state unit :=
  modify (set_path EmptyString) ;;
  modify (set_file None) ;;
  modify (set_filesize 0).

(** Lines 52-57. *)
Definition _open_file : M state unit :=
  pt <- call_path_provider ;;
  let '(path, timestamp) := pt in
  p <- lift (with_suffix_m4s E path) ;;
  modify (set_path p) ;;
  path <- gets _path ;;
  fd <- sys_open path ;;
  modify (set_file (Some fd)) ;;
  emit (EvLog Debug "Opened file") ;;
  path <- gets _path ;;
  emit (EvFileOpened path timestamp).

(** Lines 59-63. *)
Definition _close_file : M state unit :=
  file <- gets _file ;;
  match file with
  | Some fd =>
      closed <- gets (fun st => f_closed (file_of fd (w st))) ;;
      if negb closed then
        sys_close fd ;;
        emit (EvLog Debug "Closed file") ;;
        path <- gets _path ;;
        emit (EvFileClosed path)
      else ret tt
  | None => ret tt
  end.

(** Lines 65-70. *)
Definition _write_data (it : item) : M state (Z * Z) :=
  file <- gets _file ;;
  match file with
  | None => raise AssertionError
  | Some fd =>
      offset <- sys_tell fd ;;
      size <- sys_write fd (payload it) ;;
      if size =? item_len it then ret (offset, size)
      else raise AssertionError
  end.

(** Lines 72-73. *)
Definition _update_filesize (size : Z) : M state unit :=
  modify (fun st => set_filesize (_filesize st + size) st).

(** Lines 75-81. *)
Definition _is_redundant (prev_init_item : option item) (curr_init_item : item)
  : bool :=
  match prev_init_item with
  | Some prev => bytes_eqb (payload curr_init_item) (payload prev)
  | None => false
  end.

(** [next((s for s in streams if s.get('codec_type') == kind), None)]:
    the generator stops at the first match. *)
Fixpoint first_of_kind (kind : string) (streams : list json) : result json :=
  match streams with
  | [] => Ok JNull
  | s :: rest =>
      rbind (py_get s "codec_type" JNull) (fun t =>
      if py_eq t (JStr kind) then Ok s else first_of_kind kind rest)
  end.

Definition find_stream (kind : string) (profile : json) : result json :=
  rbind (py_getitem profile "streams") (fun streams =>
  rbind (py_iter streams) (fun l => first_of_kind kind l)).

(** [a[k] != b[k]] *)
Definition differs (a b : json) (k : string) : result bool :=
  rbind (py_getitem a k) (fun x =>
  rbind (py_getitem b k) (fun y => Ok (negb (py_eq x y)))).

(** [a.get(k) != b.get(k)] *)
Definition differs_get (a b : json) (k : string) : result bool :=
  rbind (py_get a k JNull) (fun x =>
  rbind (py_get b k JNull) (fun y => Ok (negb (py_eq x y)))).

(** Python's short-circuiting [or] of two conditions. *)
Definition or_else (c1 c2 : result bool) : result bool :=
  rbind c1 (fun b => if b then Ok true else c2).

(** Lines 105-114. *)
Definition compare_audio (prev_audio curr_audio : json) : M state unit :=
  if truthy prev_audio && truthy curr_audio then
    changed <- lift (or_else (differs prev_audio curr_audio "codec_name")
                    (or_else (differs prev_audio curr_audio "channels")
                    (or_else (differs prev_audio curr_audio "sample_rate")
                             (differs_get prev_audio curr_audio "bit_rate")))) ;;
    if changed then emit (EvLog Warning "Audio parameters changed") else ret tt
  else emit (EvLog Debug "skip audio comparison").

(** Lines 116-123. *)
Definition compare_video (prev_video curr_video : json) : M state unit :=
  changed <- lift (or_else (differs prev_video curr_video "codec_name")
                  (or_else (differs prev_video curr_video "width")
                  (or_else (differs prev_video curr_video "height")
                  (or_else (differs prev_video curr_video "coded_width")
                           (differs prev_video curr_video "coded_height"))))) ;;
  if changed then emit (EvLog Warning "Video parameters changed") else ret tt.

(** [prev_init_item.payload] once [prev_init_item] is known not to be
    [None]. *)
Definition payload_of (prev_init_item : option item) : bytes :=
  match prev_init_item with
  | Some prev => payload prev
  | None => []
  end.

(** The test of line 87.  An item is false when its length is zero. *)
Definition no_usable_prev (prev_init_item : option item) : bool :=
  match prev_init_item with
  | None => true
  | Some prev =>
      (item_len prev =? 0) ||
      match payload prev with [] => true | _ => false end
  end.

(** Lines 83-125. *)
Definition _must_split_file (prev_init_item : option item) (curr_init_item : item)
  : M state bool :=
  if no_usable_prev prev_init_item then
    curr_profile <- liftW (Ffprobe.ffprobe E (payload curr_init_item)) ;;
    ret true
  else
    prev_profile <- liftW (Ffprobe.ffprobe E (payload_of prev_init_item)) ;;
    emit (EvLog Debug "previous init section profile") ;;
    curr_profile <- liftW (Ffprobe.ffprobe E (payload curr_init_item)) ;;
    emit (EvLog Debug "current init section profile") ;;
    prev_video <- lift (find_stream "video" prev_profile) ;;
    curr_video <- lift (find_stream "video" curr_profile) ;;
    prev_audio <- lift (find_stream "audio" prev_profile) ;;
    curr_audio <- lift (find_stream "audio" curr_profile) ;;
    compare_audio prev_audio curr_audio ;;
    compare_video prev_video curr_video ;;
    ret true.

(** Lines 127-128. *)
Definition _need_split_file (it : item) : json :=
  match dict_get "split" (custom_parser_values it) with
  | Some v => v
  | None => JBool false
  end.

(** *** The closures of [subscribe] *)

(** Lines 185-191. *)
Definition dispose : M state unit :=
  modify (set_disposed true) ;;
  modify (set_last_init_item None) ;;
  _close_file ;;
  _reset.

(** Disposal of the subscription returned by [subscribe]. *)
Definition dispose_subscription : M state unit :=
  d <- gets disposed ;;
  if d then ret tt else dispose.

Definition observer_on_error (e : exn) : M state unit :=
  stopped <- gets is_stopped ;;
  if stopped then ret tt
  else
    modify (set_is_stopped true) ;;
    emit (EvError e) ;;
    dispose_subscription.

Definition observer_on_completed : M state unit :=
  stopped <- gets is_stopped ;;
  if stopped then ret tt
  else
    modify (set_is_stopped true) ;;
    emit EvCompleted ;;
    dispose_subscription.

(** Lines 159-168: the body of the [try]. *)
Definition write_items (split_file : bool) (it : item) : M state unit :=
  (if split_file && match kind it with InitSectionData => false | _ => true end
   then
     last <- gets last_init_item ;;
     match last with
     | None => raise AssertionError
     | Some last =>
         os <- _write_data last ;;
         let '(offset, size) := os in
         _update_filesize size ;;
         observer_on_next (evolve_offset last offset)
     end
   else ret tt) ;;
  os <- _write_data it ;;
  let '(offset, size) := os in
  _update_filesize size ;;
  observer_on_next (evolve_offset it offset).

(** Lines 169-173: the handler. *)
Definition write_failed (e : exn) : M state unit :=
  emit (EvLog ErrorLevel "Failed to write data") ;;
  _close_file ;;
  _reset ;;
  observer_on_error e.

(** Lines 141-173. *)
Definition on_next (it : item) : M state unit :=
  decided <-
    match kind it with
    | InitSectionData =>
        last <- gets last_init_item ;;
        if _is_redundant last it then ret None
        else
          split_file <- _must_split_file last it ;;
          modify (set_last_init_item (Some it)) ;;
          ret (Some (JBool split_file))
    | SegmentData => ret (Some (JBool false))
    end ;;
  match decided with
  | None => ret tt
  | Some split_file =>
      let split_file :=
        if negb (truthy split_file) then _need_split_file it else split_file in
      (if truthy split_file then _close_file ;; _reset ;; _open_file
       else ret tt) ;;
      try_except_Exception (write_items (truthy split_file) it) write_failed
  end.

(** Lines 175-178. *)
Definition on_completed : M state unit :=
  _close_file ;;
  _reset ;;
  observer_on_completed.

(** Lines 180-183. *)
Definition on_error (e : exn) : M state unit :=
  _close_file ;;
  _reset ;;
  observer_on_error e.

(** *** A session *)

(** What can happen to a subscription: the three notifications of the
    source and the consumer disposing of it. *)
Inductive notification : Type :=
| Next (it : item)
| Error (e : exn)
| Completed
| Cancel.

(** The disposable that [Observable.subscribe] returns to the consumer
    stops the observer and disposes the subscription. *)
Definition cancel : M state unit :=
  modify (set_is_stopped true) ;;
  dispose_subscription.

Definition handler (n : notification) : M state unit :=
  match n with
  | Next it => on_next it
  | Error e => on_error e
  | Completed => on_completed
  | Cancel => cancel
  end.

(** One notification.  Nothing is delivered once the subscription is
    disposed; an exception that leaves a handler goes back to the
    source and is recorded. *)
Definition deliver (st : state) (n : notification) : state :=
  if disposed st then st
  else
    match handler n st with
    | (Ok _, st') => st'
    | (Raise e, st') => on_world (emit_w (EvEscaped e)) st'
    end.

Definition run (ns : list notification) (st : state) : state :=
  fold_left deliver ns st.

End Dumper.

(** The dumper after [__init__] and the closure after [subscribe], in a
    given world. *)
Definition subscribed (wd : world) : state :=
  mk_state EmptyString None 0 false None false wd.

Definition init_state : state := subscribed empty_world.

(** [subscribe] on a dumper that has been used before: the closure
    variables and the observer are new, the attributes are not reset. *)
Definition subscribe (st : state) : state :=
  mk_state (_path st) (_file st) (_filesize st) false None false (w st).

End SegmentDumper.

(* ===================================================================== *)
(** ** [blrec.hls.operators.analyser] *)

Module Analyser.

(** The attributes of an [Analyser] that its own methods assign.  The
    two audio attributes are created by the first profile update, not by
    [__init__]: [None] stands for an attribute that does not exist yet,
    [Some JNull] for the Python value [None]. *)
Record analyser : Type := mk_analyser {
  _video_width : json;
  _video_height : json;
  _audio_sample_rate : option json;
  _audio_channels : option json
}.

(** Lines 40-42. *)
Definition _reset (self : analyser) : analyser :=
  mk_analyser (JInt 0) (JInt 0) (_audio_sample_rate self) (_audio_channels self).

(** The analyser as [__init__] leaves it (lines 33-38). *)
Definition init : analyser :=
  _reset (mk_analyser JNull JNull None None).

Local Open Scope result_scope.

(** Lines 44-63. *)
Definition _on_profile_updated (self : analyser) (profile : json) : result analyser :=
  streams_v <- py_get profile "streams" (JList []) ;;
  streams <- py_iter streams_v ;;
  video_profiles <- Ffprobe.streams_of_kind "video" streams ;;
  audio_profiles <- Ffprobe.streams_of_kind "audio" streams ;;
  self <-
    match video_profiles with
    | vp :: _ =>
        width <- py_get vp "width" (JInt 0) ;;
        height <- py_get vp "height" (JInt 0) ;;
        Ok (mk_analyser width height (_audio_sample_rate self) (_audio_channels self))
    | [] =>
        Ok (mk_analyser (JInt 0) (JInt 0) (_audio_sample_rate self) (_audio_channels self))
    end ;;
  match audio_profiles with
  | ap :: _ =>
      sample_rate <- py_get ap "sample_rate" JNull ;;
      channels <- py_get ap "channels" JNull ;;
      Ok (mk_analyser (_video_width self) (_video_height self)
                      (Some sample_rate) (Some channels))
  | [] =>
      Ok (mk_analyser (_video_width self) (_video_height self)
                      (Some JNull) (Some JNull))
  end.

(** The analyser, the [disposed] variable of the closure made by
    [subscribe], the [is_stopped] flag of the observer given to it and
    what that observer has received. *)
Record state : Type := mk_state {
  self : analyser;
  disposed : bool;
  is_stopped : bool;
  forwarded : list event
}.

(** Lines 93-96. *)
Definition dispose (st : state) : state :=
  mk_state (_reset (self st)) true (is_stopped st) (forwarded st).

Definition dispose_subscription (st : state) : state :=
  if disposed st then st else dispose st.

(** The auto-detaching observer of reactivex, as for the dumper. *)
Definition observer_terminal (ev : event) (st : state) : state :=
  if is_stopped st then st
  else dispose_subscription
         (mk_state (self st) (disposed st) true (forwarded st ++ [ev])).

(** Lines 90-91. *)
Definition on_next (it : item) (st : state) : state :=
  if is_stopped st then st
  else mk_state (self st) (disposed st) (is_stopped st)
                (forwarded st ++ [EvForward it]).

(** Lines 81-88: a new subscription resets the analyser. *)
Definition subscribe (a : analyser) : state :=
  mk_state (_reset a) false false [].

Inductive notification : Type :=
| Next (it : item)
| Error (e : exn)
| Completed
| Cancel.

(** The source is subscribed with [on_next], [observer.on_error] and
    [observer.on_completed] (lines 98-100). *)
Definition deliver (st : state) (n : notification) : state :=
  if disposed st then st
  else
    match n with
    | Next it => on_next it st
    | Error e => observer_terminal (EvError e) st
    | Completed => observer_terminal EvCompleted st
    | Cancel =>
        dispose_subscription
          (mk_state (self st) (disposed st) true (forwarded st))
    end.

Definition run (ns : list notification) (st : state) : state :=
  fold_left deliver ns st.

(** A profile published by the prober.  The subscription made in
    [__init__] (line 38) lasts as long as the analyser, whatever the
    state of a session; [_on_profile_updated] raises before its first
    assignment or not at all, so a failed update leaves the analyser as
    it was. *)
Definition profile_updated (profile : json) (st : state) : state :=
  match _on_profile_updated (self st) profile with
  | Ok a => mk_state a (disposed st) (is_stopped st) (forwarded st)
  | Raise _ => st
  end.

End Analyser.

(* ===================================================================== *)
(** ** Vocabulary of the properties *)

Module Props.

(** *** Probe results *)

(** The test of the list comprehensions: [s.get('codec_type') == kind]. *)
Definition is_kind (kind : string) (s : json) : bool :=
  match py_get s "codec_type" JNull with
  | Ok t => py_eq t (JStr kind)
  | Raise _ => false
  end.

Definition codec_name (s : json) : option json :=
  match s with
  | JDict d => dict_get "codec_name" d
  | _ => None
  end.

(** The stream descriptors of the raw probe output, as
    [normalize_streams] reads them. *)
Definition raw_streams (profile : json) : result (list json) :=
  rbind (py_get profile "streams" (JList [])) py_iter.

Definition is_dict (v : json) : bool :=
  match v with JDict _ => true | _ => false end.

Definition absent_or_dict (o : option json) : bool :=
  match o with None => true | Some v => is_dict v end.

(** A value that has the shape of the [StreamProfile] declaration
    (ffprobe.py, lines 21-87): every part is optional, [streams] is a
    list of objects, [format] is an object, and [tags] are objects. *)
Definition typed_descriptor (s : json) : bool :=
  match s with
  | JDict d => absent_or_dict (dict_get "tags" d)
  | _ => false
  end.

Definition typed_profile (profile : json) : bool :=
  match profile with
  | JDict d =>
      match dict_get "streams" d with
      | None => true
      | Some (JList l) => forallb typed_descriptor l
      | Some _ => false
      end &&
      match dict_get "format" d with
      | None => true
      | Some f => typed_descriptor f
      end
  | _ => false
  end.

(** Modelled from the spec: a "zeroed/empty" field value is the number
    zero, the empty string or the empty object. *)
Definition blank (v : json) : bool :=
  match v with
  | JInt z => z =? 0
  | JStr s => String.eqb s EmptyString
  | JDict d => match d with [] => true | _ => false end
  | _ => false
  end.

(** The keys of a descriptor, in order. *)
Definition field_names (s : json) : list string :=
  match s with
  | JDict d => map fst d
  | _ => []
  end.

(** [s.get(k)] on a descriptor. *)
Definition field_of (k : string) (s : json) : option json :=
  match s with
  | JDict d => dict_get k d
  | _ => None
  end.

(** *** Journals *)

Definition add_write_to (fd : nat) (acc : Z) (ev : event) : Z :=
  match ev with
  | EvWrite fd' data =>
      if Nat.eqb fd' fd then acc + Z.of_nat (List.length data) else acc
  | _ => acc
  end.

(** The number of bytes that the journal records as written to file
    object [fd]. *)
Definition bytes_written (fd : nat) (j : list event) : Z :=
  fold_left (add_write_to fd) j 0.

Definition add_write_since (acc : Z) (ev : event) : Z :=
  match ev with
  | EvOpen _ _ => 0
  | EvClose _ => 0
  | EvWrite _ data => acc + Z.of_nat (List.length data)
  | _ => acc
  end.

(** The sum of the sizes of the writes recorded after the last time a
    file was opened or closed. *)
Definition written_since_rotation (j : list event) : Z :=
  fold_left add_write_since j 0.

(** What the downstream observer has received, in order. *)
Definition forwarded_items (j : list event) : list item :=
  flat_map (fun ev => match ev with EvForward it => [it] | _ => [] end) j.

(** The [fileOpened] notifications, in order. *)
Definition file_opened_events (j : list event) : list (string * Z) :=
  flat_map (fun ev => match ev with EvFileOpened p t => [(p, t)] | _ => [] end) j.

Definition file_closed_events (j : list event) : list string :=
  flat_map (fun ev => match ev with EvFileClosed p => [p] | _ => [] end) j.

(** Events that touch neither a file nor the downstream observer. *)
Definition quiet (ev : event) : Prop :=
  match ev with
  | EvSpawn _ | EvKill _ | EvWait _ _ | EvLog _ _ => True
  | _ => False
  end.

Definition all_reaped (ps : list proc_state) : Prop :=
  Forall (fun p => p = Reaped) ps.

Definition all_closed (fs : list file_obj) : Prop :=
  Forall (fun f => f_closed f = true) fs.

(** An environment in which the path provider, the suffix change, the
    opening of files and the writes all succeed. *)
Definition reliable_io (E : env) : Prop :=
  (forall n, exists p t, path_provider E n = Ok (p, t)) /\
  (forall p, exists q, with_suffix_m4s E p = Ok q) /\
  (forall n p, open_wb E n p = None) /\
  (forall n d, file_write E n d = None).

(** Closing a file never fails. *)
Definition close_ok (E : env) : Prop := forall n, file_close E n = None.

(** The path provider, the suffix change, [open], [write] and [close]
    all succeed. *)
Definition reliable_disk (E : env) : Prop := reliable_io E /\ close_ok E.

End Props.
Import Props.

(* ===================================================================== *)
(** ** Concrete inputs *)

Module Examples.

(** An environment in which everything works and ffprobe prints an
    empty object, as it does for a payload it cannot read. *)
Definition calm : env :=
  mk_env (fun n => Ok ("rec", Z.of_nat n))
         (fun p => Ok (p ++ ".m4s")%string)
         (fun _ _ => None)
         (fun _ _ => None)
         (fun _ => None)
         (fun _ _ => Spawned (CommOk "{}"))
         (fun _ => Ok (JDict [])).

Definition initA : item := mk_item InitSectionData [] [x01; x02] 0.
Definition initB : item := mk_item InitSectionData [] [x0a; x0b; x0c] 0.
Definition seg1 : item := mk_item SegmentData [] [x03] 0.
Definition seg2 : item :=
  mk_item SegmentData [("split", JBool true)] [x04; x05] 0.
Definition seg3 : item := mk_item SegmentData [] [x06] 0.


(** The disk is full from the third write on: the write fails, and so
    does the flush of every later [close()]. *)
Definition disk_full : env :=
  mk_env (path_provider calm) (with_suffix_m4s calm) (open_wb calm)
         (fun n _ => if (5 <=? n)%nat then Some OSError else None)
         (fun n => if (5 <=? n)%nat then Some OSError else None)
         (popen calm) (json_loads calm).

(** ffprobe answers for [initA] and hangs on every other payload until
    the timeout. *)
Definition probe_hangs : env :=
  mk_env (path_provider calm) (with_suffix_m4s calm) (open_wb calm)
         (file_write calm) (file_close calm)
         (fun _ data =>
            if SegmentDumper.bytes_eqb data (payload initA)
            then Spawned (CommOk "{}")
            else Spawned (CommRaise TimeoutExpired true))
         (json_loads calm).

(** A probe output with one video and one audio stream. *)
Definition av_profile : json :=
  JDict [ ("streams",
           JList [ JDict [ ("index", JInt 0); ("codec_name", JStr "h264");
                           ("codec_type", JStr "video");
                           ("width", JInt 1920); ("height", JInt 1080);
                           ("coded_width", JInt 1920);
                           ("coded_height", JInt 1088) ];
                   JDict [ ("index", JInt 1); ("codec_name", JStr "aac");
                           ("codec_type", JStr "audio");
                           ("sample_rate", JStr "48000");
                           ("channels", JInt 2);
                           ("bit_rate", JStr "128000") ] ]);
          ("format", JDict [ ("tags", JDict [ ("encoder", JStr "Lavf") ]) ]) ].

(** The same streams at another resolution. *)
Definition av_profile_720 : json :=
  JDict [ ("streams",
           JList [ JDict [ ("index", JInt 0); ("codec_name", JStr "h264");
                           ("codec_type", JStr "video");
                           ("width", JInt 1280); ("height", JInt 720);
                           ("coded_width", JInt 1280);
                           ("coded_height", JInt 720) ];
                   JDict [ ("index", JInt 1); ("codec_name", JStr "aac");
                           ("codec_type", JStr "audio");
                           ("sample_rate", JStr "48000");
                           ("channels", JInt 2);
                           ("bit_rate", JStr "128000") ] ]) ].

(** ffprobe reports [av_profile] for the payload of [initA] and
    [av_profile_720] for every other payload. *)
Definition codec_change : env :=
  mk_env (path_provider calm) (with_suffix_m4s calm) (open_wb calm)
         (file_write calm) (file_close calm)
         (fun _ data =>
            if SegmentDumper.bytes_eqb data (payload initA)
            then Spawned (CommOk "1080p")
            else Spawned (CommOk "720p"))
         (fun out => if String.eqb out "1080p" then Ok av_profile
                     else Ok av_profile_720).

(** ffprobe prints a JSON document that is a list, not an object. *)
Definition list_output : env :=
  mk_env (path_provider calm) (with_suffix_m4s calm) (open_wb calm)
         (file_write calm) (file_close calm)
         (fun _ _ => Spawned (CommOk "[]"))
         (fun _ => Ok (JList [])).

(** The user interrupts the program while it waits for ffprobe. *)
Definition interrupted : env :=
  mk_env (path_provider calm) (with_suffix_m4s calm) (open_wb calm)
         (file_write calm) (file_close calm)
         (fun _ _ => Spawned (CommRaise KeyboardInterrupt true))
         (json_loads calm).

(** A probe output with a video stream, a data stream and a subtitle
    stream. *)
Definition with_data_stream : json :=
  JDict [ ("streams",
           JList [ JDict [ ("index", JInt 0); ("codec_type", JStr "data") ];
                   JDict [ ("index", JInt 1); ("codec_type", JStr "video");
                           ("codec_name", JStr "hevc") ];
                   JDict [ ("index", JInt 2); ("codec_type", JStr "subtitle") ] ]) ].

End Examples.

(* ===================================================================== *)
(** ** Invariants of a session and the logic to establish them *)

Module Invariants.

Import SegmentDumper.

(** The world that [ffprobe] leaves when a child was spawned: the child
    is reaped and the journal has grown by the spawn and [evs]. *)
Definition after_probe (wd : world) (evs : list event) : world :=
  mk_world (files wd) (procs wd ++ [Reaped])
           (journal wd ++ EvSpawn (List.length (procs wd)) :: evs)
           (S (clock wd)).

(** The [wait()] of [Popen.__exit__], which finds the child reaped; it
    is not made when the block is left by [KeyboardInterrupt]. *)
Definition exit_wait (pid : nat) (e : exn) : list event :=
  match e with
  | KeyboardInterrupt => []
  | _ => [EvWait pid Reaped]
  end.

(** A triple with one postcondition for a normal return and one for an
    exception. *)
Definition hoare {A} (P : state -> Prop) (m : M state A)
    (Q : A -> state -> Prop) (R : exn -> state -> Prop) : Prop :=
  forall st, P st ->
    match m st with
    | (Ok a, st') => Q a st'
    | (Raise e, st') => R e st'
    end.

(** A computation that keeps [P] whether it returns or raises. *)
Definition preserves {A} (P : state -> Prop) (m : M state A) : Prop :=
  hoare P m (fun _ => P) (fun _ => P).

(** Events that are neither an operation on a file nor an item handed
    downstream. *)
Definition inert (ev : event) : Prop :=
  match ev with
  | EvOpen _ _ | EvWrite _ _ | EvClose _ | EvForward _ => False
  | _ => True
  end.

(** Every forwarded item comes right after the write of its payload and
    carries the number of bytes written to that file before. *)
Definition offsets_ok (j : list event) : Prop :=
  forall pre it post,
    j = pre ++ EvForward it :: post ->
    exists pre' fd,
      pre = pre' ++ [EvWrite fd (payload it)] /\
      offset it = bytes_written fd pre'.

(** The content of every file object is what the journal says was
    written to it, and nothing was written to a file object that does
    not exist yet. *)
Definition files_match (fs : list file_obj) (j : list event) : Prop :=
  (forall fd f, nth_error fs fd = Some f ->
                Z.of_nat (List.length (f_data f)) = bytes_written fd j) /\
  (forall fd, (List.length fs <= fd)%nat -> bytes_written fd j = 0).

Definition world_ok (wd : world) : Prop :=
  files_match (files wd) (journal wd) /\ offsets_ok (journal wd).

(** The accounting of the dumper: with a file at hand, [_filesize] is
    the number of bytes written to it and no other file is open; while
    that file is open these are the bytes written since it was opened
    (it is found closed only after a [close()] that raised); without a
    file at hand, [_filesize] is zero and every file is closed. *)
Definition accounted (st : state) : Prop :=
  match _file st with
  | Some fd =>
      exists f,
        nth_error (files (w st)) fd = Some f /\
        _filesize st = bytes_written fd (journal (w st)) /\
        written_since_rotation (journal (w st)) =
          (if f_closed f then 0 else _filesize st) /\
        (forall fd' f', nth_error (files (w st)) fd' = Some f' ->
                        f_closed f' = false -> fd' = fd)
  | None =>
      _filesize st = 0 /\
      written_since_rotation (journal (w st)) = 0 /\
      all_closed (files (w st))
  end.

Definition Inv (st : state) : Prop := world_ok (w st) /\ accounted st.

(** Between [_close_file] and [_reset]. *)
Definition Closed (st : state) : Prop :=
  world_ok (w st) /\
  written_since_rotation (journal (w st)) = 0 /\
  all_closed (files (w st)).

(** A step that leaves the attributes, the closure, the observer and
    the files alone and adds only events about child processes and the
    log. *)
Definition quiet_step (st st' : state) : Prop :=
  _path st' = _path st /\ _file st' = _file st /\
  _filesize st' = _filesize st /\
  disposed st' = disposed st /\ last_init_item st' = last_init_item st /\
  is_stopped st' = is_stopped st /\
  files (w st') = files (w st) /\
  exists evs, journal (w st') = journal (w st) ++ evs /\ Forall quiet evs.

Definition quietly {A} (m : M state A) : Prop :=
  forall st, quiet_step st (snd (m st)).

(** Every value that [m] returns satisfies [P]. *)
Definition yields {A} (P : A -> Prop) (m : M state A) : Prop :=
  forall st a, fst (m st) = Ok a -> P a.

(** Lines 162-164 and 166-168: write an item, count its size, hand it
    downstream with its offset. *)
Definition write_forward (E : env) (it : item) : M state unit :=
  bind (_write_data E it) (fun os =>
  let '(offset, size) := os in
  bind (_update_filesize size) (fun _ =>
  observer_on_next (evolve_offset it offset))).

(** [st'] has the attributes [_path] and [_file], the closure and the
    observer of [st]. *)
Definition same_session (st st' : state) : Prop :=
  _path st' = _path st /\ _file st' = _file st /\
  disposed st' = disposed st /\ last_init_item st' = last_init_item st /\
  is_stopped st' = is_stopped st.

(** What [_close_file] adds to the journal of [st]. *)
Definition closing_events (st : state) : list event :=
  match _file st with
  | Some fd =>
      if f_closed (file_of fd (w st)) then []
      else [EvClose fd; EvLog Debug "Closed file"; EvFileClosed (_path st)]
  | None => []
  end.

(** The session is over: the attributes are back to what [__init__]
    set, the closure has been disposed of and no file is open. *)
Definition finished (st : state) : Prop :=
  _path st = EmptyString /\ _file st = None /\ _filesize st = 0 /\
  disposed st = true /\ last_init_item st = None /\
  all_closed (files (w st)).

(** The session is live: not disposed of, and the observer has not
    received a terminal notification. *)
Definition live (st : state) : Prop :=
  disposed st = false /\ is_stopped st = false.

(** A session is either live or finished and stopped for good. *)
Definition settled (st : state) : Prop :=
  live st \/ (finished st /\ is_stopped st = true).

(** What a terminal handler leaves: the session finished, the observer
    stopped, the invariant intact. *)
Definition over (st : state) : Prop :=
  Inv st /\ finished st /\ is_stopped st = true.

End Invariants.


(* ===================================================================== *)
(** ** Further vocabulary: stream order, the one-shot probe, file events *)

Module Streams.

(** Strict alternation of two lists, the longer one continuing alone. *)
Fixpoint interleave (vs as_ : list json) : list json :=
  match vs, as_ with
  | [], _ => as_
  | _, [] => vs
  | v :: vs', a :: as' => v :: a :: interleave vs' as'
  end.

(** [profile.get('format', {}).get('tags', {}).get('encoder')],
    ffprobe.py line 142. *)
Definition format_encoder (profile : json) : result json :=
  rbind (py_get profile "format" (JDict [])) (fun format =>
  rbind (py_get format "tags" (JDict [])) (fun tags =>
  py_get tags "encoder" JNull)).

(** [s['tags']['encoder']] when both keys are there. *)
Definition encoder_tag (s : json) : option json :=
  match s with
  | JDict d =>
      match dict_get "tags" d with
      | Some (JDict t) => dict_get "encoder" t
      | _ => None
      end
  | _ => None
  end.

(** The value of key [k] of a descriptor. *)
Definition field (k : string) (s : json) : option json :=
  match s with
  | JDict d => dict_get k d
  | _ => None
  end.

(** The stream list of a profile, when it is a list. *)
Definition streams_of (profile : json) : list json :=
  match field "streams" profile with
  | Some (JList l) => l
  | _ => []
  end.

End Streams.

Module ProbeOn.

(** What the observer of [ffprobe_on] receives. *)
Inductive notification : Type :=
| OnNext (profile : json)
| OnError (e : exn)
| OnCompleted.

(** [ffprobe_on(data)], ffprobe.py lines 114-133: the action that the
    scheduler runs.  The result is what the observer has received when
    the action returns, or the exception that leaves the action. *)
Definition ffprobe_on (E : env) (data : bytes) : M world (list notification) :=
  fun wd =>
    match Ffprobe.ffprobe E data wd with
    | (Ok profile, wd') => (Ok [OnNext profile; OnCompleted], wd')
    | (Raise e, wd') =>
        if is_Exception e
        then (Ok [OnError e],
              emit_w (EvLog Debug "ffprobe exception") wd')
        else (Raise e, wd')
    end.

End ProbeOn.

Module Snapshot.

Import Analyser.

(** [MetaData], analyser.py lines 18-23.  The duration comes from the
    playlist dumper, which is not part of these sources; its type is
    left open. *)
Record MetaData (D : Type) : Type := mk_MetaData {
  duration : D;
  filesize : Z;
  width : json;
  height : json
}.
Arguments mk_MetaData {D}.
Arguments duration {D}.
Arguments filesize {D}.
Arguments width {D}.
Arguments height {D}.

(** [make_metadata], analyser.py lines 65-71; [playlist_duration] is
    [self._playlist_dumper.duration]. *)
Definition make_metadata {D} (playlist_duration : D)
    (segment_dumper : SegmentDumper.state) (self : analyser) : MetaData D :=
  mk_MetaData playlist_duration (SegmentDumper._filesize segment_dumper)
              (_video_width self) (_video_height self).

End Snapshot.

Module Pairing.

Import SegmentDumper Invariants.

(** The file objects and the lifecycle notifications agree: one
    [fileOpened] per file object, in order and with its path; one
    [fileClosed] per closed file object. *)
Definition announced (st : state) : Prop :=
  map fst (file_opened_events (journal (w st))) = map f_path (files (w st)) /\
  file_closed_events (journal (w st)) =
    map f_path (filter f_closed (files (w st))).

(** Between two notifications, where no [close()] fails: the
    notifications agree with the file objects, and the file at hand is
    open, is the last one opened and is at [_path]. *)
Definition paired (st : state) : Prop :=
  announced st /\
  (forall fd, _file st = Some fd ->
              f_closed (file_of fd (w st)) = false /\
              S fd = List.length (files (w st)) /\
              _path st = f_path (file_of fd (w st))).

(** Events that are no lifecycle notification. *)
Definition unnotified (ev : event) : Prop :=
  match ev with
  | EvFileOpened _ _ | EvFileClosed _ => False
  | _ => True
  end.

(** Log entries and the notifications that end a session. *)
Definition plain (ev : event) : Prop :=
  match ev with
  | EvLog _ _ | EvError _ | EvCompleted | EvEscaped _ => True
  | _ => False
  end.

(** Lines 155-157. *)
Definition rotate (E : env) : M state unit :=
  bind (_close_file E) (fun _ => bind (_reset) (fun _ => _open_file E)).

(** [f] is [it] with another offset. *)
Definition same_item (it f : item) : Prop :=
  kind f = kind it /\ custom_parser_values f = custom_parser_values it /\
  payload f = payload it.

(** Everything handed downstream, and the retained InitSection, stems
    from an item in [src]. *)
Definition stems_from (src : item -> Prop) (st : state) : Prop :=
  (forall f, In f (forwarded_items (journal (w st))) ->
             exists it, src it /\ same_item it f) /\
  (forall l, last_init_item st = Some l -> src l).

(** The items among the notifications. *)
Definition delivered (ns : list notification) (it : item) : Prop :=
  In (Next it) ns.

(** [l] begins with [pre]. *)
Definition starts_with (pre l : bytes) : Prop := exists rest, l = pre ++ rest.

(** An InitSection among the items of [src]. *)
Definition init_of (src : item -> Prop) (it : item) : Prop :=
  src it /\ kind it = InitSectionData.

(** A file that is empty or begins with the payload of an
    InitSection. *)
Definition headed (src : item -> Prop) (f : file_obj) : Prop :=
  f_data f = [] \/ exists it, init_of src it /\ starts_with (payload it) (f_data f).

Definition files_headed (src : item -> Prop) (st : state) : Prop :=
  Forall (headed src) (files (w st)) /\
  (forall l, last_init_item st = Some l -> init_of src l).

(** The file at hand, if open, is still empty (between lines 157 and
    160). *)
Definition fresh_file (st : state) : Prop :=
  forall fd, _file st = Some fd -> f_closed (file_of fd (w st)) = false ->
             f_data (file_of fd (w st)) = [].

(** Between two notifications: every file is empty or begins with an
    InitSection, and the file at hand, open or closed, has its
    InitSection. *)
Definition init_headed (src : item -> Prop) (st : state) : Prop :=
  files_headed src st /\
  (forall fd, _file st = Some fd ->
              exists it, init_of src it /\
                         starts_with (payload it) (f_data (file_of fd (w st)))).

End Pairing.

(* ===================================================================== *)
(** ** The comparisons of [_must_split_file] *)

Module Comparison.

(** A computation that returns, or fails on a missing key among
    [keys]. *)
Definition key_error_only {A} (keys : list string) (r : result A) : Prop :=
  (exists a, r = Ok a) \/ exists k, In k keys /\ r = Raise (KeyError k).

(** The keys read with [[]] in lines 107-109 and 117-121. *)
Definition audio_keys : list string := ["codec_name"; "channels"; "sample_rate"].
Definition video_keys : list string :=
  ["codec_name"; "width"; "height"; "coded_width"; "coded_height"].

(** Every key of [keys] is a key of the descriptor [s]. *)
Definition has_keys (keys : list string) (s : json) : bool :=
  forallb (fun k => match Props.field_of k s with Some _ => true | None => false end)
          keys.

(** The value of a parameter in a descriptor, [None] when the
    descriptor does not have it. *)
Definition parameter (k : string) (s : json) : json :=
  match Props.field_of k s with
  | Some v => v
  | None => JNull
  end.

(** Modelled from the spec: the video parameters whose mismatch is
    reported are the codec, the resolution and the coded size. *)
Definition video_parameters : list string :=
  ["codec_name"; "width"; "height"; "coded_width"; "coded_height"].

(** Modelled from the spec: the audio parameters whose mismatch is
    reported are the codec, the channel count, the sample rate and the
    bit rate. *)
Definition audio_parameters : list string :=
  ["codec_name"; "channels"; "sample_rate"; "bit_rate"].

(** Modelled from the spec: two descriptors mismatch when one of the
    parameters has different values in them. *)
Definition mismatch (params : list string) (a b : json) : bool :=
  existsb (fun k => negb (py_eq (parameter k a) (parameter k b))) params.

(** The warnings that report a mismatch of the audio and of the video
    parameters. *)
Definition mismatch_warnings (a1 a2 v1 v2 : json) : list event :=
  (if mismatch audio_parameters a1 a2
   then [EvLog Warning "Audio parameters changed"] else []) ++
  (if mismatch video_parameters v1 v2
   then [EvLog Warning "Video parameters changed"] else []).

End Comparison.
(* ===================================================================== *)
(** ** Properties of [normalize_streams] *)

Module FfprobeProofs.

Import Ffprobe.

Lemma py_eq_str (t : json) (s : string) :
  py_eq t (JStr s) = true -> t = JStr s.
Proof.
  destruct t; simpl; try discriminate.
  intros H. apply String.eqb_eq in H. now subst.
Qed.

Lemma kinds_disjoint (s : json) :
  is_kind "video" s = true -> is_kind "audio" s = false.
Proof.
  unfold is_kind. destruct (py_get s "codec_type" JNull) as [t|]; [|discriminate].
  intros H. apply py_eq_str in H. subst. reflexivity.
Qed.

Lemma kinds_disjoint' (s : json) :
  is_kind "audio" s = true -> is_kind "video" s = false.
Proof.
  unfold is_kind. destruct (py_get s "codec_type" JNull) as [t|]; [|discriminate].
  intros H. apply py_eq_str in H. subst. reflexivity.
Qed.

(** The comprehension is a filter, and it raises only on an element that
    is not an object. *)
Lemma streams_of_kind_filter (kind : string) (streams r : list json) :
  streams_of_kind kind streams = Ok r -> r = filter (is_kind kind) streams.
Proof.
  revert r. induction streams as [|s rest IH]; simpl; intros r H.
  - now inversion H.
  - unfold is_kind. destruct (py_get s "codec_type" JNull) as [t|]; simpl in *; [|discriminate].
    destruct (streams_of_kind kind rest) as [tl|]; simpl in *; [|discriminate].
    inversion H; subst. rewrite (IH tl eq_refl). reflexivity.
Qed.

Lemma streams_of_kind_all (kind : string) (streams r : list json) :
  streams_of_kind kind streams = Ok r -> Forall (fun s => is_kind kind s = true) r.
Proof.
  intros H. apply streams_of_kind_filter in H. subst.
  apply Forall_forall. intros s Hs. apply filter_In in Hs. tauto.
Qed.

Lemma streams_of_kind_total (kind : string) (streams : list json) :
  forallb is_dict streams = true ->
  exists r, streams_of_kind kind streams = Ok r.
Proof.
  induction streams as [|s rest IH]; simpl; intros H.
  - now eexists.
  - apply andb_prop in H. destruct H as [Hs Hr].
    destruct s; try discriminate. simpl.
    destruct (IH Hr) as [tl ->]. simpl. now eexists.
Qed.

(** Setting a key other than [codec_type] keeps the kind. *)
Lemma dict_get_set_other (k k' : string) (v : json) (d : dict) :
  k <> k' -> dict_get k (dict_set k' v d) = dict_get k d.
Proof.
  intros Hne. induction d as [|[k0 v0] d IH]; simpl.
  - destruct (String.eqb_spec k k'); [contradiction|reflexivity].
  - destruct (String.eqb_spec k' k0); simpl.
    + subst. destruct (String.eqb_spec k k0); [contradiction|reflexivity].
    + destruct (String.eqb_spec k k0); [reflexivity|exact IH].
Qed.

Lemma dict_get_set_same (k : string) (v : json) (d : dict) :
  dict_get k (dict_set k v d) = Some v.
Proof.
  induction d as [|[k0 v0] d IH]; simpl.
  - now rewrite String.eqb_refl.
  - destruct (String.eqb_spec k k0); simpl.
    + subst. now rewrite String.eqb_refl.
    + destruct (String.eqb_spec k k0); [contradiction|exact IH].
Qed.

Lemma is_kind_setitem_tags (kind : string) (s s' v : json) :
  py_setitem s "tags" v = Ok s' -> is_kind kind s' = is_kind kind s.
Proof.
  destruct s; simpl; try discriminate. intros H. inversion H; subst.
  unfold is_kind. simpl. rewrite dict_get_set_other; [reflexivity|discriminate].
Qed.

(** Copying the encoder tag changes neither the number of video streams
    nor their kind. *)
Lemma add_encoder_tag_spec (encoder : json) (vs vs' : list json) :
  add_encoder_tag encoder vs = Ok vs' ->
  List.length vs' = List.length vs /\
  (Forall (fun s => is_kind "video" s = true) vs ->
   Forall (fun s => is_kind "video" s = true) vs').
Proof.
  unfold add_encoder_tag. destruct vs as [|v rest].
  - intros H. inversion H. split; auto.
  - destruct (truthy encoder); [|intros H; inversion H; split; auto].
    destruct (py_contains "tags" v) as [has_tags|]; simpl; [|discriminate].
    assert (Hv1 : forall v1, (if has_tags then Ok v else py_setitem v "tags" (JDict [])) = Ok v1 ->
                             is_kind "video" v1 = is_kind "video" v).
    { intros v1. destruct has_tags; intros H.
      - now inversion H.
      - exact (is_kind_setitem_tags "video" _ _ _ H). }
    destruct (if has_tags then Ok v else py_setitem v "tags" (JDict [])) as [v1|];
      simpl; [|discriminate].
    specialize (Hv1 v1 eq_refl).
    destruct (py_getitem v1 "tags") as [tags|]; simpl; [|discriminate].
    destruct (py_contains "encoder" tags) as [has_encoder|]; simpl; [|discriminate].
    destruct has_encoder.
    + intros H. inversion H; subst. split; [reflexivity|].
      intros Hall. inversion Hall; subst. constructor; [congruence|assumption].
    + destruct (py_setitem tags "encoder" encoder) as [tags'|]; simpl; [|discriminate].
      destruct (py_setitem v1 "tags" tags') as [v2|] eqn:Hv2; simpl; [|discriminate].
      intros H. inversion H; subst. split; [reflexivity|].
      intros Hall. inversion Hall; subst. constructor; [|assumption].
      pose proof (is_kind_setitem_tags "video" _ _ _ Hv2). congruence.
Qed.

Lemma add_encoder_tag_total (encoder : json) (vs : list json) :
  forallb typed_descriptor vs = true ->
  exists vs', add_encoder_tag encoder vs = Ok vs'.
Proof.
  unfold add_encoder_tag. destruct vs as [|v rest]; [now eexists|].
  simpl. intros H. apply andb_prop in H. destruct H as [Hv _].
  destruct (truthy encoder); [|now eexists].
  destruct v as [| | | | |d]; try discriminate. simpl in Hv. simpl.
  unfold dict_mem. destruct (dict_get "tags" d) as [t|] eqn:Ht; simpl.
  - rewrite Ht. simpl. destruct t as [| | | | |td]; try discriminate. simpl.
    destruct (dict_mem "encoder" td); simpl; [now eexists|].
    now eexists.
  - rewrite dict_get_set_same. simpl. now eexists.
Qed.

(** *** The merging loop *)

Lemma merge_step_app (vs as_ acc : list json) (i : nat) :
  merge_step vs as_ acc i = acc ++ merge_step vs as_ [] i.
Proof.
  unfold merge_step.
  destruct (nth_error vs i), (nth_error as_ i); simpl;
    rewrite <- ?app_assoc, ?app_nil_r; reflexivity.
Qed.

Lemma merge_fold_app (vs as_ : list json) (l : list nat) (acc : list json) :
  fold_left (merge_step vs as_) l acc =
  acc ++ fold_left (merge_step vs as_) l [].
Proof.
  revert acc. induction l as [|i l IH]; intros acc; simpl.
  - now rewrite app_nil_r.
  - rewrite IH. rewrite (IH (merge_step vs as_ [] i)).
    rewrite (merge_step_app vs as_ acc). now rewrite app_assoc.
Qed.

Lemma merge_fold_In (vs as_ : list json) (l : list nat) (x : json) :
  In x (fold_left (merge_step vs as_) l []) -> In x vs \/ In x as_.
Proof.
  induction l as [|i l IH]; simpl; [tauto|].
  rewrite merge_fold_app. intros H. apply in_app_or in H. destruct H as [H|H]; [|auto].
  unfold merge_step in H.
  destruct (nth_error vs i) as [v|] eqn:Hv, (nth_error as_ i) as [a|] eqn:Ha;
    simpl in H; intuition; subst;
    eauto using nth_error_In.
Qed.

(** Everything in the merged list comes from one of the two lists. *)
Lemma merge_streams_In (vs as_ : list json) (x : json) :
  In x (merge_streams vs as_) -> In x vs \/ In x as_.
Proof. unfold merge_streams. apply merge_fold_In. Qed.

(** With a video and an audio stream at hand the merged list starts with
    the first of each. *)
Lemma merge_streams_head (v a : json) (vs as_ : list json) :
  exists rest, merge_streams (v :: vs) (a :: as_) = v :: a :: rest.
Proof.
  unfold merge_streams. simpl List.length. rewrite <- Nat.succ_max_distr.
  simpl seq. simpl fold_left. rewrite merge_fold_app.
  unfold merge_step at 2. simpl. eauto.
Qed.

(** *** What a successful normalisation looks like *)

Lemma filter_nil_of_existsb {A} (f : A -> bool) (l : list A) :
  existsb f l = false -> filter f l = [].
Proof.
  induction l as [|x l IH]; simpl; [reflexivity|].
  destruct (f x); simpl; [discriminate|exact IH].
Qed.

Lemma normalize_streams_inv (profile p : json) :
  normalize_streams profile = Ok p ->
  exists raw encoder vs,
    raw_streams profile = Ok raw /\
    add_encoder_tag encoder (filter (is_kind "video") raw) = Ok vs /\
    py_getitem p "streams" =
      Ok (JList (merge_streams
                   (match vs with [] => vs ++ [video_placeholder] | _ => vs end)
                   (match filter (is_kind "audio") raw with
                    | [] => filter (is_kind "audio") raw ++ [audio_placeholder]
                    | _ => filter (is_kind "audio") raw
                    end))).
Proof.
  unfold normalize_streams, raw_streams.
  destruct (py_get profile "streams" (JList [])) as [sv|]; simpl; [|discriminate].
  destruct (py_iter sv) as [raw|]; simpl; [|discriminate].
  destruct (streams_of_kind "video" raw) as [vs0|] eqn:Hv; simpl; [|discriminate].
  destruct (streams_of_kind "audio" raw) as [as0|] eqn:Ha; simpl; [|discriminate].
  destruct (py_get profile "format" (JDict [])) as [fmt|]; simpl; [|discriminate].
  destruct (py_get fmt "tags" (JDict [])) as [ftags|]; simpl; [|discriminate].
  destruct (py_get ftags "encoder" JNull) as [encoder|]; simpl; [|discriminate].
  destruct (add_encoder_tag encoder vs0) as [vs|] eqn:Hvs; simpl; [|discriminate].
  apply streams_of_kind_filter in Hv, Ha. subst vs0 as0.
  intros H. exists raw, encoder, vs. split; [reflexivity|]. split; [exact Hvs|].
  destruct profile as [| | | | |d]; simpl in H; try discriminate.
  inversion H; subst. simpl. now rewrite dict_get_set_same.
Qed.

Lemma normalize_streams_total (profile : json) :
  typed_profile profile = true -> exists p, normalize_streams profile = Ok p.
Proof.
  destruct profile as [| | | | |d]; simpl; try discriminate.
  intros H. apply andb_prop in H. destruct H as [Hs Hf].
  unfold normalize_streams. simpl.
  assert (Hraw : exists raw,
             py_iter (match dict_get "streams" d with Some v => v | None => JList [] end)
             = Ok raw /\ forallb typed_descriptor raw = true).
  { destruct (dict_get "streams" d) as [[| | | |l|]|]; try discriminate.
    - exists l. now split.
    - exists []. now split. }
  destruct Hraw as (raw & -> & Hraw). simpl.
  assert (Hdict : forallb is_dict raw = true).
  { rewrite forallb_forall in *. intros s Hin. specialize (Hraw s Hin).
    destruct s; simpl in *; congruence. }
  destruct (streams_of_kind_total "video" raw Hdict) as [vs Hvs].
  destruct (streams_of_kind_total "audio" raw Hdict) as [as_ Has].
  rewrite Hvs, Has. simpl.
  assert (Henc : exists encoder,
             rbind (py_get (match dict_get "format" d with Some v => v | None => JDict [] end)
                           "tags" (JDict []))
                   (fun t => py_get t "encoder" JNull) = Ok encoder).
  { destruct (dict_get "format" d) as [[| | | | |fd]|]; simpl in *; try discriminate.
    - destruct (dict_get "tags" fd) as [[| | | | |td]|]; simpl in *; try discriminate;
        now eexists.
    - now eexists. }
  destruct Henc as [encoder Henc].
  destruct (py_get (match dict_get "format" d with Some v => v | None => JDict [] end)
                   "tags" (JDict [])) as [ftags|]; simpl in *; [|discriminate].
  rewrite Henc. simpl.
  destruct (add_encoder_tag_total encoder vs) as [vs' ->].
  { apply streams_of_kind_filter in Hvs. subst vs.
    rewrite forallb_forall in *. intros s Hin. apply filter_In in Hin.
    now apply Hraw. }
  simpl. now eexists.
Qed.

(** Every field of a placeholder: the kind, the name ["none"], the
    index [-1] and, for audio, the sample rate ['0'] apart, each is a
    zero or empty. *)
Ltac placeholder_fields k :=
  repeat match goal with
         | |- context [String.eqb k ?s] =>
             destruct (String.eqb_spec k s) as [->|?];
             [ let H := fresh in
               intros H; inversion H; subst; intros;
               first [reflexivity|congruence]
             | ]
         end;
  discriminate.

Lemma video_placeholder_fields :
  field_names video_placeholder =
    [ "codec_type"; "codec_name"; "width"; "height"; "index"; "codec_long_name";
      "codec_tag_string"; "codec_tag"; "coded_width"; "coded_height";
      "closed_captions"; "film_grain"; "has_b_frames"; "level"; "refs"; "is_avc";
      "nal_length_size"; "id"; "r_frame_rate"; "avg_frame_rate"; "time_base";
      "duration_ts"; "duration"; "extradata_size"; "disposition"; "tags" ] /\
  field_of "codec_type" video_placeholder = Some (JStr "video") /\
  field_of "codec_name" video_placeholder = Some (JStr "none") /\
  field_of "index" video_placeholder = Some (JInt (-1)) /\
  (forall k x, field_of k video_placeholder = Some x ->
               k <> "codec_type" -> k <> "codec_name" -> k <> "index" ->
               blank x = true).
Proof.
  repeat (split; [reflexivity|]).
  intros k x. unfold field_of, video_placeholder. cbn [dict_get].
  placeholder_fields k.
Qed.

Lemma audio_placeholder_fields :
  field_names audio_placeholder =
    [ "codec_type"; "codec_name"; "sample_fmt"; "sample_rate"; "channels";
      "channel_layout"; "bits_per_sample"; "index"; "codec_long_name";
      "codec_tag_string"; "codec_tag"; "id"; "r_frame_rate"; "avg_frame_rate";
      "time_base"; "duration_ts"; "duration"; "bit_rate"; "extradata_size";
      "disposition"; "tags" ] /\
  field_of "codec_type" audio_placeholder = Some (JStr "audio") /\
  field_of "codec_name" audio_placeholder = Some (JStr "none") /\
  field_of "index" audio_placeholder = Some (JInt (-1)) /\
  field_of "sample_rate" audio_placeholder = Some (JStr "0") /\
  (forall k x, field_of k audio_placeholder = Some x ->
               k <> "codec_type" -> k <> "codec_name" -> k <> "index" ->
               k <> "sample_rate" -> blank x = true).
Proof.
  repeat (split; [reflexivity|]).
  intros k x. unfold field_of, audio_placeholder. cbn [dict_get].
  placeholder_fields k.
Qed.

(** C6.  The normalised stream list starts with a video-kind descriptor
    followed by an audio-kind descriptor, which are the first
    descriptors of their kinds (indices 0 and 1).  When the raw probe
    output has no stream of a kind, the descriptor of that kind is the
    synthesized placeholder: its [codec_name] is ["none"], its [index]
    is [-1], the [sample_rate] of the audio one is the string ['0'],
    and every other field besides the kind is a zero, an empty string
    or an empty object.  The normalisation returns on every value of
    the declared shape. *)
Theorem C6_normalized_has_video_and_audio (profile : json) :
  (typed_profile profile = true -> exists p, normalize_streams profile = Ok p) /\
  (forall p, normalize_streams profile = Ok p ->
   exists v a rest,
     py_getitem p "streams" = Ok (JList (v :: a :: rest)) /\
     find (is_kind "video") (v :: a :: rest) = Some v /\
     find (is_kind "audio") (v :: a :: rest) = Some a /\
     (forall raw, raw_streams profile = Ok raw ->
        existsb (is_kind "video") raw = false ->
        field_names v =
          [ "codec_type"; "codec_name"; "width"; "height"; "index";
            "codec_long_name"; "codec_tag_string"; "codec_tag"; "coded_width";
            "coded_height"; "closed_captions"; "film_grain"; "has_b_frames";
            "level"; "refs"; "is_avc"; "nal_length_size"; "id"; "r_frame_rate";
            "avg_frame_rate"; "time_base"; "duration_ts"; "duration";
            "extradata_size"; "disposition"; "tags" ] /\
        field_of "codec_type" v = Some (JStr "video") /\
        field_of "codec_name" v = Some (JStr "none") /\
        field_of "index" v = Some (JInt (-1)) /\
        (forall k x, field_of k v = Some x ->
                     k <> "codec_type" -> k <> "codec_name" -> k <> "index" ->
                     blank x = true)) /\
     (forall raw, raw_streams profile = Ok raw ->
        existsb (is_kind "audio") raw = false ->
        field_names a =
          [ "codec_type"; "codec_name"; "sample_fmt"; "sample_rate"; "channels";
            "channel_layout"; "bits_per_sample"; "index"; "codec_long_name";
            "codec_tag_string"; "codec_tag"; "id"; "r_frame_rate";
            "avg_frame_rate"; "time_base"; "duration_ts"; "duration"; "bit_rate";
            "extradata_size"; "disposition"; "tags" ] /\
        field_of "codec_type" a = Some (JStr "audio") /\
        field_of "codec_name" a = Some (JStr "none") /\
        field_of "index" a = Some (JInt (-1)) /\
        field_of "sample_rate" a = Some (JStr "0") /\
        (forall k x, field_of k a = Some x ->
                     k <> "codec_type" -> k <> "codec_name" -> k <> "index" ->
                     k <> "sample_rate" -> blank x = true))).
Proof.
  split; [apply normalize_streams_total|].
  intros p H. apply normalize_streams_inv in H.
  destruct H as (raw & encoder & vs & Hraw & Hvs & Hp).
  pose proof (add_encoder_tag_spec _ _ _ Hvs) as [Hlen Hkind].
  assert (Hvideo : Forall (fun s => is_kind "video" s = true) vs).
  { apply Hkind. apply Forall_forall. intros s Hs. apply filter_In in Hs. tauto. }
  set (vs' := match vs with [] => vs ++ [video_placeholder] | _ => vs end) in *.
  set (as_ := filter (is_kind "audio") raw) in *.
  set (as' := match as_ with [] => as_ ++ [audio_placeholder] | _ => as_ end) in *.
  assert (Hv : exists v vt, vs' = v :: vt /\ is_kind "video" v = true /\
                            (vs = [] -> v = video_placeholder)).
  { subst vs'. destruct vs as [|v vt].
    - exists video_placeholder, []. now repeat split.
    - exists v, vt. inversion Hvideo; subst. repeat split; [assumption|discriminate]. }
  assert (Ha : exists a at_, as' = a :: at_ /\ is_kind "audio" a = true /\
                             (as_ = [] -> a = audio_placeholder)).
  { subst as'. destruct as_ as [|a at_] eqn:Has.
    - exists audio_placeholder, []. now repeat split.
    - exists a, at_. repeat split; [|discriminate].
      assert (Hin : In a (filter (is_kind "audio") raw)) by (fold as_; rewrite Has; now left).
      apply filter_In in Hin. tauto. }
  destruct Hv as (v & vt & Hv & Hvk & Hvp). destruct Ha as (a & at_ & Ha & Hak & Hap).
  rewrite Hv, Ha in Hp. destruct (merge_streams_head v a vt at_) as [rest Hm].
  rewrite Hm in Hp. exists v, a, rest. split; [exact Hp|].
  split; [simpl; now rewrite Hvk|].
  split; [simpl; now rewrite (kinds_disjoint _ Hvk), Hak|].
  split.
  - intros raw' Hraw' Hnone. rewrite Hraw in Hraw'. inversion Hraw'; subst raw'.
    rewrite (filter_nil_of_existsb _ _ Hnone) in Hvs.
    simpl in Hvs. inversion Hvs; subst vs. rewrite (Hvp eq_refl).
    exact video_placeholder_fields.
  - intros raw' Hraw' Hnone. rewrite Hraw in Hraw'. inversion Hraw'; subst raw'.
    assert (Has : as_ = []) by (subst as_; now apply filter_nil_of_existsb).
    rewrite (Hap Has). exact audio_placeholder_fields.
Qed.

Lemma C6_normalized_has_video_and_audio_witness :
  exists v a rest,
    rbind (normalize_streams Examples.with_data_stream)
          (fun p => py_getitem p "streams") = Ok (JList (v :: a :: rest)) /\
    codec_name v = Some (JStr "hevc") /\
    field_of "codec_name" a = Some (JStr "none") /\
    field_of "index" a = Some (JInt (-1)) /\
    field_of "channels" a = Some (JInt 0).
Proof.
  destruct (C6_normalized_has_video_and_audio Examples.with_data_stream) as [Htot Hnorm].
  destruct (Htot eq_refl) as [p Hp].
  destruct (Hnorm p Hp) as (v & a & rest & Hs & Hv & _ & _ & Ha).
  exists v, a, rest. rewrite Hp. simpl. split; [exact Hs|].
  destruct (Ha _ eq_refl eq_refl) as (_ & _ & Hname & Hidx & _ & _).
  split; [|split; [exact Hname|split; [exact Hidx|]]].
  - vm_compute in Hp. inversion Hp; subst p. vm_compute in Hs. inversion Hs; subst.
    reflexivity.
  - vm_compute in Hp. inversion Hp; subst p. vm_compute in Hs. inversion Hs; subst.
    reflexivity.
Defined.

(** The claim as the spec words it, that the fields of a placeholder
    other than kind and name are zeroed or empty, fails on the probe
    output [{}]: the video placeholder has index [-1], the audio
    placeholder index [-1] and sample rate ['0']. *)
Lemma C6_placeholder_fields_not_all_blank :
  exists p v a,
    normalize_streams (JDict []) = Ok p /\
    py_getitem p "streams" = Ok (JList [v; a]) /\
    ~ (forall k x, field_of k v = Some x ->
                   k <> "codec_type" -> k <> "codec_name" -> blank x = true) /\
    ~ (forall k x, field_of k a = Some x ->
                   k <> "codec_type" -> k <> "codec_name" -> blank x = true).
Proof.
  exists (JDict [("streams", JList [video_placeholder; audio_placeholder])]),
         video_placeholder, audio_placeholder.
  split; [reflexivity|]. split; [reflexivity|]. split.
  - intros H. specialize (H "index" (JInt (-1)) eq_refl). discriminate H; discriminate.
  - intros H. specialize (H "sample_rate" (JStr "0") eq_refl). discriminate H; discriminate.
Qed.


(** C10.  Every descriptor of the normalised stream list is of video or
    of audio kind, so a descriptor of the raw probe output whose
    [codec_type] is neither is not in the result. *)
Theorem C10_only_video_and_audio_survive (profile p : json) :
  normalize_streams profile = Ok p ->
  exists merged,
    py_getitem p "streams" = Ok (JList merged) /\
    (forall s, In s merged -> is_kind "video" s = true \/ is_kind "audio" s = true) /\
    (forall s, is_kind "video" s = false -> is_kind "audio" s = false ->
               ~ In s merged).
Proof.
  intros H. apply normalize_streams_inv in H.
  destruct H as (raw & encoder & vs & Hraw & Hvs & Hp).
  eexists. split; [exact Hp|].
  assert (Hall : forall s,
             In s (merge_streams
                     (match vs with [] => vs ++ [video_placeholder] | _ => vs end)
                     (match filter (is_kind "audio") raw with
                      | [] => filter (is_kind "audio") raw ++ [audio_placeholder]
                      | _ => filter (is_kind "audio") raw
                      end)) ->
             is_kind "video" s = true \/ is_kind "audio" s = true).
  { intros s Hin. apply merge_streams_In in Hin. destruct Hin as [Hin|Hin].
    - left. pose proof (add_encoder_tag_spec _ _ _ Hvs) as [_ Hkind].
      assert (Hvideo : Forall (fun s => is_kind "video" s = true) vs).
      { apply Hkind. apply Forall_forall. intros x Hx. apply filter_In in Hx. tauto. }
      destruct vs as [|v vt].
      + simpl in Hin. destruct Hin as [<-|[]]. reflexivity.
      + rewrite Forall_forall in Hvideo. now apply Hvideo.
    - right. destruct (filter (is_kind "audio") raw) as [|a at_] eqn:Hf.
      + simpl in Hin. destruct Hin as [<-|[]]. reflexivity.
      + rewrite <- Hf in Hin. apply filter_In in Hin. tauto. }
  split; [exact Hall|].
  intros s Hv Ha Hin. destruct (Hall s Hin); congruence.
Qed.

Lemma C10_only_video_and_audio_survive_witness :
  exists merged,
    py_getitem
      (JDict [("streams",
               JList [JDict [("index", JInt 1); ("codec_type", JStr "video");
                             ("codec_name", JStr "hevc")];
                      audio_placeholder])]) "streams" = Ok (JList merged) /\
    ~ In (JDict [("index", JInt 0); ("codec_type", JStr "data")]) merged /\
    ~ In (JDict [("index", JInt 2); ("codec_type", JStr "subtitle")]) merged.
Proof.
  destruct (C10_only_video_and_audio_survive Examples.with_data_stream _ eq_refl)
    as (merged & Hs & _ & Hnot).
  exists merged. split; [exact Hs|].
  split; apply Hnot; reflexivity.
Defined.

End FfprobeProofs.

(* ===================================================================== *)
(** ** Properties of [ffprobe] *)

Module ProbeProofs.

Import Ffprobe Invariants.

Lemma nth_length_snoc {A} (l : list A) (x d : A) :
  nth (List.length l) (l ++ [x]) d = x.
Proof. induction l; simpl; auto. Qed.

Lemma update_nth_snoc {A} (l : list A) (x : A) (f : A -> A) :
  update_nth (List.length l) f (l ++ [x]) = l ++ [f x].
Proof. induction l; simpl; [reflexivity|now f_equal]. Qed.

Lemma all_reaped_snoc (ps : list proc_state) :
  all_reaped ps -> all_reaped (ps ++ [Reaped]).
Proof.
  intros H. apply Forall_app. split; [exact H|]. now constructor.
Qed.

(** What the normalisation can raise derives from [Exception]. *)
Lemma rbind_raise {A B} (r : result A) (k : A -> result B) (e : exn) :
  rbind r k = Raise e -> r = Raise e \/ exists a, r = Ok a /\ k a = Raise e.
Proof.
  destruct r as [a|e']; simpl; intros H; [right; now exists a|].
  left. now inversion H.
Qed.

Lemma py_get_raises (o : json) (k : string) (d : json) (e : exn) :
  py_get o k d = Raise e -> is_Exception e = true.
Proof. destruct o; simpl; intros H; inversion H; reflexivity. Qed.

Lemma py_iter_raises (o : json) (e : exn) :
  py_iter o = Raise e -> is_Exception e = true.
Proof. destruct o; simpl; intros H; inversion H; reflexivity. Qed.

Lemma py_contains_raises (k : string) (o : json) (e : exn) :
  py_contains k o = Raise e -> is_Exception e = true.
Proof. destruct o; simpl; intros H; inversion H; reflexivity. Qed.

Lemma py_setitem_raises (o : json) (k : string) (v : json) (e : exn) :
  py_setitem o k v = Raise e -> is_Exception e = true.
Proof. destruct o; simpl; intros H; inversion H; reflexivity. Qed.

Lemma py_getitem_raises (o : json) (k : string) (e : exn) :
  py_getitem o k = Raise e -> is_Exception e = true.
Proof.
  destruct o as [| | | | |d]; simpl; intros H; try (inversion H; reflexivity).
  destruct (dict_get k d); inversion H; reflexivity.
Qed.

Lemma streams_of_kind_raises_Exception (kind : string) (l : list json) (e : exn) :
  streams_of_kind kind l = Raise e -> is_Exception e = true.
Proof.
  induction l as [|s l IH]; simpl; [discriminate|]. intros H.
  apply rbind_raise in H. destruct H as [H|(t & _ & H)];
    [now apply py_get_raises in H|].
  apply rbind_raise in H. destruct H as [H|(tl & _ & H)]; [now apply IH|].
  discriminate.
Qed.

Lemma add_encoder_tag_raises (encoder : json) (vs : list json) (e : exn) :
  add_encoder_tag encoder vs = Raise e -> is_Exception e = true.
Proof.
  destruct vs as [|v rest]; simpl; [discriminate|].
  destruct (truthy encoder); [|discriminate]. intros H.
  apply rbind_raise in H. destruct H as [H|(b & _ & H)];
    [now apply py_contains_raises in H|].
  apply rbind_raise in H. destruct H as [H|(v' & _ & H)].
  { destruct b; [discriminate|now apply py_setitem_raises in H]. }
  apply rbind_raise in H. destruct H as [H|(tags & _ & H)];
    [now apply py_getitem_raises in H|].
  apply rbind_raise in H. destruct H as [H|(b' & _ & H)];
    [now apply py_contains_raises in H|].
  destruct b'; [discriminate|].
  apply rbind_raise in H. destruct H as [H|(tags' & _ & H)];
    [now apply py_setitem_raises in H|].
  apply rbind_raise in H. destruct H as [H|(v'' & _ & H)];
    [now apply py_setitem_raises in H|].
  discriminate.
Qed.

Lemma normalize_streams_raises (profile : json) (e : exn) :
  normalize_streams profile = Raise e -> is_Exception e = true.
Proof.
  unfold normalize_streams. intros H.
  apply rbind_raise in H. destruct H as [H|(x1 & _ & H)];
    [now apply py_get_raises in H|].
  apply rbind_raise in H. destruct H as [H|(x2 & _ & H)];
    [now apply py_iter_raises in H|].
  apply rbind_raise in H. destruct H as [H|(x3 & _ & H)];
    [now apply streams_of_kind_raises_Exception in H|].
  apply rbind_raise in H. destruct H as [H|(x4 & _ & H)];
    [now apply streams_of_kind_raises_Exception in H|].
  apply rbind_raise in H. destruct H as [H|(x5 & _ & H)];
    [now apply py_get_raises in H|].
  apply rbind_raise in H. destruct H as [H|(x6 & _ & H)];
    [now apply py_get_raises in H|].
  apply rbind_raise in H. destruct H as [H|(x7 & _ & H)];
    [now apply py_get_raises in H|].
  apply rbind_raise in H. destruct H as [H|(x8 & _ & H)];
    [now apply add_encoder_tag_raises in H|].
  now apply py_setitem_raises in H.
Qed.

(** Every path through [ffprobe], by what the child does. *)
Lemma ffprobe_cases (E : env) (data : bytes) (w : world) :
  let pid := List.length (procs w) in
  ffprobe E data w =
  match popen E (clock w) data with
  | SpawnError e => (Raise e, tick_w w)
  | Spawned (CommRaise e alive) =>
      (Raise e,
       after_probe w ([EvLog Warning "ffprobe error"; EvKill pid;
                       EvWait pid Exited] ++ exit_wait pid e))
  | Spawned (CommOk stdout) =>
      match json_loads E stdout with
      | Raise e =>
          (Raise e,
           after_probe w ([EvLog Warning "ffprobe error"; EvKill pid;
                           EvWait pid Reaped] ++ exit_wait pid e))
      | Ok profile =>
          (normalize_streams profile, after_probe w [EvWait pid Reaped])
      end
  end.
Proof.
  destruct w as [fs ps j c].
  unfold ffprobe, with_Popen, after_probe. simpl.
  destruct (popen E c data) as [e|[stdout|e alive]]; [reflexivity| |];
    unfold then_exit, try_except_else, communicate, bind, modify, ret, lift,
      raise; simpl.
  - destruct (json_loads E stdout) as [profile|e]; simpl.
    + destruct (normalize_streams profile) as [p|e] eqn:Hn; simpl;
        [|apply normalize_streams_raises in Hn; destruct e; try discriminate Hn; simpl];
        repeat (unfold set_proc, kill_w, wait_w, emit_w, proc_of; simpl;
                rewrite ?update_nth_snoc, ?nth_length_snoc);
        rewrite <- ?app_assoc; reflexivity.
    + destruct e; simpl;
        repeat (unfold set_proc, kill_w, wait_w, emit_w, proc_of; simpl;
                rewrite ?update_nth_snoc, ?nth_length_snoc);
        rewrite <- ?app_assoc; reflexivity.
  - destruct alive, e; simpl;
      repeat (unfold set_proc, kill_w, wait_w, emit_w, proc_of; simpl;
              rewrite ?update_nth_snoc, ?nth_length_snoc);
      rewrite <- ?app_assoc; reflexivity.
Qed.

Lemma quiet_exit_wait (pid : nat) (e : exn) : Forall quiet (exit_wait pid e).
Proof. destruct e; repeat constructor. Qed.

(** [ffprobe] touches no file, and what it adds to the journal concerns
    the child and the log only. *)
Lemma ffprobe_frame (E : env) (data : bytes) (w : world) :
  files (snd (ffprobe E data w)) = files w /\
  exists evs, journal (snd (ffprobe E data w)) = journal w ++ evs /\
              Forall quiet evs.
Proof.
  rewrite ffprobe_cases.
  destruct (popen E (clock w) data) as [e|[stdout|e alive]]; simpl.
  - split; [reflexivity|]. exists []. now rewrite app_nil_r.
  - destruct (json_loads E stdout); simpl; (split; [reflexivity|]);
      eexists; (split; [reflexivity|]); repeat constructor;
      apply quiet_exit_wait.
  - split; [reflexivity|]. eexists; (split; [reflexivity|]); repeat constructor.
    apply quiet_exit_wait.
Qed.

(** A result of the probe is a result of the normalisation. *)
Lemma ffprobe_ok_normalized (E : env) (data : bytes) (w w' : world) (p : json) :
  ffprobe E data w = (Ok p, w') ->
  exists stdout profile,
    popen E (clock w) data = Spawned (CommOk stdout) /\
    json_loads E stdout = Ok profile /\
    normalize_streams profile = Ok p.
Proof.
  rewrite ffprobe_cases.
  destruct (popen E (clock w) data) as [e|[stdout|e alive]] eqn:Hp;
    [discriminate| |discriminate].
  destruct (json_loads E stdout) as [profile|e] eqn:Hj; [|discriminate].
  intros H. inversion H. exists stdout, profile. now repeat split.
Qed.

(** C7.  On every way out of [ffprobe] no child is left behind: either
    the spawn failed and there is no child, or the child is reaped when
    the call returns or raises.  When [communicate] raises (the timeout
    included) or the output does not parse, the exception is re-raised
    after [kill()] and [wait()] on the child; leaving the [with] block
    then waits once more, except for [KeyboardInterrupt].  When the
    output parses, the child has been waited for by [communicate]
    already: it is not killed, also when the normalisation then
    raises, and it is reaped all the same.  No [wait()] of the call
    blocks on a running child. *)
Theorem C7_probe_kills_and_reaps (E : env) (data : bytes) (w : world) :
  let pid := List.length (procs w) in
  let r := fst (ffprobe E data w) in
  let w' := snd (ffprobe E data w) in
  (all_reaped (procs w) -> all_reaped (procs w')) /\
  (forall pid' before, In (EvWait pid' before) (skipn (List.length (journal w)) (journal w')) ->
                       before <> Running) /\
  match popen E (clock w) data with
  | SpawnError e =>
      r = Raise e /\ procs w' = procs w /\ journal w' = journal w
  | Spawned (CommRaise e alive) =>
      r = Raise e /\ procs w' = procs w ++ [Reaped] /\
      journal w' = journal w ++ [EvSpawn pid; EvLog Warning "ffprobe error";
                                 EvKill pid; EvWait pid Exited]
                             ++ match e with
                                | KeyboardInterrupt => []
                                | _ => [EvWait pid Reaped]
                                end
  | Spawned (CommOk stdout) =>
      procs w' = procs w ++ [Reaped] /\
      match json_loads E stdout with
      | Raise e =>
          r = Raise e /\
          journal w' = journal w ++ [EvSpawn pid; EvLog Warning "ffprobe error";
                                     EvKill pid; EvWait pid Reaped]
                                 ++ match e with
                                    | KeyboardInterrupt => []
                                    | _ => [EvWait pid Reaped]
                                    end
      | Ok profile =>
          r = normalize_streams profile /\
          journal w' = journal w ++ [EvSpawn pid; EvWait pid Reaped]
      end
  end.
Proof.
  cbv zeta. rewrite ffprobe_cases.
  assert (Hskip : forall j l : list event, skipn (List.length j) (j ++ l) = l).
  { intros j l. now rewrite skipn_app, skipn_all, Nat.sub_diag. }
  destruct (popen E (clock w) data) as [e|[stdout|e alive]]; simpl.
  - split; [auto|]. split; [|auto].
    rewrite skipn_all. intros ? ? [].
  - destruct (json_loads E stdout) as [profile|e]; simpl;
      (split; [apply all_reaped_snoc|]); (split; [|split; [reflexivity|]]).
    + rewrite Hskip. intros pid' before H. simpl in H.
      repeat (destruct H as [H|H];
              [first [discriminate H | inversion H; subst; discriminate]|]);
      contradiction.
    + split; reflexivity.
    + rewrite Hskip. intros pid' before H. destruct e; simpl in H;
      repeat (destruct H as [H|H];
              [first [discriminate H | inversion H; subst; discriminate]|]);
      contradiction.
    + split; [reflexivity|]. destruct e; reflexivity.
  - split; [apply all_reaped_snoc|]. split; [|split; [reflexivity|split; [reflexivity|]]].
    + rewrite Hskip. intros pid' before H. destruct e; simpl in H;
      repeat (destruct H as [H|H];
              [first [discriminate H | inversion H; subst; discriminate]|]);
      contradiction.
    + destruct e; reflexivity.
Qed.

Lemma C7_probe_kills_and_reaps_witness :
  let w' := snd (ffprobe Examples.probe_hangs [x0a] empty_world) in
  fst (ffprobe Examples.probe_hangs [x0a] empty_world) = Raise TimeoutExpired /\
  procs w' = [Reaped] /\
  journal w' = [EvSpawn 0; EvLog Warning "ffprobe error"; EvKill 0;
                EvWait 0 Exited; EvWait 0 Reaped].
Proof.
  pose proof (C7_probe_kills_and_reaps Examples.probe_hangs [x0a] empty_world) as H.
  cbv zeta in H. destruct H as (Hreaped & _ & H).
  assert (Hall : all_reaped (procs empty_world)) by constructor.
  specialize (Hreaped Hall). clear Hreaped Hall.
  change (popen Examples.probe_hangs (clock empty_world) [x0a])
    with (Spawned (CommRaise TimeoutExpired true)) in H.
  exact H.
Defined.

(** The claim as the spec words it, that the child is killed on any
    failure, fails when ffprobe prints a JSON list: the output parses,
    the normalisation raises, and the child, which [communicate] has
    already waited for, is never killed. *)
Lemma C7_no_kill_when_normalisation_fails :
  let w' := snd (ffprobe Examples.list_output [x0a] empty_world) in
  fst (ffprobe Examples.list_output [x0a] empty_world) = Raise AttributeError /\
  journal w' = [EvSpawn 0; EvWait 0 Reaped] /\
  ~ In (EvKill 0) (journal w') /\
  procs w' = [Reaped].
Proof.
  cbv zeta. split; [reflexivity|]. split; [reflexivity|]. split; [|reflexivity].
  simpl. intros [H|[H|[]]]; discriminate.
Qed.

(** An interrupt during [communicate]: the handler kills and reaps the
    child, and leaving the block adds no further [wait()]. *)
Example interrupted_probe :
  let r := ffprobe Examples.interrupted [x0a] empty_world in
  fst r = Raise KeyboardInterrupt /\
  procs (snd r) = [Reaped] /\
  journal (snd r) = [EvSpawn 0; EvLog Warning "ffprobe error"; EvKill 0;
                     EvWait 0 Exited].
Proof. cbv zeta. repeat split. Qed.

End ProbeProofs.

(* ===================================================================== *)
(** ** Reasoning about the dumper *)

Module DumperLogic.

Import SegmentDumper Invariants.

Lemma hoare_ret {A} (P : state -> Prop) (a : A) Q R :
  (forall st, P st -> Q a st) -> hoare P (ret a) Q R.
Proof. intros H st HP. now apply H. Qed.

Lemma hoare_raise {A} (P : state -> Prop) (e : exn) (Q : A -> state -> Prop) R :
  (forall st, P st -> R e st) -> hoare P (raise e) Q R.
Proof. intros H st HP. now apply H. Qed.

Lemma hoare_bind {A B} (P : state -> Prop) (m : M state A) (k : A -> M state B)
    (Q1 : A -> state -> Prop) Q R :
  hoare P m Q1 R -> (forall a, hoare (Q1 a) (k a) Q R) ->
  hoare P (bind m k) Q R.
Proof.
  intros Hm Hk st HP. unfold bind. specialize (Hm st HP).
  destruct (m st) as [[a|e] st']; [now apply Hk|exact Hm].
Qed.

Lemma hoare_gets {A} (P : state -> Prop) (f : state -> A) Q R :
  (forall st, P st -> Q (f st) st) -> hoare P (gets f) Q R.
Proof. intros H st HP. now apply H. Qed.

Lemma hoare_modify (P : state -> Prop) (f : state -> state) Q R :
  (forall st, P st -> Q tt (f st)) -> hoare P (modify f) Q R.
Proof. intros H st HP. now apply H. Qed.

Lemma hoare_lift {A} (P : state -> Prop) (r : result A) Q R :
  (forall st, P st -> match r with Ok a => Q a st | Raise e => R e st end) ->
  hoare P (lift r) Q R.
Proof. intros H st HP. specialize (H st HP). unfold lift. now destruct r. Qed.

Lemma hoare_weaken {A} (P P' : state -> Prop) (m : M state A)
    (Q Q' : A -> state -> Prop) (R R' : exn -> state -> Prop) :
  hoare P' m Q' R' ->
  (forall st, P st -> P' st) ->
  (forall a st, Q' a st -> Q a st) ->
  (forall e st, R' e st -> R e st) ->
  hoare P m Q R.
Proof.
  intros H HP HQ HR st Hst. specialize (H st (HP st Hst)).
  destruct (m st) as [[a|e] st']; auto.
Qed.

Lemma hoare_try {A} (P : state -> Prop) (body : M state A) (h : exn -> M state A)
    (R1 : exn -> state -> Prop) Q R :
  hoare P body Q R1 ->
  (forall e, is_Exception e = true -> hoare (R1 e) (h e) Q R) ->
  (forall e st, is_Exception e = false -> R1 e st -> R e st) ->
  hoare P (try_except_Exception body h) Q R.
Proof.
  intros Hb Hh Hesc st HP. unfold try_except_Exception. specialize (Hb st HP).
  destruct (body st) as [[a|e] st']; [exact Hb|].
  destruct (is_Exception e) eqn:He; [now apply Hh|now apply Hesc].
Qed.

Lemma preserves_bind {A B} (P : state -> Prop) (m : M state A) (k : A -> M state B) :
  preserves P m -> (forall a, preserves P (k a)) -> preserves P (bind m k).
Proof. intros Hm Hk. eapply hoare_bind; [exact Hm|exact Hk]. Qed.

Lemma preserves_ret {A} (P : state -> Prop) (a : A) : preserves P (ret a).
Proof. now apply hoare_ret. Qed.

Lemma preserves_raise {A} (P : state -> Prop) (e : exn) :
  preserves P (@raise state A e).
Proof. now apply hoare_raise. Qed.

Lemma preserves_gets {A} (P : state -> Prop) (f : state -> A) : preserves P (gets f).
Proof. now apply hoare_gets. Qed.

Lemma preserves_lift {A} (P : state -> Prop) (r : result A) : preserves P (lift r).
Proof. apply hoare_lift. intros st HP. now destruct r. Qed.

Lemma preserves_try {A} (P : state -> Prop) (body : M state A) (h : exn -> M state A) :
  preserves P body -> (forall e, preserves P (h e)) ->
  preserves P (try_except_Exception body h).
Proof.
  intros Hb Hh. eapply hoare_try; [exact Hb| |auto]. intros e _. apply Hh.
Qed.

(** *** Journals *)

Lemma quiet_inert (ev : event) : quiet ev -> inert ev.
Proof. now destruct ev. Qed.

Lemma bytes_written_snoc (fd : nat) (j : list event) (ev : event) :
  bytes_written fd (j ++ [ev]) = add_write_to fd (bytes_written fd j) ev.
Proof. unfold bytes_written. now rewrite fold_left_app. Qed.

Lemma written_since_snoc (j : list event) (ev : event) :
  written_since_rotation (j ++ [ev]) =
  add_write_since (written_since_rotation j) ev.
Proof. unfold written_since_rotation. now rewrite fold_left_app. Qed.

Lemma bytes_written_inert (fd : nat) (j evs : list event) :
  Forall inert evs -> bytes_written fd (j ++ evs) = bytes_written fd j.
Proof.
  unfold bytes_written. rewrite fold_left_app.
  generalize (fold_left (add_write_to fd) j 0).
  induction evs as [|ev evs IH]; intros z H; simpl; [reflexivity|].
  inversion H; subst. rewrite IH by assumption. now destruct ev.
Qed.

Lemma written_since_inert (j evs : list event) :
  Forall inert evs ->
  written_since_rotation (j ++ evs) = written_since_rotation j.
Proof.
  unfold written_since_rotation. rewrite fold_left_app.
  generalize (fold_left add_write_since j 0).
  induction evs as [|ev evs IH]; intros z H; simpl; [reflexivity|].
  inversion H; subst. rewrite IH by assumption. now destruct ev.
Qed.

Lemma split_in_prefix {A} (l1 l2 pre post : list A) (x : A) :
  l1 ++ l2 = pre ++ x :: post -> ~ In x l2 ->
  exists post', l1 = pre ++ x :: post'.
Proof.
  intros H Hnot. apply app_eq_app in H. destruct H as [l [[H1 H2]|[H1 H2]]].
  - destruct l as [|y l]; simpl in H2.
    + exfalso. apply Hnot. rewrite <- H2. now left.
    + inversion H2; subst. now exists l.
  - exfalso. apply Hnot. rewrite H2. apply in_or_app. right. now left.
Qed.

Lemma offsets_ok_app (j evs : list event) :
  offsets_ok j -> (forall it, ~ In (EvForward it) evs) -> offsets_ok (j ++ evs).
Proof.
  intros Hj Hnot pre it post H.
  destruct (split_in_prefix _ _ _ _ _ H (Hnot it)) as [post' Hpre].
  now apply (Hj pre it post').
Qed.

Lemma inert_no_forward (evs : list event) :
  Forall inert evs -> forall it, ~ In (EvForward it) evs.
Proof.
  intros H it Hin. rewrite Forall_forall in H. exact (H _ Hin).
Qed.

Lemma offsets_ok_forward (j : list event) (fd : nat) (it : item) :
  offsets_ok (j ++ [EvWrite fd (payload it)]) ->
  offset it = bytes_written fd j ->
  offsets_ok ((j ++ [EvWrite fd (payload it)]) ++ [EvForward it]).
Proof.
  intros Hok Hoff pre it' post H.
  apply app_eq_app in H. destruct H as [l [[H1 H2]|[H1 H2]]].
  - destruct l as [|y l]; simpl in H2.
    + inversion H2; subst. rewrite app_nil_r in H1. subst pre. now exists j, fd.
    + inversion H2; subst. exact (Hok pre it' l H1).
  - destruct l as [|y l]; simpl in H2.
    + inversion H2; subst. rewrite app_nil_r. now exists j, fd.
    + inversion H2; subst. destruct l; discriminate.
Qed.

(** *** Lists updated in place *)

Lemma nth_error_update_nth_eq {A} (n : nat) (f : A -> A) (l : list A) (x : A) :
  nth_error l n = Some x -> nth_error (update_nth n f l) n = Some (f x).
Proof.
  revert n. induction l as [|y l IH]; intros [|n]; simpl; try discriminate.
  - intros H. now inversion H.
  - apply IH.
Qed.

Lemma nth_error_update_nth_neq {A} (n m : nat) (f : A -> A) (l : list A) :
  n <> m -> nth_error (update_nth n f l) m = nth_error l m.
Proof.
  revert n m. induction l as [|y l IH]; intros [|n] [|m] H; simpl;
    try reflexivity; [contradiction|apply IH; congruence].
Qed.

Lemma update_nth_length {A} (n : nat) (f : A -> A) (l : list A) :
  List.length (update_nth n f l) = List.length l.
Proof.
  revert n. induction l as [|x l IH]; intros [|n]; simpl; auto.
Qed.

Lemma file_of_nth_error (fd : nat) (wd : world) (f : file_obj) :
  nth_error (files wd) fd = Some f -> file_of fd wd = f.
Proof. intros H. unfold file_of. now apply nth_error_nth. Qed.

(** *** Steps that keep the invariant *)

Lemma files_match_inert (fs : list file_obj) (j evs : list event) :
  files_match fs j -> Forall inert evs -> files_match fs (j ++ evs).
Proof.
  intros [H1 H2] Hevs. split; intros; rewrite bytes_written_inert; auto.
Qed.

Lemma world_ok_inert (fs : list file_obj) ps ps' (j evs : list event) c c' :
  world_ok (mk_world fs ps j c) -> Forall inert evs ->
  world_ok (mk_world fs ps' (j ++ evs) c').
Proof.
  intros [Hf Ho] Hevs. split; simpl in *.
  - now apply files_match_inert.
  - apply offsets_ok_app; [assumption|now apply inert_no_forward].
Qed.

Lemma Forall_quiet_inert (evs : list event) : Forall quiet evs -> Forall inert evs.
Proof. intros H. eapply Forall_impl; [|exact H]. apply quiet_inert. Qed.

(** The invariant depends on [_file], [_filesize], the files and the
    journal only. *)
Lemma Inv_ext (st st' : state) (evs : list event) :
  Inv st ->
  _file st' = _file st -> _filesize st' = _filesize st ->
  files (w st') = files (w st) ->
  journal (w st') = journal (w st) ++ evs -> Forall inert evs ->
  Inv st'.
Proof.
  intros [Hw Ha] Hfile Hsize Hfiles Hj Hevs.
  destruct st as [p f n d l s [fs ps j c]], st' as [p' f' n' d' l' s' [fs' ps' j' c']].
  simpl in *. subst.
  split; [now apply (world_ok_inert fs ps ps' j evs c c')|].
  unfold accounted in *. simpl in *. destruct f as [fd|].
  - destruct Ha as (fo & Hn & Hsz & Hsince & Huniq).
    exists fo. rewrite bytes_written_inert, written_since_inert by assumption.
    now repeat split.
  - rewrite written_since_inert by assumption. exact Ha.
Qed.

Lemma Closed_ext (st st' : state) (evs : list event) :
  Closed st ->
  files (w st') = files (w st) ->
  journal (w st') = journal (w st) ++ evs -> Forall inert evs ->
  Closed st'.
Proof.
  intros (Hw & Hs & Hc) Hfiles Hj Hevs.
  destruct st as [p f n d l s [fs ps j c]], st' as [p' f' n' d' l' s' [fs' ps' j' c']].
  simpl in *. subst. unfold Closed. simpl.
  split; [now apply (world_ok_inert fs ps ps' j evs c c')|].
  rewrite written_since_inert by assumption. now split.
Qed.

Lemma Inv_quiet_step (st st' : state) : Inv st -> quiet_step st st' -> Inv st'.
Proof.
  intros H (_ & Hf & Hs & _ & _ & _ & Hfs & evs & Hj & Hq).
  eapply Inv_ext; eauto using Forall_quiet_inert.
Qed.

Lemma Inv_emit (ev : event) (st : state) :
  inert ev -> Inv st -> Inv (on_world (emit_w ev) st).
Proof.
  intros Hev H. apply (Inv_ext st _ [ev]); auto.
Qed.

Lemma Inv_tick (st : state) : Inv st -> Inv (on_world tick_w st).
Proof.
  intros H. apply (Inv_ext st _ []); auto. simpl. now rewrite app_nil_r.
Qed.

Lemma preserves_emit (ev : event) : inert ev -> preserves Inv (emit ev).
Proof. intros Hev. apply hoare_modify. intros st. now apply Inv_emit. Qed.

End DumperLogic.

(* ===================================================================== *)
(** ** The methods of the dumper keep the invariant *)

Module DumperSteps.

Import SegmentDumper Invariants DumperLogic.

Section Steps.

Variable E : env.

Lemma all_closed_update (fs : list file_obj) (fd : nat) (f : file_obj) :
  nth_error fs fd = Some f ->
  (forall fd' f', nth_error fs fd' = Some f' -> f_closed f' = false -> fd' = fd) ->
  all_closed (update_nth fd (fun _ => mk_file (f_path f) (f_data f) true) fs).
Proof.
  intros Hn Huniq. apply Forall_forall. intros x Hx.
  apply In_nth_error in Hx. destruct Hx as [n Hx].
  destruct (Nat.eq_dec fd n) as [->|Hne].
  - rewrite (nth_error_update_nth_eq _ _ _ _ Hn) in Hx. now inversion Hx.
  - rewrite nth_error_update_nth_neq in Hx by assumption.
    destruct (f_closed x) eqn:Hc; [reflexivity|].
    exfalso. apply Hne. symmetry. now apply (Huniq n x).
Qed.

Lemma files_match_close (fs : list file_obj) (j : list event) (fd : nat) (f : file_obj) :
  nth_error fs fd = Some f -> files_match fs j ->
  files_match (update_nth fd (fun _ => mk_file (f_path f) (f_data f) true) fs)
              (j ++ [EvClose fd]).
Proof.
  intros Hn [H1 H2]. split.
  - intros fd' f' Hf'. rewrite bytes_written_snoc. simpl.
    destruct (Nat.eq_dec fd fd') as [<-|Hne].
    + rewrite (nth_error_update_nth_eq _ _ _ _ Hn) in Hf'. inversion Hf'; subst.
      simpl. now apply H1.
    + rewrite nth_error_update_nth_neq in Hf' by assumption. now apply H1.
  - intros fd' Hlen. rewrite update_nth_length in Hlen.
    rewrite bytes_written_snoc. simpl. now apply H2.
Qed.

Lemma all_closed_at_hand (fs : list file_obj) (fd : nat) (f : file_obj) :
  nth_error fs fd = Some f -> f_closed f = true ->
  (forall fd' f', nth_error fs fd' = Some f' -> f_closed f' = false -> fd' = fd) ->
  all_closed fs.
Proof.
  intros Hn Hc Huniq. apply Forall_forall. intros x Hx.
  apply In_nth_error in Hx. destruct Hx as [n Hx].
  destruct (f_closed x) eqn:Hcx; [reflexivity|].
  rewrite (Huniq n x Hx Hcx) in Hx. congruence.
Qed.

(** The state right after [file.close()], whether it returned or
    raised: the file object is closed. *)
Lemma sys_close_cases (fd : nat) (st : state) :
  let f := file_of fd (w st) in
  let st' :=
    on_world (fun _ =>
      mk_world (update_nth fd (fun _ => mk_file (f_path f) (f_data f) true)
                           (files (w st)))
               (procs (w st)) (journal (w st) ++ [EvClose fd]) (clock (w st))) st in
  sys_close E fd st = (Ok tt, st') \/
  exists e, sys_close E fd st = (Raise e, st') /\
            f_data f <> [] /\ file_close E (clock (w st)) = Some e.
Proof.
  cbv zeta. unfold sys_close.
  destruct (f_data (file_of fd (w st))) as [|b bs]; [now left|].
  destruct (file_close E (clock (w st))) as [e|]; [|now left].
  right. exists e. split; [reflexivity|]. split; [discriminate|reflexivity].
Qed.

(** Closing the file at hand keeps the invariant of the world. *)
Lemma world_ok_close (st : state) (fd : nat) (f : file_obj) :
  world_ok (w st) -> nth_error (files (w st)) fd = Some f ->
  world_ok (mk_world (update_nth fd (fun _ => mk_file (f_path f) (f_data f) true)
                                 (files (w st)))
                     (procs (w st)) (journal (w st) ++ [EvClose fd]) (clock (w st))).
Proof.
  intros [Hfm Hoff] Hn. split; simpl.
  - now apply files_match_close.
  - apply offsets_ok_app; [assumption|]. intros it [Hin|[]]. discriminate.
Qed.

(** Lines 59-63: afterwards every file is closed; when [close()] raises,
    the dumper is left with the closed file at hand. *)
Lemma close_file_spec :
  hoare Inv (_close_file E) (fun _ => Closed) (fun _ => Inv).
Proof.
  intros st [Hw Ha]. unfold _close_file, bind, gets. unfold accounted in Ha.
  destruct (_file st) as [fd|] eqn:Hfile.
  - destruct Ha as (f & Hn & Hsz & Hsince & Huniq).
    pose proof (file_of_nth_error _ _ _ Hn) as Hfo.
    destruct (f_closed (file_of fd (w st))) eqn:Hc; simpl.
    + rewrite Hfo in Hc. rewrite Hc in Hsince.
      split; [exact Hw|]. split; [exact Hsince|].
      now apply (all_closed_at_hand _ fd f).
    + rewrite Hfo in Hc. rewrite Hc in Hsince.
      pose proof (world_ok_close st fd f Hw Hn) as Hw'.
      destruct (sys_close_cases fd st) as [Hs|(e & Hs & _)];
        rewrite Hfo in Hs; rewrite Hs.
      * unfold emit, modify, on_world. simpl.
        unfold Closed. simpl. split; [|split].
        -- unfold emit_w. simpl.
           apply world_ok_inert with (ps := procs (w st)) (c := clock (w st));
             [|repeat constructor].
           apply world_ok_inert with (ps := procs (w st)) (c := clock (w st));
             [|repeat constructor].
           exact Hw'.
        -- rewrite !written_since_snoc. reflexivity.
        -- now apply all_closed_update.
      * split; [exact Hw'|]. unfold accounted. simpl. rewrite Hfile.
        exists (mk_file (f_path f) (f_data f) true).
        split; [now rewrite (nth_error_update_nth_eq _ _ _ _ Hn)|].
        split; [now rewrite bytes_written_snoc|].
        split; [now rewrite written_since_snoc|].
        intros fd' f' Hf' Hopen.
        pose proof (all_closed_update _ _ _ Hn Huniq) as Hall.
        unfold all_closed in Hall. rewrite Forall_forall in Hall.
        apply nth_error_In in Hf'. rewrite (Hall _ Hf') in Hopen. discriminate.
  - destruct Ha as (Hsz & Hsince & Hall). simpl. unfold Closed. auto.
Qed.

(** Lines 26-29. *)
Lemma reset_spec :
  hoare Closed (_reset)
        (fun _ st => Inv st /\ _file st = None) (fun _ _ => False).
Proof.
  intros st (Hw & Hs & Hc). unfold _reset, bind, modify. simpl.
  unfold Inv, accounted. simpl. auto.
Qed.

Lemma files_match_open (fs : list file_obj) (j : list event) (p : string) :
  files_match fs j ->
  files_match (fs ++ [mk_file p [] false]) (j ++ [EvOpen (List.length fs) p]).
Proof.
  intros [H1 H2]. split.
  - intros fd f Hf. rewrite bytes_written_snoc. simpl.
    destruct (Nat.lt_ge_cases fd (List.length fs)) as [Hlt|Hge].
    + rewrite nth_error_app1 in Hf by assumption. now apply H1.
    + rewrite nth_error_app2 in Hf by assumption. rewrite (H2 fd Hge).
      destruct (fd - List.length fs)%nat as [|n]; simpl in Hf.
      * now inversion Hf.
      * now destruct n.
  - intros fd Hlen. rewrite length_app in Hlen. simpl in Hlen.
    rewrite bytes_written_snoc. simpl. apply H2. lia.
Qed.

(** Lines 52-57, on a dumper without a file. *)
Lemma open_file_spec :
  hoare (fun st => Inv st /\ _file st = None) (_open_file E)
        (fun _ => Inv) (fun _ => Inv).
Proof.
  intros st [HI Hnone]. unfold _open_file, bind, call_path_provider.
  destruct (path_provider E (clock (w st))) as [[path ts]|e]; simpl;
    [|now apply Inv_tick].
  unfold lift. destruct (with_suffix_m4s E path) as [p|e]; simpl;
    [|now apply Inv_tick].
  unfold sys_open. simpl.
  destruct (open_wb E (S (clock (w st))) p) as [e|]; simpl.
  - now apply Inv_tick, Inv_tick.
  - destruct HI as [[Hfm Hoff] Ha]. unfold accounted in Ha. rewrite Hnone in Ha.
    destruct Ha as (Hsz & Hsince & Hall).
    unfold Inv, world_ok, accounted. simpl. split; [split|].
    + apply files_match_inert; [|repeat constructor].
      apply files_match_inert; [|repeat constructor].
      now apply files_match_open.
    + repeat (apply offsets_ok_app; [|intros it [Hin|[]]; discriminate]).
      assumption.
    + destruct Hfm as [Hfm1 Hfm2].
      assert (Hzero : bytes_written (List.length (files (w st))) (journal (w st)) = 0)
        by (apply Hfm2; lia).
      exists (mk_file p [] false). split; [|split; [|split]].
      * now rewrite nth_error_app2, Nat.sub_diag by lia.
      * rewrite !bytes_written_snoc. simpl. congruence.
      * rewrite !written_since_snoc. simpl. congruence.
      * intros fd' f' Hf' Hopen.
        destruct (Nat.lt_ge_cases fd' (List.length (files (w st)))) as [Hlt|Hge].
        -- rewrite nth_error_app1 in Hf' by assumption.
           apply nth_error_In in Hf'. unfold all_closed in Hall.
           rewrite Forall_forall in Hall. specialize (Hall _ Hf'). congruence.
        -- rewrite nth_error_app2 in Hf' by assumption.
           destruct (fd' - List.length (files (w st)))%nat as [|n] eqn:Hd; simpl in Hf'.
           ++ lia.
           ++ now destruct n.
Qed.

Lemma hoare_never_raises {A} (P : state -> Prop) (m : M state A) Q R :
  hoare P m Q (fun _ _ => False) -> hoare P m Q R.
Proof.
  intros H. eapply hoare_weaken; [exact H|auto|auto|]. intros e st [].
Qed.

(** Lines 155-157. *)
Lemma rotate_preserves :
  preserves Inv (bind (_close_file E) (fun _ => bind (_reset) (fun _ => _open_file E))).
Proof.
  eapply hoare_bind; [apply close_file_spec|]. intros u.
  eapply hoare_bind; [apply hoare_never_raises, reset_spec|]. intros u'.
  apply open_file_spec.
Qed.

Lemma close_reset_spec :
  hoare Inv (bind (_close_file E) (fun _ => _reset))
        (fun _ st => Inv st /\ _file st = None) (fun _ => Inv).
Proof.
  eapply hoare_bind; [apply close_file_spec|]. intros u.
  apply hoare_never_raises, reset_spec.
Qed.

Lemma files_match_write (fs : list file_obj) (j : list event) (fd : nat)
    (f : file_obj) (data : bytes) :
  nth_error fs fd = Some f -> files_match fs j ->
  files_match (update_nth fd (fun _ => mk_file (f_path f) (f_data f ++ data) false) fs)
              (j ++ [EvWrite fd data]).
Proof.
  intros Hn [H1 H2]. split.
  - intros fd' f' Hf'. rewrite bytes_written_snoc. simpl.
    destruct (Nat.eqb_spec fd fd') as [<-|Hne].
    + rewrite (nth_error_update_nth_eq _ _ _ _ Hn) in Hf'. inversion Hf'; subst.
      simpl. rewrite length_app, Nat2Z.inj_add, (H1 fd f Hn). reflexivity.
    + rewrite nth_error_update_nth_neq in Hf' by assumption. now apply H1.
  - intros fd' Hlen. rewrite update_nth_length in Hlen.
    rewrite bytes_written_snoc. simpl.
    assert (Hlt : (fd < List.length fs)%nat).
    { apply nth_error_Some. congruence. }
    destruct (Nat.eqb_spec fd fd'); [lia|]. now apply H2.
Qed.

(** Lines 166-168 (and 162-164): the write is counted, and the item
    goes downstream with the size of the file before the write. *)
Lemma write_forward_preserves (it : item) : preserves Inv (write_forward E it).
Proof.
  intros st HI. unfold write_forward, _write_data, bind, gets.
  destruct (_file st) as [fd|] eqn:Hfile; [|exact HI].
  pose proof HI as [[Hfm Hoff] Ha]. unfold accounted in Ha. rewrite Hfile in Ha.
  destruct Ha as (f & Hn & Hsz & Hsince & Huniq).
  unfold sys_tell. rewrite (file_of_nth_error _ _ _ Hn).
  destruct (f_closed f) eqn:Hc; [exact HI|].
  unfold sys_write. rewrite (file_of_nth_error _ _ _ Hn), Hc.
  destruct (file_write E (clock (w st)) (payload it)) as [e|]; simpl;
    [now apply Inv_tick|].
  unfold item_len. rewrite Z.eqb_refl. unfold ret, _update_filesize, modify. simpl.
  set (fs' := update_nth fd (fun _ => mk_file (f_path f) (f_data f ++ payload it) false)
                         (files (w st))).
  set (j' := journal (w st) ++ [EvWrite fd (payload it)]).
  assert (Hfm' : files_match fs' j') by now apply files_match_write.
  assert (Hoff' : offsets_ok j').
  { apply offsets_ok_app; [assumption|]. intros it0 [Hin|[]]. discriminate. }
  assert (Hacc : forall j'',
            bytes_written fd j'' = bytes_written fd j' ->
            written_since_rotation j'' = written_since_rotation j' ->
            exists f0, nth_error fs' fd = Some f0 /\
              _filesize st + Z.of_nat (List.length (payload it)) = bytes_written fd j'' /\
              written_since_rotation j'' =
                (if f_closed f0 then 0
                 else _filesize st + Z.of_nat (List.length (payload it))) /\
              (forall fd' f', nth_error fs' fd' = Some f' -> f_closed f' = false -> fd' = fd)).
  { intros j'' Hb Hs. exists (mk_file (f_path f) (f_data f ++ payload it) false).
    split; [|split; [|split]].
    - subst fs'. now rewrite (nth_error_update_nth_eq _ _ _ _ Hn).
    - rewrite Hb. subst j'.
      rewrite bytes_written_snoc. simpl. rewrite Nat.eqb_refl. lia.
    - rewrite Hs. subst j'.
      rewrite written_since_snoc. simpl. lia.
    - intros fd' f' Hf' Hopen. destruct (Nat.eq_dec fd fd') as [|Hne]; [auto|].
      subst fs'. rewrite nth_error_update_nth_neq in Hf' by assumption.
      now apply (Huniq fd' f'). }
  unfold observer_on_next, bind, gets. simpl.
  destruct (is_stopped st) eqn:Hstop; unfold emit, modify, ret; simpl.
  - unfold Inv, world_ok, accounted. simpl. rewrite ?Hfile.
    split; [now split|]. now apply Hacc.
  - unfold Inv, world_ok, accounted. simpl. rewrite ?Hfile.
    split; [split|].
    + destruct Hfm' as [H1 H2].
      split; intros; rewrite bytes_written_snoc; simpl; auto.
    + apply (offsets_ok_forward (journal (w st)) fd
               (evolve_offset it (Z.of_nat (List.length (f_data f)))));
        [exact Hoff'|]. simpl. now apply Hfm.
    + apply Hacc.
      * now rewrite bytes_written_snoc.
      * now rewrite written_since_snoc.
Qed.

(** *** Quiet computations: the rotation decision *)

Lemma quiet_step_refl (st : state) : quiet_step st st.
Proof.
  unfold quiet_step. repeat (split; [reflexivity|]).
  exists []. now rewrite app_nil_r.
Qed.

Lemma quiet_step_trans (st1 st2 st3 : state) :
  quiet_step st1 st2 -> quiet_step st2 st3 -> quiet_step st1 st3.
Proof.
  intros (Hp & Hf & Hs & Hd & Hl & Ho & Hfs & evs & Hj & Hq)
         (Hp' & Hf' & Hs' & Hd' & Hl' & Ho' & Hfs' & evs' & Hj' & Hq').
  unfold quiet_step. repeat (split; [congruence|]).
  exists (evs ++ evs'). split.
  - rewrite Hj', Hj. now rewrite app_assoc.
  - now apply Forall_app.
Qed.

Lemma quietly_ret {A} (a : A) : quietly (ret a).
Proof. intros st. apply quiet_step_refl. Qed.

Lemma quietly_lift {A} (r : result A) : quietly (lift r).
Proof. intros st. apply quiet_step_refl. Qed.

Lemma quietly_bind {A B} (m : M state A) (k : A -> M state B) :
  quietly m -> (forall a, quietly (k a)) -> quietly (bind m k).
Proof.
  intros Hm Hk st. unfold bind. specialize (Hm st).
  destruct (m st) as [[a|e] st']; simpl in *; [|exact Hm].
  eapply quiet_step_trans; [exact Hm|apply Hk].
Qed.

Lemma quietly_emit (ev : event) : quiet ev -> quietly (emit ev).
Proof.
  intros Hev st. unfold quiet_step. simpl. repeat (split; [reflexivity|]).
  exists [ev]. split; [reflexivity|]. now constructor.
Qed.

Lemma quietly_ffprobe (data : bytes) : quietly (liftW (Ffprobe.ffprobe E data)).
Proof.
  intros st. unfold liftW.
  destruct (ProbeProofs.ffprobe_frame E data (w st)) as (Hfs & evs & Hj & Hq).
  destruct (Ffprobe.ffprobe E data (w st)) as [r w']. simpl in *.
  unfold quiet_step. simpl. repeat (split; [reflexivity|]).
  split; [exact Hfs|]. now exists evs.
Qed.

Lemma quietly_compare_audio (a b : json) : quietly (compare_audio a b).
Proof.
  unfold compare_audio. destruct (truthy a && truthy b).
  - apply quietly_bind; [apply quietly_lift|]. intros [|];
      [now apply quietly_emit|apply quietly_ret].
  - now apply quietly_emit.
Qed.

Lemma quietly_compare_video (a b : json) : quietly (compare_video a b).
Proof.
  unfold compare_video.
  apply quietly_bind; [apply quietly_lift|]. intros [|];
    [now apply quietly_emit|apply quietly_ret].
Qed.

Ltac quiet_steps :=
  repeat first
    [ apply quietly_ret | apply quietly_lift | apply quietly_ffprobe
    | apply quietly_compare_audio | apply quietly_compare_video
    | apply quietly_emit; exact I
    | apply quietly_bind; [|intros ?] ].

(** Lines 83-125 touch neither the dumper nor a file. *)
Lemma quietly_must_split_file (prev : option item) (curr : item) :
  quietly (_must_split_file E prev curr).
Proof.
  unfold _must_split_file. destruct (no_usable_prev prev); quiet_steps.
Qed.

Lemma yields_ret {A} (P : A -> Prop) (a : A) : P a -> yields P (@ret state A a).
Proof. intros H st a' Heq. inversion Heq. now subst. Qed.

Lemma yields_bind {A B} (P : B -> Prop) (m : M state A) (k : A -> M state B) :
  (forall a, yields P (k a)) -> yields P (bind m k).
Proof.
  intros Hk st b. unfold bind. destruct (m st) as [[a|e] st'] eqn:Hm; simpl.
  - apply Hk.
  - discriminate.
Qed.

(** Whatever the comparisons find, the decision is to split. *)
Lemma must_split_file_yields_true (prev : option item) (curr : item) :
  yields (fun b => b = true) (_must_split_file E prev curr).
Proof.
  unfold _must_split_file. destruct (no_usable_prev prev);
    repeat (apply yields_bind; intros ?); now apply yields_ret.
Qed.

Lemma quietly_preserves {A} (m : M state A) : quietly m -> preserves Inv m.
Proof.
  intros Hq st HI. specialize (Hq st).
  destruct (m st) as [[a|e] st']; simpl in *; now apply (Inv_quiet_step st).
Qed.

(** *** Disposal and the observer *)

Lemma Inv_finished (st : state) :
  Inv st -> _path st = EmptyString -> _file st = None ->
  disposed st = true -> last_init_item st = None -> finished st.
Proof.
  intros [_ Ha] Hp Hf Hd Hl. unfold accounted in Ha. rewrite Hf in Ha.
  destruct Ha as (Hsz & _ & Hall). unfold finished. auto 10.
Qed.

(** [_close_file] changes no attribute and no variable of the closure,
    whether it returns or raises. *)
Lemma close_file_frame (st : state) :
  _path (snd (_close_file E st)) = _path st /\
  _file (snd (_close_file E st)) = _file st /\
  _filesize (snd (_close_file E st)) = _filesize st /\
  disposed (snd (_close_file E st)) = disposed st /\
  last_init_item (snd (_close_file E st)) = last_init_item st /\
  is_stopped (snd (_close_file E st)) = is_stopped st.
Proof.
  unfold _close_file, bind, gets. destruct (_file st) as [fd|] eqn:Hf; simpl.
  - destruct (f_closed (file_of fd (w st))); simpl; [rewrite ?Hf; auto 10|].
    destruct (sys_close_cases fd st) as [Hs|(e & Hs & _)]; rewrite Hs; simpl;
      rewrite ?Hf; auto 10.
  - rewrite Hf. auto 10.
Qed.

(** [_close_file] returns when the [close()] it makes, if any, does not
    fail. *)
Lemma close_file_returns (st : state) :
  file_close E (clock (w st)) = None -> fst (_close_file E st) = Ok tt.
Proof.
  intros Hclose. unfold _close_file, bind, gets.
  destruct (_file st) as [fd|]; [|reflexivity].
  destruct (f_closed (file_of fd (w st))); [reflexivity|]. simpl.
  destruct (sys_close_cases fd st) as [Hs|(e & Hs & _ & He)]; rewrite Hs;
    [reflexivity|congruence].
Qed.

(** Lines 185-191. *)
Lemma dispose_spec :
  hoare Inv (dispose E) (fun _ st => Inv st /\ finished st) (fun _ => Inv).
Proof.
  intros st HI. unfold dispose, bind, modify at 1 2. simpl.
  set (st0 := set_last_init_item None (set_disposed true st)).
  pose proof (close_reset_spec st0 HI) as H.
  pose proof (close_file_frame st0) as (Hp & Hf & Hs & Hd & Hl & Ho).
  unfold bind in H.
  destruct (_close_file E st0) as [[u|e] st1]; [|exact H].
  simpl in *. unfold _reset, bind, modify in *. simpl in *.
  destruct H as [HI' Hnone]. split; [exact HI'|].
  apply Inv_finished; simpl; auto.
Qed.

Lemma dispose_subscription_preserves : preserves Inv (dispose_subscription E).
Proof.
  unfold dispose_subscription. apply preserves_bind; [apply preserves_gets|].
  intros [|]; [apply preserves_ret|].
  eapply hoare_weaken; [apply dispose_spec|auto|simpl; tauto|auto].
Qed.

Lemma observer_on_error_preserves (e : exn) : preserves Inv (observer_on_error E e).
Proof.
  unfold observer_on_error. apply preserves_bind; [apply preserves_gets|].
  intros [|]; [apply preserves_ret|].
  apply preserves_bind; [apply hoare_modify; intros st H; exact H|]. intros u.
  apply preserves_bind; [now apply preserves_emit|]. intros u'.
  apply dispose_subscription_preserves.
Qed.

Lemma observer_on_completed_preserves : preserves Inv (observer_on_completed E).
Proof.
  unfold observer_on_completed. apply preserves_bind; [apply preserves_gets|].
  intros [|]; [apply preserves_ret|].
  apply preserves_bind; [apply hoare_modify; intros st H; exact H|]. intros u.
  apply preserves_bind; [now apply preserves_emit|]. intros u'.
  apply dispose_subscription_preserves.
Qed.

Lemma close_reset_then {A} (k : M state A) :
  preserves Inv k ->
  preserves Inv (bind (_close_file E) (fun _ => bind (_reset) (fun _ => k))).
Proof.
  intros Hk.
  eapply hoare_bind; [apply close_file_spec|]. intros u.
  eapply hoare_bind; [apply hoare_never_raises, reset_spec|]. intros u'.
  eapply hoare_weaken; [exact Hk|simpl; tauto|auto|auto].
Qed.

(** Lines 169-173. *)
Lemma write_failed_preserves (e : exn) : preserves Inv (write_failed E e).
Proof.
  unfold write_failed. apply preserves_bind; [now apply preserves_emit|]. intros u.
  apply close_reset_then, observer_on_error_preserves.
Qed.

(** Lines 159-168. *)
Lemma write_items_preserves (b : bool) (it : item) :
  preserves Inv (write_items E b it).
Proof.
  unfold write_items. apply preserves_bind.
  - destruct (b && _); [|apply preserves_ret].
    apply preserves_bind; [apply preserves_gets|]. intros [last|];
      [apply write_forward_preserves|apply preserves_raise].
  - intros u. apply write_forward_preserves.
Qed.

(** Lines 141-173. *)
Lemma on_next_preserves (it : item) : preserves Inv (on_next E it).
Proof.
  unfold on_next. apply preserves_bind.
  - destruct (kind it); [|apply preserves_ret].
    apply preserves_bind; [apply preserves_gets|]. intros last.
    destruct (_is_redundant last it); [apply preserves_ret|].
    apply preserves_bind; [apply quietly_preserves, quietly_must_split_file|].
    intros b. apply preserves_bind; [apply hoare_modify; intros st H; exact H|].
    intros u. apply preserves_ret.
  - intros [split_file|]; [|apply preserves_ret].
    apply preserves_bind.
    + destruct (truthy _); [apply rotate_preserves|apply preserves_ret].
    + intros u. apply preserves_try;
        [apply write_items_preserves|apply write_failed_preserves].
Qed.

Lemma handler_preserves (n : notification) : preserves Inv (handler E n).
Proof.
  destruct n as [it|e| |]; simpl.
  - apply on_next_preserves.
  - apply close_reset_then, observer_on_error_preserves.
  - apply close_reset_then, observer_on_completed_preserves.
  - unfold cancel. apply preserves_bind; [apply hoare_modify; intros st H; exact H|].
    intros u. apply dispose_subscription_preserves.
Qed.

Lemma deliver_Inv (st : state) (n : notification) :
  Inv st -> Inv (deliver E st n).
Proof.
  intros HI. unfold deliver. destruct (disposed st); [exact HI|].
  pose proof (handler_preserves n st HI) as H.
  destruct (handler E n st) as [[u|e] st']; [exact H|].
  now apply Inv_emit.
Qed.

Lemma run_Inv (ns : list notification) (st : state) :
  Inv st -> Inv (run E ns st).
Proof.
  revert st. induction ns as [|n ns IH]; intros st HI; simpl; [exact HI|].
  apply IH. now apply deliver_Inv.
Qed.

Lemma Inv_init : Inv init_state.
Proof.
  unfold Inv, world_ok, accounted, files_match. simpl. repeat split.
  - intros [|fd] f H; discriminate.
  - intros pre it post H. destruct pre; discriminate.
  - constructor.
Qed.

End Steps.

End DumperSteps.

(* ===================================================================== *)
(** ** The Segment Rotator *)

Module DumperTheorems.

Import SegmentDumper Invariants DumperLogic DumperSteps.

(** C1.  In every session, whatever the environment does, a [close()]
    that raises included: each item handed downstream comes right after
    the write of its payload and its offset is the number of bytes
    written to that file before.  After each notification, with a file
    at hand [_filesize] is the number of bytes written to that file,
    which is its size, and as long as the file is open these are the
    writes made since a file was last opened or closed; without a file
    at hand [_filesize] is zero and nothing was written since the last
    close.  (The file at hand is found closed only after a [close()]
    that raised: then no rotation took place and the size stays.) *)
Theorem C1_offsets_and_filesize (E : env) (ns : list notification) :
  let st := run E ns init_state in
  (forall pre it post,
      journal (w st) = pre ++ EvForward it :: post ->
      exists pre' fd,
        pre = pre' ++ [EvWrite fd (payload it)] /\
        offset it = bytes_written fd pre') /\
  (forall fd, _file st = Some fd ->
      _filesize st = bytes_written fd (journal (w st)) /\
      _filesize st = Z.of_nat (List.length (f_data (file_of fd (w st)))) /\
      (f_closed (file_of fd (w st)) = false ->
       _filesize st = written_since_rotation (journal (w st)))) /\
  (_file st = None ->
      _filesize st = 0 /\ written_since_rotation (journal (w st)) = 0).
Proof.
  cbv zeta. pose proof (run_Inv E ns init_state Inv_init) as [[Hfm Hoff] Ha].
  split; [exact Hoff|]. unfold accounted in Ha.
  destruct (_file (run E ns init_state)) as [fd|].
  - destruct Ha as (f & Hn & Hsz & Hsince & _).
    split; [|discriminate]. intros fd' Hfd'. inversion Hfd'; subst fd'.
    rewrite (file_of_nth_error _ _ _ Hn).
    split; [exact Hsz|]. split.
    + rewrite Hsz. symmetry. now apply Hfm.
    + intros Hc. rewrite Hc in Hsince. now symmetry.
  - destruct Ha as (Hsz & Hsince & _). split; [discriminate|]. now intros _.
Qed.

Lemma C1_offsets_and_filesize_witness :
  let st := run Examples.calm
                [Next Examples.initA; Next Examples.seg1;
                 Next Examples.seg2; Next Examples.seg3] init_state in
  map offset (forwarded_items (journal (w st))) = [0; 2; 0; 2; 4] /\
  _filesize st = 5 /\
  _filesize st = written_since_rotation (journal (w st)).
Proof.
  cbv zeta. split; [reflexivity|]. split; [reflexivity|].
  destruct (C1_offsets_and_filesize Examples.calm
              [Next Examples.initA; Next Examples.seg1;
               Next Examples.seg2; Next Examples.seg3]) as (_ & H & _).
  exact (proj2 (proj2 (H 1%nat eq_refl)) eq_refl).
Defined.

(** On a full disk the third write fails and so does the [close()] of
    the handler: the dumper keeps the closed file at hand and
    [_filesize] is still the number of bytes written to it. *)
Example filesize_after_failed_close :
  let st := run Examples.disk_full
                [Next Examples.initA; Next Examples.seg1; Next Examples.seg3]
                init_state in
  _file st = Some 0%nat /\ f_closed (file_of 0 (w st)) = true /\
  _filesize st = 3 /\ bytes_written 0 (journal (w st)) = 3.
Proof. cbv zeta. repeat split. Qed.

Lemma run_disposed (E : env) (ns : list notification) (st : state) :
  disposed st = true -> run E ns st = st.
Proof.
  intros Hd. unfold run. induction ns as [|n ns IH]; simpl; [reflexivity|].
  assert (Hn : deliver E st n = st) by (unfold deliver; now rewrite Hd).
  now rewrite Hn.
Qed.

Lemma bytes_eqb_refl (a : bytes) : bytes_eqb a a = true.
Proof. unfold bytes_eqb. now destruct (list_eq_dec Byte.byte_eq_dec a a). Qed.

(** C4.  An InitSection whose payload is that of the retained one
    leaves the whole state as it is: nothing is written, forwarded,
    opened or closed, and the retained InitSection stays. *)
Theorem C4_duplicate_init_section_dropped (E : env) (it prev : item) (st : state) :
  kind it = InitSectionData ->
  last_init_item st = Some prev ->
  payload it = payload prev ->
  on_next E it st = (Ok tt, st) /\ deliver E st (Next it) = st.
Proof.
  intros Hk Hl Hp.
  assert (H : on_next E it st = (Ok tt, st)).
  { unfold on_next, bind, gets. rewrite Hk, Hl. simpl.
    now rewrite Hp, bytes_eqb_refl. }
  split; [exact H|]. unfold deliver. destruct (disposed st); [reflexivity|].
  simpl. now rewrite H.
Qed.

Lemma C4_duplicate_init_section_dropped_witness :
  let st := run Examples.calm [Next Examples.initA; Next Examples.seg1] init_state in
  deliver Examples.calm st
          (Next (mk_item InitSectionData [("split", JBool true)] [x01; x02] 7)) = st.
Proof.
  cbv zeta.
  apply (C4_duplicate_init_section_dropped Examples.calm _ Examples.initA);
    reflexivity.
Defined.

(** *** Write failures *)

Section WriteFailure.

Variable E : env.

Lemma same_session_refl (st : state) : same_session st st.
Proof. unfold same_session. auto. Qed.

Lemma preserves_same_modify (st0 : state) (f : state -> state) :
  (forall st, same_session st (f st)) ->
  preserves (same_session st0) (modify f).
Proof.
  intros Hf. apply hoare_modify. intros st H. specialize (Hf st).
  unfold same_session in *. intuition congruence.
Qed.

Lemma write_forward_same (st0 : state) (it : item) :
  preserves (same_session st0) (write_forward E it).
Proof.
  unfold write_forward. apply preserves_bind.
  - unfold _write_data. apply preserves_bind; [apply preserves_gets|].
    intros [fd|]; [|apply preserves_raise].
    apply preserves_bind.
    { intros st H. unfold sys_tell. now destruct (f_closed _). }
    intros off. apply preserves_bind.
    { intros st H. unfold sys_write. destruct (f_closed _); [exact H|].
      now destruct (file_write E _ _). }
    intros size. destruct (size =? item_len it);
      [apply preserves_ret|apply preserves_raise].
  - intros [off size]. apply preserves_bind.
    + apply preserves_same_modify. intros st. unfold same_session. simpl. auto.
    + intros u. unfold observer_on_next.
      apply preserves_bind; [apply preserves_gets|].
      intros [|]; [apply preserves_ret|].
      apply preserves_same_modify. intros st. unfold same_session. simpl. auto.
Qed.

(** The body of the [try] changes [_filesize] and the world only. *)
Lemma write_items_same (st0 : state) (b : bool) (it : item) :
  preserves (same_session st0) (write_items E b it).
Proof.
  unfold write_items. apply preserves_bind.
  - destruct (b && _); [|apply preserves_ret].
    apply preserves_bind; [apply preserves_gets|]. intros [last|];
      [apply write_forward_same|apply preserves_raise].
  - intros u. apply write_forward_same.
Qed.

(** The handler of the [try], step by step, on a live session. *)
Lemma write_failed_effect (e : exn) (st : state) :
  Inv st -> disposed st = false -> is_stopped st = false ->
  file_close E (clock (w st)) = None ->
  fst (write_failed E e st) = Ok tt /\
  finished (snd (write_failed E e st)) /\
  is_stopped (snd (write_failed E e st)) = true /\
  journal (w (snd (write_failed E e st))) =
    journal (w st) ++ [EvLog ErrorLevel "Failed to write data"]
                   ++ closing_events st ++ [EvError e].
Proof.
  intros HI Hd Hs Hclose.
  pose proof (write_failed_preserves E e st HI) as HI'.
  assert (Hrun :
    fst (write_failed E e st) = Ok tt /\
    _path (snd (write_failed E e st)) = EmptyString /\
    _file (snd (write_failed E e st)) = None /\
    disposed (snd (write_failed E e st)) = true /\
    last_init_item (snd (write_failed E e st)) = None /\
    is_stopped (snd (write_failed E e st)) = true /\
    journal (w (snd (write_failed E e st))) =
      journal (w st) ++ [EvLog ErrorLevel "Failed to write data"]
                     ++ closing_events st ++ [EvError e]).
  { unfold write_failed, closing_events, _close_file, _reset, observer_on_error,
      dispose_subscription, dispose, _close_file, _reset, sys_close, emit, bind,
      gets, modify, ret, file_of. simpl.
    destruct (_file st) as [fd|]; simpl.
    - destruct (f_closed (nth fd (files (w st)) _)); simpl;
        [rewrite Hs; simpl; rewrite Hd; simpl; rewrite <- ?app_assoc; simpl; auto 10|].
      rewrite Hclose.
      destruct (f_data (nth fd (files (w st)) _)); simpl;
        rewrite Hs; simpl; rewrite Hd; simpl; rewrite <- ?app_assoc; simpl; auto 10.
    - rewrite Hs. simpl. rewrite Hd. simpl. rewrite <- ?app_assoc. simpl. auto 10. }
  destruct Hrun as (Hok & Hp & Hf & Hdis & Hl & Hst & Hj).
  destruct (write_failed E e st) as [[u|e'] st']; simpl in *; [|discriminate].
  split; [now destruct u|]. split; [now apply Inv_finished|]. now split.
Qed.



End WriteFailure.



End DumperTheorems.

Module Scenario.

Import SegmentDumper Invariants DumperLogic DumperSteps.

Lemma probe_ok_world (E : env) (data : bytes) (wd : world) (p : json) :
  fst (Ffprobe.ffprobe E data wd) = Ok p ->
  Ffprobe.ffprobe E data wd =
  (Ok p, after_probe wd [EvWait (List.length (procs wd)) Reaped]).
Proof.
  rewrite ProbeProofs.ffprobe_cases.
  destruct (popen E (clock wd) data) as [e|[stdout|e alive]]; simpl;
    [discriminate| |discriminate].
  destruct (json_loads E stdout) as [profile|e]; simpl; [|discriminate].
  now intros ->.
Qed.

(** Evaluation of the monadic code on a state given field by field. *)
Ltac exec :=
  cbv [ _path _file _filesize disposed last_init_item is_stopped w
        files procs journal clock f_path f_data f_closed
        kind custom_parser_values payload offset
        set_path set_file set_filesize set_disposed set_last_init_item
        set_is_stopped on_world emit_w tick_w liftW emit
        bind ret raise lift gets modify try_except_Exception
        write_forward write_items write_failed _write_data _update_filesize
        _open_file _close_file _reset call_path_provider
        sys_open sys_tell sys_write observer_on_next
        item_len evolve_offset file_of closing_events after_probe
        deliver handler on_next _must_split_file _is_redundant no_usable_prev
        payload_of negb andb fst snd ];
  cbn [truthy nth update_nth app List.length].

Section Steps.

Variable E : env.

(** [file.close()] when the flush does not fail. *)
Lemma sys_close_ok (fd : nat) (p : string) (f : option nat) (n : Z) (d : bool)
    (l : option item) (s : bool) (fs : list file_obj) ps j c :
  file_close E c = None ->
  sys_close E fd (mk_state p f n d l s (mk_world fs ps j c)) =
  (Ok tt,
   mk_state p f n d l s
     (mk_world
        (update_nth fd
           (fun _ => mk_file (f_path (nth fd fs (mk_file EmptyString [] true)))
                             (f_data (nth fd fs (mk_file EmptyString [] true))) true)
           fs)
        ps (j ++ [EvClose fd]) c)).
Proof.
  intros Hc. unfold sys_close, file_of, on_world. cbn [w files procs journal clock
    _path _file _filesize disposed last_init_item is_stopped].
  rewrite Hc. now destruct (f_data _).
Qed.





(** One notification on a state given field by field: evaluate, using
    [tac] for the answers of the environment. *)
Ltac deliver_step tac :=
  match goal with
  | |- context [deliver E (mk_state ?a ?b ?c ?d ?e ?f ?g) ?n] =>
      let v := fresh "v" in
      let H := fresh "H" in
      evar (v : state);
      assert (H : deliver E (mk_state a b c d e f g) n = v)
        by (subst v; repeat (progress (exec; tac)); reflexivity);
      rewrite H; subst v; clear H
  end.

(** C3.  The items [InitA, Seg1, Seg2 (forced split), Seg3], in an
    environment whose path provider, file system ([open], [write] and
    [close]) and probe work, produce two files and two [fileOpened]
    notifications; the first file holds the payloads of [InitA] and
    [Seg1] and is closed, the second holds the payloads of [InitA],
    [Seg2] and [Seg3]; downstream the retained InitSection is received
    a second time, with offset 0, right before [Seg2], whose offset is
    the length of the InitSection. *)
Theorem C3_forced_split_scenario (a s1 s2 s3 : bytes)
    (cA c1 c2 c3 : dict) (oA o1 o2 o3 : Z) (p : json) :
  let initA := mk_item InitSectionData cA a oA in
  let seg1 := mk_item SegmentData c1 s1 o1 in
  let seg2 := mk_item SegmentData c2 s2 o2 in
  let seg3 := mk_item SegmentData c3 s3 o3 in
  reliable_disk E ->
  fst (Ffprobe.ffprobe E a empty_world) = Ok p ->
  truthy (_need_split_file seg1) = false ->
  truthy (_need_split_file seg2) = true ->
  truthy (_need_split_file seg3) = false ->
  let st := run E [Next initA; Next seg1; Next seg2; Next seg3] init_state in
  List.length (file_opened_events (journal (w st))) = 2%nat /\
  map f_data (files (w st)) = [a ++ s1; (a ++ s2) ++ s3] /\
  map f_closed (files (w st)) = [true; false] /\
  _file st = Some 1%nat /\
  forwarded_items (journal (w st)) =
    [ evolve_offset initA 0;
      evolve_offset seg1 (Z.of_nat (List.length a));
      evolve_offset initA 0;
      evolve_offset seg2 (Z.of_nat (List.length a));
      evolve_offset seg3 (Z.of_nat (List.length (a ++ s2))) ] /\
  map payload (forwarded_items (journal (w st))) = [a; s1; a; s2; s3] /\
  map offset (forwarded_items (journal (w st))) =
    [ 0; Z.of_nat (List.length a); 0; Z.of_nat (List.length a);
      Z.of_nat (List.length a) + Z.of_nat (List.length s2) ] /\
  _filesize st = Z.of_nat (List.length ((a ++ s2) ++ s3)).
Proof.
  intros initA seg1 seg2 seg3 ((Hpp & Hsuf & Hopen & Hwrite) & Hclose)
         Hprobe Hc1 Hc2 Hc3.
  subst initA seg1 seg2 seg3.
  apply probe_ok_world in Hprobe. unfold empty_world, after_probe in Hprobe.
  simpl in Hprobe.
  destruct (Hpp 1%nat) as (p1 & t1 & Hp1). destruct (Hsuf p1) as (q1 & Hq1).
  destruct (Hpp 5%nat) as (p5 & t5 & Hp5). destruct (Hsuf p5) as (q5 & Hq5).
  cbv zeta. unfold run, init_state, subscribed, empty_world. cbn [fold_left].
  deliver_step ltac:(rewrite ?Hprobe, ?Hp1, ?Hq1, ?Hopen, ?Hwrite, ?Z.eqb_refl).
  deliver_step ltac:(rewrite ?Hc1, ?Hwrite, ?Z.eqb_refl).
  deliver_step ltac:(rewrite ?Hc2, ?Hp5, ?Hq5, ?Hopen, ?Hwrite, ?Z.eqb_refl,
                             ?(sys_close_ok _ _ _ _ _ _ _ _ _ _ _ (Hclose _))).
  deliver_step ltac:(rewrite ?Hc3, ?Hwrite, ?Z.eqb_refl).
  cbn. rewrite !length_app, !Nat2Z.inj_add.
  repeat split; lia.
Qed.

End Steps.

End Scenario.

(* ===================================================================== *)
(** ** The life of a session *)

Module Lifecycle.

Import SegmentDumper Invariants DumperLogic DumperSteps DumperTheorems.

Section Session.

Variable E : env.

(** In this section closing a file does not fail. *)
Hypothesis closes : close_ok E.

Lemma preserves_and {A} (P Q : state -> Prop) (m : M state A) :
  preserves P m -> preserves Q m -> preserves (fun st => P st /\ Q st) m.
Proof.
  intros HP HQ st [Hp Hq]. specialize (HP st Hp). specialize (HQ st Hq).
  destruct (m st) as [[a|e] st']; now split.
Qed.

Lemma quietly_live {A} (m : M state A) : quietly m -> preserves live m.
Proof.
  intros Hq st [Hd Hs]. specialize (Hq st).
  destruct (m st) as [[a|e] st']; simpl in Hq;
    destruct Hq as (_ & _ & _ & Hd' & _ & Hs' & _); split; congruence.
Qed.

Lemma same_session_live {A} (m : M state A) :
  (forall st0, preserves (same_session st0) m) -> preserves live m.
Proof.
  intros Hm st [Hd Hs]. specialize (Hm st st (same_session_refl st)).
  destruct (m st) as [[a|e] st']; destruct Hm as (_ & _ & Hd' & _ & Hs');
    split; congruence.
Qed.

Lemma close_file_live : preserves live (_close_file E).
Proof.
  intros st [Hd Hs].
  pose proof (close_file_frame E st) as (_ & _ & _ & Hd' & _ & Hs').
  destruct (_close_file E st) as [[u|e] st']; simpl in *; split; congruence.
Qed.

Lemma reset_live : preserves live (_reset).
Proof. intros st H. exact H. Qed.

Lemma open_file_live : preserves live (_open_file E).
Proof.
  intros st H. unfold _open_file, bind, call_path_provider.
  destruct (path_provider E (clock (w st))) as [[path ts]|e]; simpl; [|exact H].
  unfold lift. destruct (with_suffix_m4s E path) as [p|e]; simpl; [|exact H].
  unfold sys_open. simpl.
  destruct (open_wb E (S (clock (w st))) p) as [e|]; simpl; exact H.
Qed.

Lemma rotate_live :
  preserves live (bind (_close_file E) (fun _ => bind (_reset) (fun _ => _open_file E))).
Proof.
  apply preserves_bind; [apply close_file_live|]. intros u.
  apply preserves_bind; [apply reset_live|]. intros u'. apply open_file_live.
Qed.

Lemma over_settled (st : state) : over st -> Inv st /\ settled st.
Proof. intros (HI & Hf & Hs). split; [exact HI|]. right. now split. Qed.

Lemma write_failed_over (e : exn) :
  hoare (fun st => Inv st /\ live st) (write_failed E e)
        (fun _ => over) (fun _ _ => False).
Proof.
  intros st [HI [Hd Hs]].
  pose proof (write_failed_preserves E e st HI) as HI'.
  destruct (write_failed_effect E e st HI Hd Hs (closes _)) as (Hok & Hfin & Hstop & _).
  destruct (write_failed E e st) as [[u|e'] st']; simpl in *; [|discriminate].
  split; [exact HI'|]. now split.
Qed.

(** Lines 180-183. *)
Lemma on_error_over (e : exn) :
  hoare (fun st => Inv st /\ live st) (on_error E e)
        (fun _ => over) (fun _ _ => False).
Proof.
  intros st [HI [Hd Hs]].
  pose proof (handler_preserves E (Error e) st HI) as HI'. simpl in HI'.
  assert (Hrun :
    fst (on_error E e st) = Ok tt /\
    _path (snd (on_error E e st)) = EmptyString /\
    _file (snd (on_error E e st)) = None /\
    disposed (snd (on_error E e st)) = true /\
    last_init_item (snd (on_error E e st)) = None /\
    is_stopped (snd (on_error E e st)) = true).
  { unfold on_error, _close_file, _reset, observer_on_error,
      dispose_subscription, dispose, _close_file, _reset, sys_close, emit, bind,
      gets, modify, ret, file_of. simpl.
    destruct (_file st) as [fd|]; simpl.
    - destruct (f_closed (nth fd (files (w st)) _)); simpl;
        [rewrite Hs; simpl; rewrite Hd; simpl; auto 10|].
      rewrite closes.
      destruct (f_data (nth fd (files (w st)) _)); simpl;
        rewrite Hs; simpl; rewrite Hd; simpl; auto 10.
    - rewrite Hs. simpl. rewrite Hd. simpl. auto 10. }
  destruct Hrun as (Hok & Hp & Hf & Hdis & Hl & Hst).
  destruct (on_error E e st) as [[u|e'] st']; simpl in *; [|discriminate].
  split; [exact HI'|]. split; [now apply Inv_finished|exact Hst].
Qed.

(** Lines 175-178. *)
Lemma on_completed_over :
  hoare (fun st => Inv st /\ live st) (on_completed E)
        (fun _ => over) (fun _ _ => False).
Proof.
  intros st [HI [Hd Hs]].
  pose proof (handler_preserves E Completed st HI) as HI'. simpl in HI'.
  assert (Hrun :
    fst (on_completed E st) = Ok tt /\
    _path (snd (on_completed E st)) = EmptyString /\
    _file (snd (on_completed E st)) = None /\
    disposed (snd (on_completed E st)) = true /\
    last_init_item (snd (on_completed E st)) = None /\
    is_stopped (snd (on_completed E st)) = true).
  { unfold on_completed, _close_file, _reset, observer_on_completed,
      dispose_subscription, dispose, _close_file, _reset, sys_close, emit, bind,
      gets, modify, ret, file_of. simpl.
    destruct (_file st) as [fd|]; simpl.
    - destruct (f_closed (nth fd (files (w st)) _)); simpl;
        [rewrite Hs; simpl; rewrite Hd; simpl; auto 10|].
      rewrite closes.
      destruct (f_data (nth fd (files (w st)) _)); simpl;
        rewrite Hs; simpl; rewrite Hd; simpl; auto 10.
    - rewrite Hs. simpl. rewrite Hd. simpl. auto 10. }
  destruct Hrun as (Hok & Hp & Hf & Hdis & Hl & Hst).
  destruct (on_completed E st) as [[u|e'] st']; simpl in *; [|discriminate].
  split; [exact HI'|]. split; [now apply Inv_finished|exact Hst].
Qed.

(** Lines 185-191, through the disposable given to the consumer. *)
Lemma cancel_over :
  hoare (fun st => Inv st /\ live st) (cancel E)
        (fun _ => over) (fun _ _ => False).
Proof.
  intros st [HI [Hd Hs]].
  pose proof (handler_preserves E Cancel st HI) as HI'. simpl in HI'.
  assert (Hrun :
    fst (cancel E st) = Ok tt /\
    _path (snd (cancel E st)) = EmptyString /\
    _file (snd (cancel E st)) = None /\
    disposed (snd (cancel E st)) = true /\
    last_init_item (snd (cancel E st)) = None /\
    is_stopped (snd (cancel E st)) = true).
  { unfold cancel, dispose_subscription, dispose, _close_file, _reset, sys_close,
      emit, bind, gets, modify, ret, file_of. simpl. rewrite Hd. simpl.
    destruct (_file st) as [fd|]; simpl.
    - destruct (f_closed (nth fd (files (w st)) _)); simpl; [auto 10|].
      rewrite closes.
      destruct (f_data (nth fd (files (w st)) _)); simpl; auto 10.
    - auto 10. }
  destruct Hrun as (Hok & Hp & Hf & Hdis & Hl & Hst).
  destruct (cancel E st) as [[u|e'] st']; simpl in *; [|discriminate].
  split; [exact HI'|]. split; [now apply Inv_finished|exact Hst].
Qed.

Lemma live_settled (st : state) : Inv st /\ live st -> Inv st /\ settled st.
Proof. intros [HI Hl]. split; [exact HI|now left]. Qed.

Lemma live_step {A} (m : M state A) :
  preserves Inv m -> preserves live m ->
  hoare (fun st => Inv st /\ live st) m
        (fun _ st => Inv st /\ live st) (fun _ st => Inv st /\ settled st).
Proof.
  intros HI Hl st H. pose proof (preserves_and _ _ _ HI Hl st H) as H'.
  destruct (m st) as [[a|e] st']; [exact H'|now apply live_settled].
Qed.

(** Lines 141-173: the session stays live or is over. *)
Lemma on_next_settled (it : item) :
  hoare (fun st => Inv st /\ live st) (on_next E it)
        (fun _ st => Inv st /\ settled st) (fun _ st => Inv st /\ settled st).
Proof.
  unfold on_next.
  eapply hoare_bind with (Q1 := fun _ st => Inv st /\ live st).
  - apply live_step.
    + destruct (kind it); [|apply preserves_ret].
      apply preserves_bind; [apply preserves_gets|]. intros last.
      destruct (_is_redundant last it); [apply preserves_ret|].
      apply preserves_bind; [apply quietly_preserves, quietly_must_split_file|].
      intros b. apply preserves_bind; [apply hoare_modify; intros st H; exact H|].
      intros u. apply preserves_ret.
    + destruct (kind it); [|apply preserves_ret].
      apply preserves_bind; [apply preserves_gets|]. intros last.
      destruct (_is_redundant last it); [apply preserves_ret|].
      apply preserves_bind; [apply quietly_live, quietly_must_split_file|].
      intros b. apply preserves_bind; [apply hoare_modify; intros st H; exact H|].
      intros u. apply preserves_ret.
  - intros [split_file|]; [|apply hoare_ret; intros st; apply live_settled].
    eapply hoare_bind with (Q1 := fun _ st => Inv st /\ live st).
    + apply live_step; (destruct (truthy _); [|apply preserves_ret]);
        [apply rotate_preserves|apply rotate_live].
    + intros u. eapply hoare_try with (R1 := fun _ st => Inv st /\ live st).
      * intros st H.
        pose proof (preserves_and _ _ _
                      (write_items_preserves E (truthy
                         (if negb (truthy split_file) then _need_split_file it
                          else split_file)) it)
                      (same_session_live _ (fun st0 => write_items_same E st0 _ it))
                      st H) as H'.
        destruct (write_items E _ it st) as [[a|e] st']; [now apply live_settled|exact H'].
      * intros e He. eapply hoare_weaken; [apply write_failed_over|auto| |].
        -- intros a st. apply over_settled.
        -- intros e' st [].
      * intros e st He. apply live_settled.
Qed.

Lemma deliver_settled (st : state) (n : notification) :
  Inv st /\ settled st -> Inv (deliver E st n) /\ settled (deliver E st n).
Proof.
  intros [HI Hs]. unfold deliver. destruct Hs as [Hl|[Hfin Hstop]].
  - destruct Hl as [Hd Hstop]. rewrite Hd.
    assert (H : hoare (fun st => Inv st /\ live st) (handler E n)
                      (fun _ st => Inv st /\ settled st)
                      (fun _ st => Inv st /\ settled st)).
    { destruct n as [it|e| |]; simpl.
      - apply on_next_settled.
      - eapply hoare_weaken; [apply on_error_over|auto| |].
        + intros a s. apply over_settled.
        + intros e' s [].
      - eapply hoare_weaken; [apply on_completed_over|auto| |].
        + intros a s. apply over_settled.
        + intros e' s [].
      - eapply hoare_weaken; [apply cancel_over|auto| |].
        + intros a s. apply over_settled.
        + intros e' s []. }
    specialize (H st (conj HI (conj Hd Hstop))).
    destruct (handler E n st) as [[u|e] st']; [exact H|].
    destruct H as [HI' Hs']. split; [now apply Inv_emit|exact Hs'].
  - destruct Hfin as (Hp & Hf & Hsz & Hd & Hrest). rewrite Hd.
    split; [exact HI|]. right. unfold finished. auto 10.
Qed.

Lemma run_settled (ns : list notification) (st : state) :
  Inv st /\ settled st -> Inv (run E ns st) /\ settled (run E ns st).
Proof.
  revert st. induction ns as [|n ns IH]; intros st H; simpl; [exact H|].
  apply IH. now apply deliver_settled.
Qed.

(** After a terminal notification the session is finished, whatever
    came before: no file is open and the attributes are those that
    [__init__] set. *)
Lemma terminal_finishes (ns : list notification) (n : notification) :
  (forall it, n <> Next it) ->
  finished (run E (ns ++ [n]) init_state).
Proof.
  intros Hterm. unfold run. rewrite fold_left_app. simpl. fold (run E ns init_state).
  destruct (run_settled ns init_state) as [HI Hs].
  { split; [apply Inv_init|]. left. now split. }
  destruct Hs as [[Hd Hstop]|[Hfin _]].
  - unfold deliver. rewrite Hd.
    destruct n as [it|e| |]; simpl.
    + now contradiction (Hterm it).
    + pose proof (on_error_over e _ (conj HI (conj Hd Hstop))) as H.
      destruct (on_error E e (run E ns init_state)) as [[u|e'] st']; [apply H|destruct H].
    + pose proof (on_completed_over _ (conj HI (conj Hd Hstop))) as H.
      destruct (on_completed E (run E ns init_state)) as [[u|e'] st']; [apply H|destruct H].
    + pose proof (cancel_over _ (conj HI (conj Hd Hstop))) as H.
      destruct (cancel E (run E ns init_state)) as [[u|e'] st']; [apply H|destruct H].
  - unfold deliver. destruct Hfin as (Hp & Hf & Hsz & Hd & Hrest). rewrite Hd.
    unfold finished. auto 10.
Qed.

(** A dumper whose last session has finished starts the next one in the
    state in which [__init__] left it, although [subscribe] resets
    nothing. *)
Lemma subscribe_after_finished (st : state) :
  finished st -> subscribe st = subscribed (w st).
Proof.
  intros (Hp & Hf & Hsz & _). unfold subscribe, subscribed. now rewrite Hp, Hf, Hsz.
Qed.

End Session.

End Lifecycle.

(* ===================================================================== *)
(** ** Failures that leave something behind, and the scenario at work *)

Module Findings.

Import SegmentDumper Invariants DumperLogic DumperSteps DumperTheorems.

Lemma calm_reliable : reliable_io Examples.calm.
Proof.
  unfold reliable_io, Examples.calm. simpl. repeat split; eauto.
Qed.

Lemma calm_closes : close_ok Examples.calm.
Proof. intros n. reflexivity. Qed.

Lemma calm_reliable_disk : reliable_disk Examples.calm.
Proof. split; [apply calm_reliable|apply calm_closes]. Qed.

Lemma C3_forced_split_scenario_witness :
  let st := run Examples.calm
                [Next Examples.initA; Next Examples.seg1;
                 Next Examples.seg2; Next Examples.seg3] init_state in
  List.length (file_opened_events (journal (w st))) = 2%nat /\
  map f_data (files (w st)) = [[x01; x02; x03]; [x01; x02; x04; x05; x06]] /\
  map offset (forwarded_items (journal (w st))) = [0; 2; 0; 2; 4].
Proof.
  cbv zeta.
  pose proof (Scenario.C3_forced_split_scenario Examples.calm
                [x01; x02] [x03] [x04; x05] [x06]
                [] [] [("split", JBool true)] [] 0 0 0 0
                _ calm_reliable_disk eq_refl eq_refl eq_refl eq_refl) as H.
  cbv zeta in H. destruct H as (Hopened & Hdata & _ & _ & _ & _ & Hoff & _).
  split; [exact Hopened|]. split; [exact Hdata|exact Hoff].
Defined.

(** When the probe fails while the rotation is being decided, the
    exception leaves [on_next] from line 148, before the [try]: nothing
    is closed and nothing is reset. *)
Lemma on_next_probe_failure (E : env) (it : item) (st st' : state) (e : exn) :
  kind it = InitSectionData ->
  _is_redundant (last_init_item st) it = false ->
  _must_split_file E (last_init_item st) it st = (Raise e, st') ->
  on_next E it st = (Raise e, st') /\
  _file st' = _file st /\ files (w st') = files (w st) /\
  last_init_item st' = last_init_item st.
Proof.
  intros Hk Hr Hm.
  pose proof (quietly_must_split_file E (last_init_item st) it st) as Hq.
  rewrite Hm in Hq. simpl in Hq.
  destruct Hq as (_ & Hf & _ & _ & Hl & _ & Hfs & _).
  split; [|auto].
  unfold on_next, bind, gets. rewrite Hk, Hr, Hm. reflexivity.
Qed.

(** C8.  The stage has written [initA] to its first file; the probe of
    the next, different InitSection runs into the timeout.  The
    exception leaves [on_next] with the file still open: the dumper
    keeps its handle, the file object is not closed, no [fileClosed]
    was emitted.  The child processes are all reaped. *)
Theorem C8_probe_failure_leaves_file_open :
  let st := run Examples.probe_hangs [Next Examples.initA; Next Examples.initB]
                init_state in
  last (journal (w st)) EvCompleted = EvEscaped TimeoutExpired /\
  _file st = Some 0%nat /\
  map f_closed (files (w st)) = [false] /\
  file_closed_events (journal (w st)) = [] /\
  procs (w st) = [Reaped; Reaped; Reaped].
Proof. vm_compute. repeat split. Qed.

End Findings.

(* ===================================================================== *)
(** ** The Metadata Analyser *)

Module AnalyserProofs.

Import Analyser.

(** Lines 40-42 reset the width and the height, and nothing else. *)
Lemma analyser_reset_spec (a : analyser) :
  _video_width (_reset a) = JInt 0 /\ _video_height (_reset a) = JInt 0 /\
  _audio_sample_rate (_reset a) = _audio_sample_rate a /\
  _audio_channels (_reset a) = _audio_channels a.
Proof. now repeat split. Qed.

Lemma analyser_run_disposed (ns : list notification) (st : state) :
  disposed st = true -> run ns st = st.
Proof.
  intros Hd. unfold run. induction ns as [|n ns IH]; simpl; [reflexivity|].
  assert (Hn : deliver st n = st) by (unfold deliver; now rewrite Hd).
  now rewrite Hn.
Qed.

(** A terminal notification on a live session resets the cached
    resolution; it does not change the cached audio parameters. *)
Lemma terminal_resets_video (st : state) (n : notification) :
  disposed st = false -> is_stopped st = false ->
  (forall it, n <> Next it) ->
  let st' := deliver st n in
  disposed st' = true /\
  _video_width (self st') = JInt 0 /\ _video_height (self st') = JInt 0 /\
  _audio_sample_rate (self st') = _audio_sample_rate (self st) /\
  _audio_channels (self st') = _audio_channels (self st).
Proof.
  intros Hd Hs Hterm. cbv zeta. unfold deliver. rewrite Hd.
  destruct n as [it|e| |].
  - now contradiction (Hterm it).
  - unfold observer_terminal, dispose_subscription. rewrite Hs. simpl.
    rewrite ?Hd. simpl. now repeat split.
  - unfold observer_terminal, dispose_subscription. rewrite Hs. simpl.
    rewrite ?Hd. simpl. now repeat split.
  - unfold dispose_subscription. simpl. rewrite ?Hd. simpl. now repeat split.
Qed.

(** C9.  A profile with an audio stream arrives during a session and
    the session completes.  The analyser is disposed of and its cached
    resolution is back to zero, but the cached sample rate and channel
    count are still those of the profile, and a new subscription keeps
    them: [_reset] does not touch them, so they never return to the
    state in which [__init__] left the analyser. *)
Theorem C9_audio_cache_survives_reset :
  let st := run [Completed]
                (profile_updated Examples.av_profile (subscribe init)) in
  disposed st = true /\
  _video_width (self st) = JInt 0 /\ _video_height (self st) = JInt 0 /\
  _audio_sample_rate (self st) = Some (JStr "48000") /\
  _audio_channels (self st) = Some (JInt 2) /\
  _audio_sample_rate (self (subscribe (self st))) = Some (JStr "48000") /\
  _audio_channels (self (subscribe (self st))) = Some (JInt 2) /\
  _audio_sample_rate init = None /\ _audio_channels init = None.
Proof. vm_compute. repeat split. Qed.

End AnalyserProofs.
(* ===================================================================== *)
(** ** More about [normalize_streams] *)

Module StreamProofs.

Import Ffprobe Streams FfprobeProofs.

(** *** The merging loop is an interleaving *)

Lemma merge_fold_shift (vs as_ vs' as' : list json) (l : list nat) (acc : list json) :
  (forall i, nth_error vs' (S i) = nth_error vs i) ->
  (forall i, nth_error as' (S i) = nth_error as_ i) ->
  fold_left (merge_step vs' as') (map S l) acc =
  fold_left (merge_step vs as_) l acc.
Proof.
  intros Hv Ha. revert acc. induction l as [|i l IH]; intros acc; simpl; [reflexivity|].
  rewrite IH. unfold merge_step. now rewrite Hv, Ha.
Qed.

Lemma merge_streams_nil_l (as_ : list json) : merge_streams [] as_ = as_.
Proof.
  unfold merge_streams. simpl.
  induction as_ as [|a as_ IH]; simpl; [reflexivity|].
  rewrite merge_fold_app. unfold merge_step at 2. simpl.
  rewrite <- seq_shift.
  rewrite (merge_fold_shift [] as_ [] (a :: as_)); [now rewrite IH| |];
    intros i; simpl; [now destruct i|reflexivity].
Qed.

Lemma merge_streams_nil_r (vs : list json) : merge_streams vs [] = vs.
Proof.
  unfold merge_streams. rewrite Nat.max_0_r.
  induction vs as [|v vs IH]; simpl; [reflexivity|].
  rewrite merge_fold_app. unfold merge_step at 2. simpl.
  rewrite <- seq_shift.
  rewrite (merge_fold_shift vs [] (v :: vs) []); [now rewrite IH| |];
    intros i; simpl; [reflexivity|now destruct i].
Qed.

Lemma merge_streams_cons (v a : json) (vs as_ : list json) :
  merge_streams (v :: vs) (a :: as_) = v :: a :: merge_streams vs as_.
Proof.
  unfold merge_streams. simpl List.length. rewrite <- Nat.succ_max_distr.
  simpl seq. simpl fold_left. rewrite merge_fold_app.
  unfold merge_step at 2. simpl. rewrite <- seq_shift.
  now rewrite (merge_fold_shift vs as_ (v :: vs) (a :: as_)).
Qed.

Lemma merge_streams_interleave (vs as_ : list json) :
  merge_streams vs as_ = interleave vs as_.
Proof.
  revert as_. induction vs as [|v vs IH]; intros as_.
  - rewrite merge_streams_nil_l. now destruct as_.
  - destruct as_ as [|a as_].
    + now rewrite merge_streams_nil_r.
    + rewrite merge_streams_cons, IH. reflexivity.
Qed.

Lemma interleave_length (vs as_ : list json) :
  List.length (interleave vs as_) = (List.length vs + List.length as_)%nat.
Proof.
  revert as_. induction vs as [|v vs IH]; intros [|a as_]; simpl; auto.
  rewrite IH. simpl. lia.
Qed.

Lemma interleave_filter (f : json -> bool) (vs as_ : list json) :
  Forall (fun s => f s = true) vs -> Forall (fun s => f s = false) as_ ->
  filter f (interleave vs as_) = vs.
Proof.
  revert as_. induction vs as [|v vs IH]; intros as_ Hv Ha.
  - simpl. destruct as_; [reflexivity|].
    induction Ha as [|a l Hfa _ IHl]; simpl; [reflexivity|]. now rewrite Hfa.
  - inversion Hv; subst. destruct as_ as [|a as_].
    + simpl. rewrite H1. f_equal.
      clear - H2. induction H2 as [|x l Hx _ IHl]; simpl; [reflexivity|].
      now rewrite Hx, IHl.
    + inversion Ha; subst. simpl. rewrite H1, H3. f_equal. now apply IH.
Qed.

Lemma interleave_filter_r (f : json -> bool) (vs as_ : list json) :
  Forall (fun s => f s = false) vs -> Forall (fun s => f s = true) as_ ->
  filter f (interleave vs as_) = as_.
Proof.
  revert as_. induction vs as [|v vs IH]; intros as_ Hv Ha.
  - simpl. destruct as_ as [|a as_]; [reflexivity|].
    clear - Ha. induction Ha as [|x l Hx _ IHl]; simpl; [reflexivity|].
    now rewrite Hx, IHl.
  - inversion Hv; subst. destruct as_ as [|a as_].
    + simpl. rewrite H1.
      clear - H2. induction H2 as [|x l Hx _ IHl]; simpl; [reflexivity|].
      now rewrite Hx.
    + inversion Ha; subst. simpl. rewrite H1, H3. f_equal. now apply IH.
Qed.

(** X1.  The index loop of lines 205-211 computes the strict
    alternation of its two lists: it keeps every descriptor exactly
    once, and the video descriptors, like the audio descriptors, keep
    the order they had. *)
Theorem X1_merge_is_interleaving (video_streams audio_streams : list json) :
  merge_streams video_streams audio_streams =
    interleave video_streams audio_streams /\
  List.length (merge_streams video_streams audio_streams) =
    (List.length video_streams + List.length audio_streams)%nat /\
  (Forall (fun s => is_kind "video" s = true) video_streams ->
   Forall (fun s => is_kind "audio" s = true) audio_streams ->
   filter (is_kind "video") (merge_streams video_streams audio_streams)
     = video_streams /\
   filter (is_kind "audio") (merge_streams video_streams audio_streams)
     = audio_streams).
Proof.
  rewrite merge_streams_interleave. split; [reflexivity|].
  split; [apply interleave_length|]. intros Hv Ha.
  split.
  - apply interleave_filter; [exact Hv|].
    eapply Forall_impl; [|exact Ha]. intros s. apply kinds_disjoint'.
  - apply interleave_filter_r; [|exact Ha].
    eapply Forall_impl; [|exact Hv]. intros s. apply kinds_disjoint.
Qed.

Lemma X1_merge_is_interleaving_witness :
  filter (is_kind "video")
         (merge_streams [video_placeholder; video_placeholder; video_placeholder]
                        [audio_placeholder])
  = [video_placeholder; video_placeholder; video_placeholder].
Proof.
  apply (X1_merge_is_interleaving
           [video_placeholder; video_placeholder; video_placeholder]
           [audio_placeholder]);
    repeat constructor.
Defined.

(** *** What a successful normalisation returns, in full *)

Lemma normalize_streams_shape (profile p : json) :
  normalize_streams profile = Ok p ->
  exists d raw encoder vs,
    profile = JDict d /\
    raw_streams profile = Ok raw /\
    format_encoder profile = Ok encoder /\
    add_encoder_tag encoder (filter (is_kind "video") raw) = Ok vs /\
    p = JDict (dict_set "streams"
                 (JList (merge_streams
                    (match vs with [] => vs ++ [video_placeholder] | _ => vs end)
                    (match filter (is_kind "audio") raw with
                     | [] => filter (is_kind "audio") raw ++ [audio_placeholder]
                     | _ => filter (is_kind "audio") raw
                     end))) d).
Proof.
  unfold normalize_streams, raw_streams, format_encoder.
  destruct (py_get profile "streams" (JList [])) as [sv|]; simpl; [|discriminate].
  destruct (py_iter sv) as [raw|]; simpl; [|discriminate].
  destruct (streams_of_kind "video" raw) as [vs0|] eqn:Hv; simpl; [|discriminate].
  destruct (streams_of_kind "audio" raw) as [as0|] eqn:Ha; simpl; [|discriminate].
  destruct (py_get profile "format" (JDict [])) as [fmt|]; simpl; [|discriminate].
  destruct (py_get fmt "tags" (JDict [])) as [ftags|]; simpl; [|discriminate].
  destruct (py_get ftags "encoder" JNull) as [encoder|]; simpl; [|discriminate].
  destruct (add_encoder_tag encoder vs0) as [vs|] eqn:Hvs; simpl; [|discriminate].
  apply streams_of_kind_filter in Hv, Ha. subst vs0 as0.
  intros H. destruct profile as [| | | | |d]; simpl in H; try discriminate.
  inversion H; subst. exists d, raw, encoder, vs. now repeat split.
Qed.

Lemma streams_of_set (d : dict) (l : list json) :
  streams_of (JDict (dict_set "streams" (JList l) d)) = l.
Proof. unfold streams_of, field. now rewrite dict_get_set_same. Qed.

Lemma filter_kind_all (kind : string) (l : list json) :
  Forall (fun s => is_kind kind s = true) (filter (is_kind kind) l).
Proof. apply Forall_forall. intros s Hs. apply filter_In in Hs. tauto. Qed.

(** Lines 143-148 on a descriptor of the declared shape. *)
Lemma add_encoder_tag_typed (encoder v0 : json) (rest : list json) :
  truthy encoder = true -> typed_descriptor v0 = true ->
  exists v,
    add_encoder_tag encoder (v0 :: rest) = Ok (v :: rest) /\
    encoder_tag v =
      Some (match encoder_tag v0 with Some e => e | None => encoder end) /\
    (forall k, k <> "tags" -> field k v = field k v0).
Proof.
  intros Ht Hty. destruct v0 as [| | | | |d]; try discriminate.
  unfold add_encoder_tag. rewrite Ht. simpl in *. unfold dict_mem.
  destruct (dict_get "tags" d) as [t|] eqn:Htags; simpl.
  - rewrite Htags. simpl. destruct t as [| | | | |td]; try discriminate. simpl.
    unfold dict_mem. destruct (dict_get "encoder" td) as [e|] eqn:He; simpl.
    + exists (JDict d). simpl. rewrite Htags, He. now repeat split.
    + eexists. split; [reflexivity|]. simpl.
      rewrite dict_get_set_same, dict_get_set_same. split; [reflexivity|].
      intros k Hk. now apply dict_get_set_other.
  - rewrite dict_get_set_same. simpl.
    eexists. split; [reflexivity|]. simpl.
    rewrite dict_get_set_same. simpl.
    split; [reflexivity|].
    intros k Hk. now rewrite !dict_get_set_other.
Qed.

(** X2.  When the container carries a non-empty encoder tag, the first
    video descriptor of the result has an encoder tag: its own if it had
    one, the container's otherwise.  Its other fields, and the video
    descriptors after it, are those of the raw output. *)
Theorem X2_encoder_tag_reaches_first_video (profile p encoder v0 : json)
    (raw rest : list json) :
  normalize_streams profile = Ok p ->
  format_encoder profile = Ok encoder -> truthy encoder = true ->
  raw_streams profile = Ok raw ->
  filter (is_kind "video") raw = v0 :: rest ->
  typed_descriptor v0 = true ->
  exists v tail,
    streams_of p = v :: tail /\
    encoder_tag v =
      Some (match encoder_tag v0 with Some e => e | None => encoder end) /\
    (forall k, k <> "tags" -> field k v = field k v0) /\
    filter (is_kind "video") (streams_of p) = v :: rest.
Proof.
  intros Hn Henc Ht Hraw Hv Hty.
  destruct (normalize_streams_shape _ _ Hn) as (d & raw' & enc' & vs & -> & Hraw' & Henc' & Hadd & ->).
  rewrite Hraw in Hraw'. inversion Hraw'; subst raw'.
  rewrite Henc in Henc'. inversion Henc'; subst enc'.
  rewrite Hv in Hadd.
  destruct (add_encoder_tag_typed encoder v0 rest Ht Hty) as (v & Hadd' & Htag & Hfields).
  rewrite Hadd' in Hadd. inversion Hadd; subst vs.
  rewrite streams_of_set, merge_streams_interleave.
  assert (Hvideo : Forall (fun s => is_kind "video" s = true) (v :: rest)).
  { pose proof (add_encoder_tag_spec _ _ _ Hadd') as [_ Hk]. apply Hk.
    rewrite <- Hv. apply filter_kind_all. }
  set (as' := match filter (is_kind "audio") raw with
              | [] => filter (is_kind "audio") raw ++ [audio_placeholder]
              | _ => filter (is_kind "audio") raw
              end).
  assert (Haudio : Forall (fun s => is_kind "audio" s = true) as').
  { subst as'. destruct (filter (is_kind "audio") raw) as [|a l] eqn:Hf.
    - repeat constructor.
    - rewrite <- Hf. apply filter_kind_all. }
  assert (Hhead : exists tail, interleave (v :: rest) as' = v :: tail).
  { destruct as' as [|a l]; simpl; eauto. }
  destruct Hhead as [tail Htail]. exists v, tail.
  split; [exact Htail|]. split; [exact Htag|]. split; [exact Hfields|].
  apply interleave_filter; [exact Hvideo|].
  eapply Forall_impl; [|exact Haudio]. intros s. apply kinds_disjoint'.
Qed.

Lemma X2_encoder_tag_reaches_first_video_witness :
  exists v tail,
    streams_of (JDict [("streams",
                        JList (merge_streams
                                 [JDict [("index", JInt 0); ("codec_name", JStr "h264");
                                         ("codec_type", JStr "video");
                                         ("width", JInt 1920); ("height", JInt 1080);
                                         ("coded_width", JInt 1920);
                                         ("coded_height", JInt 1088);
                                         ("tags", JDict [("encoder", JStr "Lavf")])]]
                                 [JDict [("index", JInt 1); ("codec_name", JStr "aac");
                                         ("codec_type", JStr "audio");
                                         ("sample_rate", JStr "48000");
                                         ("channels", JInt 2);
                                         ("bit_rate", JStr "128000")]]));
                       ("format", JDict [("tags", JDict [("encoder", JStr "Lavf")])])])
      = v :: tail /\
    encoder_tag v = Some (JStr "Lavf").
Proof.
  destruct (X2_encoder_tag_reaches_first_video Examples.av_profile _ (JStr "Lavf") _ _ _
              eq_refl eq_refl eq_refl eq_refl eq_refl eq_refl)
    as (v & tail & Hs & Ht & _).
  exists v, tail. split; [exact Hs|exact Ht].
Defined.

(** X3.  Normalisation changes the [streams] entry only.  When the
    container has no encoder tag, or an empty one, the result lists the
    raw video and audio descriptors themselves, alternating, a
    placeholder standing for a missing kind; so an output without any
    video or audio stream gives exactly the two placeholders. *)
Theorem X3_only_streams_changes (profile p : json) :
  normalize_streams profile = Ok p ->
  (forall k, k <> "streams" -> field k p = field k profile) /\
  (forall encoder raw,
      format_encoder profile = Ok encoder -> truthy encoder = false ->
      raw_streams profile = Ok raw ->
      streams_of p =
        interleave
          (match filter (is_kind "video") raw with
           | [] => [video_placeholder]
           | vs => vs
           end)
          (match filter (is_kind "audio") raw with
           | [] => [audio_placeholder]
           | as_ => as_
           end)) /\
  (forall raw,
      raw_streams profile = Ok raw ->
      existsb (is_kind "video") raw = false ->
      existsb (is_kind "audio") raw = false ->
      streams_of p = [video_placeholder; audio_placeholder]).
Proof.
  intros Hn.
  destruct (normalize_streams_shape _ _ Hn) as (d & raw & enc & vs & -> & Hraw & Henc & Hadd & ->).
  split; [|split].
  - intros k Hk. simpl. now apply dict_get_set_other.
  - intros enc' raw' Henc' Hf Hraw'.
    rewrite Hraw in Hraw'. inversion Hraw'; subst raw'.
    rewrite Henc in Henc'. inversion Henc'; subst enc'.
    rewrite streams_of_set, merge_streams_interleave.
    unfold add_encoder_tag in Hadd. rewrite Hf in Hadd.
    assert (Hvs : vs = filter (is_kind "video") raw).
    { destruct (filter (is_kind "video") raw); now inversion Hadd. }
    subst vs. f_equal.
    + now destruct (filter (is_kind "video") raw).
    + now destruct (filter (is_kind "audio") raw).
  - intros raw' Hraw' Hnv Hna.
    rewrite Hraw in Hraw'. inversion Hraw'; subst raw'.
    rewrite streams_of_set.
    rewrite (filter_nil_of_existsb _ _ Hnv) in Hadd.
    rewrite (filter_nil_of_existsb _ _ Hna).
    simpl in Hadd. inversion Hadd; subst vs. reflexivity.
Qed.

Lemma X3_only_streams_changes_witness :
  streams_of
    (JDict [("streams", JList (merge_streams [video_placeholder] [audio_placeholder]));
            ("format", JDict [("nb_streams", JInt 1)])])
  = [video_placeholder; audio_placeholder].
Proof.
  destruct (X3_only_streams_changes
              (JDict [("streams", JList [JDict [("codec_type", JStr "data")]]);
                      ("format", JDict [("nb_streams", JInt 1)])])
              _ eq_refl) as (_ & _ & H).
  exact (H _ eq_refl eq_refl eq_refl).
Defined.

(** *** Normalising twice *)

Lemma normalize_streams_steps (profile : json) :
  normalize_streams profile =
  rbind (raw_streams profile) (fun raw =>
  rbind (streams_of_kind "video" raw) (fun vs =>
  rbind (streams_of_kind "audio" raw) (fun as_ =>
  rbind (format_encoder profile) (fun encoder =>
  rbind (add_encoder_tag encoder vs) (fun vs =>
  py_setitem profile "streams"
    (JList (merge_streams
              (match vs with [] => vs ++ [video_placeholder] | _ => vs end)
              (match as_ with [] => as_ ++ [audio_placeholder] | _ => as_ end)))))))).
Proof.
  unfold normalize_streams, raw_streams, format_encoder.
  destruct (py_get profile "streams" (JList [])) as [sv|]; simpl; [|reflexivity].
  destruct (py_iter sv) as [raw|]; simpl; [|reflexivity].
  destruct (streams_of_kind "video" raw) as [vs0|]; simpl; [|reflexivity].
  destruct (streams_of_kind "audio" raw) as [as0|]; simpl; [|reflexivity].
  destruct (py_get profile "format" (JDict [])) as [fmt|]; simpl; [|reflexivity].
  destruct (py_get fmt "tags" (JDict [])) as [ftags|]; simpl; [|reflexivity].
  destruct (py_get ftags "encoder" JNull) as [encoder|]; simpl; reflexivity.
Qed.

Lemma is_kind_is_dict (kind : string) (s : json) :
  is_kind kind s = true -> is_dict s = true.
Proof. destruct s; simpl; try discriminate. reflexivity. Qed.

Lemma streams_of_kind_dicts (kind : string) (l : list json) :
  forallb is_dict l = true ->
  streams_of_kind kind l = Ok (filter (is_kind kind) l).
Proof.
  intros H. destruct (streams_of_kind_total kind l H) as [r Hr].
  rewrite Hr. f_equal. now apply streams_of_kind_filter.
Qed.

Lemma dict_set_twice (k : string) (v v' : json) (d : dict) :
  dict_set k v (dict_set k v' d) = dict_set k v d.
Proof.
  induction d as [|[k0 v0] d IH]; simpl.
  - now rewrite String.eqb_refl.
  - destruct (String.eqb_spec k k0) as [->|Hne]; simpl.
    + now rewrite String.eqb_refl.
    + destruct (String.eqb_spec k k0); [contradiction|]. now rewrite IH.
Qed.

Lemma dict_mem_set (k : string) (v : json) (d : dict) :
  dict_mem k (dict_set k v d) = true.
Proof. unfold dict_mem. now rewrite dict_get_set_same. Qed.

(** Lines 143-148 do nothing the second time. *)
Lemma add_encoder_tag_twice (encoder : json) (vs vs' : list json) :
  add_encoder_tag encoder vs = Ok vs' -> add_encoder_tag encoder vs' = Ok vs'.
Proof.
  unfold add_encoder_tag. destruct vs as [|v rest].
  { intros H. now inversion H. }
  destruct (truthy encoder) eqn:Ht.
  2:{ intros H. now inversion H. }
  destruct v as [| | | | |d]; simpl; try discriminate.
  - destruct (match index 0 "tags" s with Some _ => true | None => false end);
      simpl; discriminate.
  - destruct (existsb (fun x => py_eq x (JStr "tags")) l); simpl; discriminate.
  - unfold dict_mem at 1. destruct (dict_get "tags" d) as [t|] eqn:Htags; simpl.
    + rewrite Htags. simpl.
      destruct (py_contains "encoder" t) as [[|]|] eqn:Hc; simpl; try discriminate.
      * intros H. inversion H; subst. simpl.
        unfold dict_mem. rewrite Htags. simpl. rewrite Htags. simpl.
        now rewrite Hc.
      * destruct t as [| | | | |td]; simpl; try discriminate.
        intros H. inversion H; subst. simpl.
        rewrite dict_mem_set. simpl. rewrite dict_get_set_same. simpl.
        now rewrite dict_mem_set.
    + rewrite dict_get_set_same. simpl.
      intros H. inversion H; subst. simpl.
      rewrite dict_mem_set. simpl. rewrite dict_get_set_same. reflexivity.
Qed.

(** X4.  Normalising a normalised profile changes nothing, provided the
    raw output had a video stream or the container has no encoder tag.
    (Otherwise the second pass copies the encoder tag into the video
    placeholder that the first pass appended.) *)
Theorem X4_normalize_twice (profile p encoder : json) (raw : list json) :
  normalize_streams profile = Ok p ->
  raw_streams profile = Ok raw ->
  format_encoder profile = Ok encoder ->
  existsb (is_kind "video") raw = true \/ truthy encoder = false ->
  normalize_streams p = Ok p.
Proof.
  intros Hn Hraw Henc Hcase.
  destruct (normalize_streams_shape _ _ Hn)
    as (d & raw' & enc' & vs & -> & Hraw' & Henc' & Hadd & ->).
  rewrite Hraw in Hraw'. inversion Hraw'; subst raw'.
  rewrite Henc in Henc'. inversion Henc'; subst enc'.
  set (V := match vs with [] => vs ++ [video_placeholder] | _ => vs end).
  set (A := match filter (is_kind "audio") raw with
            | [] => filter (is_kind "audio") raw ++ [audio_placeholder]
            | _ => filter (is_kind "audio") raw
            end).
  assert (HV : Forall (fun s => is_kind "video" s = true) V).
  { pose proof (add_encoder_tag_spec _ _ _ Hadd) as [_ Hk].
    specialize (Hk (filter_kind_all "video" raw)).
    subst V. destruct vs; [repeat constructor|exact Hk]. }
  assert (HA : Forall (fun s => is_kind "audio" s = true) A).
  { subst A. destruct (filter (is_kind "audio") raw) as [|a l] eqn:Hf.
    - repeat constructor.
    - rewrite <- Hf. apply filter_kind_all. }
  assert (HVne : V <> []) by (subst V; destruct vs; discriminate).
  assert (HAne : A <> [])
    by (subst A; destruct (filter (is_kind "audio") raw); discriminate).
  assert (HfV : filter (is_kind "video") (merge_streams V A) = V).
  { rewrite merge_streams_interleave. apply interleave_filter; [exact HV|].
    eapply Forall_impl; [|exact HA]. intros s. apply kinds_disjoint'. }
  assert (HfA : filter (is_kind "audio") (merge_streams V A) = A).
  { rewrite merge_streams_interleave. apply interleave_filter_r; [|exact HA].
    eapply Forall_impl; [|exact HV]. intros s. apply kinds_disjoint. }
  assert (Hdicts : forallb is_dict (merge_streams V A) = true).
  { apply forallb_forall. intros s Hs. apply merge_streams_In in Hs.
    rewrite Forall_forall in HV, HA.
    destruct Hs as [Hs|Hs]; eapply is_kind_is_dict; eauto. }
  assert (HaddV : add_encoder_tag encoder V = Ok V).
  { destruct Hcase as [Hvideo|Hfalsy].
    - assert (Hvs : vs <> []).
      { pose proof (add_encoder_tag_spec _ _ _ Hadd) as [Hlen _].
        intros ->. simpl in Hlen.
        destruct (filter (is_kind "video") raw) as [|x l] eqn:Hf; [|discriminate].
        apply existsb_exists in Hvideo. destruct Hvideo as (x & Hin & Hx).
        assert (Hin' : In x (filter (is_kind "video") raw))
          by (apply filter_In; now split).
        now rewrite Hf in Hin'. }
      assert (HVvs : V = vs) by (subst V; now destruct vs).
      rewrite HVvs. eapply add_encoder_tag_twice; eauto.
    - unfold add_encoder_tag. rewrite Hfalsy. now destruct V. }
  rewrite normalize_streams_steps.
  assert (Hraw2 : raw_streams (JDict (dict_set "streams" (JList (merge_streams V A)) d))
                  = Ok (merge_streams V A)).
  { unfold raw_streams. simpl. now rewrite dict_get_set_same. }
  assert (Henc2 : format_encoder (JDict (dict_set "streams" (JList (merge_streams V A)) d))
                  = Ok encoder).
  { unfold format_encoder in *. simpl in *.
    rewrite dict_get_set_other by discriminate. exact Henc. }
  rewrite Hraw2. simpl.
  rewrite !streams_of_kind_dicts by assumption. simpl.
  rewrite HfV, HfA, Henc2. simpl. rewrite HaddV. simpl.
  replace (match V with [] => V ++ [video_placeholder] | _ :: _ => V end) with V
    by (now destruct V).
  replace (match A with [] => A ++ [audio_placeholder] | _ :: _ => A end) with A
    by (now destruct A).
  now rewrite dict_set_twice.
Qed.

Lemma X4_normalize_twice_witness :
  rbind (normalize_streams Examples.av_profile) normalize_streams =
  normalize_streams Examples.av_profile.
Proof.
  assert (Hp : exists p, normalize_streams Examples.av_profile = Ok p)
    by (eexists; vm_compute; reflexivity).
  destruct Hp as [p Hp]. rewrite Hp. simpl.
  apply (X4_normalize_twice Examples.av_profile p (JStr "Lavf")
           (streams_of Examples.av_profile) Hp eq_refl eq_refl).
  left. reflexivity.
Defined.

(** The excluded case: no video stream and an encoder tag. *)
Example normalize_twice_differs :
  let profile := JDict [("format", JDict [("tags", JDict [("encoder", JStr "Lavf")])])] in
  rbind (normalize_streams profile) normalize_streams <> normalize_streams profile.
Proof. vm_compute. discriminate. Qed.

(** *** Malformed probe output *)

Lemma streams_of_kind_raises (kind : string) (l : list json) :
  forallb is_dict l = false -> streams_of_kind kind l = Raise AttributeError.
Proof.
  induction l as [|s l IH]; simpl; [discriminate|].
  destruct s; simpl; try reflexivity.
  intros H. now rewrite (IH H).
Qed.

(** X5.  What [normalize_streams] does with a value of the wrong shape:
    a profile that is not an object, or a stream entry that is not an
    object, raises [AttributeError]; a [streams] entry that is null, a
    boolean or a number raises [TypeError].  Nothing is returned in
    these cases. *)
Theorem X5_normalize_rejects_malformed (profile : json) :
  (is_dict profile = false -> normalize_streams profile = Raise AttributeError) /\
  (forall raw, raw_streams profile = Ok raw -> forallb is_dict raw = false ->
               normalize_streams profile = Raise AttributeError) /\
  (forall v, field "streams" profile = Some v ->
             match v with JNull | JBool _ | JInt _ => True | _ => False end ->
             normalize_streams profile = Raise TypeError).
Proof.
  split; [|split].
  - destruct profile; try discriminate; reflexivity.
  - intros raw Hraw Hbad. rewrite normalize_streams_steps, Hraw. simpl.
    now rewrite streams_of_kind_raises.
  - intros v Hv Hshape. destruct profile as [| | | | |d]; try discriminate.
    simpl in Hv. unfold normalize_streams. simpl. rewrite Hv.
    destruct v; try contradiction; reflexivity.
Qed.

Lemma X5_normalize_rejects_malformed_witness :
  normalize_streams (JList []) = Raise AttributeError /\
  normalize_streams (JDict [("streams", JList [JStr "video"])]) = Raise AttributeError /\
  normalize_streams (JDict [("streams", JNull)]) = Raise TypeError.
Proof.
  split; [|split].
  - apply (X5_normalize_rejects_malformed (JList [])). reflexivity.
  - apply (proj1 (proj2 (X5_normalize_rejects_malformed
                           (JDict [("streams", JList [JStr "video"])])))
             [JStr "video"]); reflexivity.
  - apply (proj2 (proj2 (X5_normalize_rejects_malformed
                           (JDict [("streams", JNull)]))) JNull); [reflexivity|exact I].
Defined.

End StreamProofs.
(* ===================================================================== *)
(** ** The one-shot probe and the analyser's view of a profile *)

Module ProfileProofs.

Import Ffprobe Streams FfprobeProofs StreamProofs.

Lemma ffprobe_reaps (E : env) (data : bytes) (wd : world) :
  all_reaped (procs wd) -> all_reaped (procs (snd (ffprobe E data wd))).
Proof.
  intros H. rewrite ProbeProofs.ffprobe_cases.
  destruct (popen E (clock wd) data) as [e|[stdout|e alive]]; simpl.
  - exact H.
  - destruct (json_loads E stdout); simpl; now apply ProbeProofs.all_reaped_snoc.
  - now apply ProbeProofs.all_reaped_snoc.
Qed.

(** The head of a normalised stream list. *)
Lemma normalized_heads (profile p : json) :
  normalize_streams profile = Ok p ->
  exists v a vt at_,
    streams_of p = merge_streams (v :: vt) (a :: at_) /\
    Forall (fun s => is_kind "video" s = true) (v :: vt) /\
    Forall (fun s => is_kind "audio" s = true) (a :: at_) /\
    (forall raw, raw_streams profile = Ok raw ->
       existsb (is_kind "video") raw = false -> v = video_placeholder) /\
    (forall raw, raw_streams profile = Ok raw ->
       existsb (is_kind "audio") raw = false -> a = audio_placeholder).
Proof.
  intros Hn.
  destruct (normalize_streams_shape _ _ Hn)
    as (d & raw & enc & vs & -> & Hraw & Henc & Hadd & ->).
  rewrite streams_of_set.
  pose proof (add_encoder_tag_spec _ _ _ Hadd) as [_ Hk].
  specialize (Hk (filter_kind_all "video" raw)).
  assert (HV : exists v vt,
             match vs with [] => vs ++ [video_placeholder] | _ => vs end = v :: vt /\
             Forall (fun s => is_kind "video" s = true) (v :: vt) /\
             (vs = [] -> v = video_placeholder)).
  { destruct vs as [|v vt].
    - exists video_placeholder, []. repeat split. repeat constructor.
    - exists v, vt. repeat split; [exact Hk|discriminate]. }
  assert (HA : exists a at_,
             match filter (is_kind "audio") raw with
             | [] => filter (is_kind "audio") raw ++ [audio_placeholder]
             | _ => filter (is_kind "audio") raw
             end = a :: at_ /\
             Forall (fun s => is_kind "audio" s = true) (a :: at_) /\
             (filter (is_kind "audio") raw = [] -> a = audio_placeholder)).
  { destruct (filter (is_kind "audio") raw) as [|a at_] eqn:Hf.
    - exists audio_placeholder, []. repeat split. repeat constructor.
    - exists a, at_. repeat split; [|discriminate].
      rewrite <- Hf. apply filter_kind_all. }
  destruct HV as (v & vt & -> & HV & Hvp). destruct HA as (a & at_ & -> & HA & Hap).
  exists v, a, vt, at_. split; [reflexivity|]. split; [exact HV|]. split; [exact HA|].
  split; intros raw' Hraw' Hnone; rewrite Hraw in Hraw'; inversion Hraw'; subst raw'.
  - apply Hvp. rewrite (filter_nil_of_existsb _ _ Hnone) in Hadd.
    simpl in Hadd. now inversion Hadd.
  - apply Hap. now apply filter_nil_of_existsb.
Qed.

(** X6.  The action of [ffprobe_on] hands its observer either one
    profile followed by completion, the profile starting with a video
    and an audio descriptor, or one error and nothing else; an
    exception that is no [Exception] leaves the action and the observer
    hears nothing.  Whatever happens, no file is touched and no child
    is left unreaped. *)
Theorem X6_one_shot_probe (E : env) (data : bytes) (wd : world) :
  let r := fst (ProbeOn.ffprobe_on E data wd) in
  let wd' := snd (ProbeOn.ffprobe_on E data wd) in
  (all_reaped (procs wd) -> all_reaped (procs wd')) /\
  files wd' = files wd /\
  match fst (ffprobe E data wd) with
  | Ok profile =>
      r = Ok [ProbeOn.OnNext profile; ProbeOn.OnCompleted] /\
      exists v a rest,
        streams_of profile = v :: a :: rest /\
        is_kind "video" v = true /\ is_kind "audio" a = true
  | Raise e =>
      r = if is_Exception e then Ok [ProbeOn.OnError e] else Raise e
  end.
Proof.
  cbv zeta. unfold ProbeOn.ffprobe_on.
  pose proof (ffprobe_reaps E data wd) as Hreap.
  pose proof (proj1 (ProbeProofs.ffprobe_frame E data wd)) as Hfiles.
  destruct (ffprobe E data wd) as [[p|e] wd'] eqn:Hp; simpl in *.
  - split; [exact Hreap|]. split; [exact Hfiles|]. split; [reflexivity|].
    destruct (ProbeProofs.ffprobe_ok_normalized _ _ _ _ _ Hp)
      as (stdout & profile & _ & _ & Hn).
    destruct (normalized_heads _ _ Hn) as (v & a & vt & at_ & Hs & HV & HA & _).
    destruct (merge_streams_head v a vt at_) as [rest Hm].
    exists v, a, rest. rewrite Hs, Hm. inversion HV; inversion HA; subst. auto.
  - destruct (is_Exception e); simpl; auto.
Qed.

Lemma X6_one_shot_probe_witness :
  fst (ProbeOn.ffprobe_on Examples.probe_hangs [x0a] empty_world)
    = Ok [ProbeOn.OnError TimeoutExpired] /\
  procs (snd (ProbeOn.ffprobe_on Examples.probe_hangs [x0a] empty_world)) = [Reaped].
Proof.
  pose proof (X6_one_shot_probe Examples.probe_hangs [x0a] empty_world) as H.
  cbv zeta in H. destruct H as (Hreap & _ & Hr).
  split; [exact Hr|].
  specialize (Hreap (Forall_nil _)).
  vm_compute. reflexivity.
Defined.

Import Analyser.

(** X7.  Publishing a normalised profile never fails and replaces the
    whole cache, whatever it held: the snapshot then reports the width
    and height of the first video descriptor together with the dumper's
    size, and the cached audio parameters are those of the first audio
    descriptor.  For an output without video the snapshot is 0 x 0; for
    one without audio the cache holds the placeholder's ['0'] and [0],
    not [None]. *)
Theorem X7_profile_update_after_normalize (profile p : json) (a : analyser) :
  normalize_streams profile = Ok p ->
  exists v au rest a',
    streams_of p = v :: au :: rest /\
    _on_profile_updated a p = Ok a' /\
    (forall b, _on_profile_updated b p = Ok a') /\
    (forall (D : Type) (dur : D) dumper,
        Snapshot.width (Snapshot.make_metadata dur dumper a')
          = match field "width" v with Some x => x | None => JInt 0 end /\
        Snapshot.height (Snapshot.make_metadata dur dumper a')
          = match field "height" v with Some x => x | None => JInt 0 end /\
        Snapshot.filesize (Snapshot.make_metadata dur dumper a')
          = SegmentDumper._filesize dumper) /\
    _audio_sample_rate a'
      = Some (match field "sample_rate" au with Some x => x | None => JNull end) /\
    _audio_channels a'
      = Some (match field "channels" au with Some x => x | None => JNull end) /\
    (forall raw, raw_streams profile = Ok raw ->
       existsb (is_kind "video") raw = false ->
       _video_width a' = JInt 0 /\ _video_height a' = JInt 0) /\
    (forall raw, raw_streams profile = Ok raw ->
       existsb (is_kind "audio") raw = false ->
       _audio_sample_rate a' = Some (JStr "0") /\ _audio_channels a' = Some (JInt 0)).
Proof.
  intros Hn.
  destruct (normalized_heads _ _ Hn) as (v & au & vt & at_ & Hs & HV & HA & Hvp & Hap).
  destruct (merge_streams_head v au vt at_) as [rest Hm].
  assert (Hp : exists d, p = JDict d /\
                         dict_get "streams" d = Some (JList (merge_streams (v :: vt) (au :: at_)))).
  { destruct (normalize_streams_shape _ _ Hn)
      as (d & raw0 & enc0 & vs0 & Hprof & Hraw0 & Henc0 & Hadd0 & Hpd).
    exists (dict_set "streams"
              (JList (merge_streams (v :: vt) (au :: at_))) d).
    rewrite Hpd in Hs |- *. rewrite streams_of_set in Hs. rewrite Hs.
    split; [reflexivity|]. apply dict_get_set_same. }
  destruct Hp as (d & -> & Hd).
  assert (Hdicts : forallb is_dict (merge_streams (v :: vt) (au :: at_)) = true).
  { apply forallb_forall. intros s Hin. apply merge_streams_In in Hin.
    rewrite Forall_forall in HV, HA.
    destruct Hin as [Hin|Hin]; eapply is_kind_is_dict; eauto. }
  assert (HfV : filter (is_kind "video") (merge_streams (v :: vt) (au :: at_)) = v :: vt).
  { rewrite merge_streams_interleave. apply interleave_filter; [exact HV|].
    eapply Forall_impl; [|exact HA]. intros s. apply kinds_disjoint'. }
  assert (HfA : filter (is_kind "audio") (merge_streams (v :: vt) (au :: at_)) = au :: at_).
  { rewrite merge_streams_interleave. apply interleave_filter_r; [|exact HA].
    eapply Forall_impl; [|exact HV]. intros s. apply kinds_disjoint. }
  assert (Hvd : exists dv, v = JDict dv).
  { inversion HV; subst. destruct v; try discriminate. eauto. }
  assert (Had : exists da, au = JDict da).
  { inversion HA; subst. destruct au; try discriminate. eauto. }
  destruct Hvd as [dv ->]. destruct Had as [da ->].
  assert (Hrun : forall b,
            _on_profile_updated b (JDict d) =
            Ok (mk_analyser
                  (match dict_get "width" dv with Some x => x | None => JInt 0 end)
                  (match dict_get "height" dv with Some x => x | None => JInt 0 end)
                  (Some (match dict_get "sample_rate" da with Some x => x | None => JNull end))
                  (Some (match dict_get "channels" da with Some x => x | None => JNull end)))).
  { intros b. unfold _on_profile_updated. simpl. rewrite Hd. simpl.
    rewrite !streams_of_kind_dicts by assumption. simpl.
    rewrite HfV, HfA. reflexivity. }
  eexists (JDict dv), (JDict da), rest, _.
  split; [now rewrite Hs, Hm|]. split; [apply Hrun|]. split; [apply Hrun|].
  split; [intros; simpl; auto|]. split; [reflexivity|]. split; [reflexivity|].
  split.
  - intros raw Hraw Hnone. specialize (Hvp raw Hraw Hnone). inversion Hvp. now split.
  - intros raw Hraw Hnone. specialize (Hap raw Hraw Hnone). inversion Hap. now split.
Qed.

Lemma X7_profile_update_after_normalize_witness :
  exists a',
    rbind (normalize_streams Examples.with_data_stream) (_on_profile_updated init)
      = Ok a' /\
    _audio_sample_rate a' = Some (JStr "0") /\ _audio_channels a' = Some (JInt 0).
Proof.
  assert (Hp : exists p, normalize_streams Examples.with_data_stream = Ok p)
    by (eexists; vm_compute; reflexivity).
  destruct Hp as [p Hp].
  destruct (X7_profile_update_after_normalize Examples.with_data_stream p init Hp)
    as (v & au & rest & a' & _ & Hup & _ & _ & _ & _ & _ & Haudio).
  exists a'. rewrite Hp. simpl. split; [exact Hup|].
  apply (Haudio (streams_of Examples.with_data_stream)); reflexivity.
Defined.

(** *** The analyser as a stage *)

Lemma analyser_run_items (items : list item) (st : state) :
  disposed st = false -> is_stopped st = false ->
  run (map Next items) st =
  mk_state (self st) false false (forwarded st ++ map EvForward items).
Proof.
  revert st. induction items as [|it items IH]; intros st Hd Hs; simpl.
  - rewrite app_nil_r. destruct st; simpl in *. now subst.
  - unfold run in *. simpl.
    assert (Hstep : deliver st (Next it) =
                    mk_state (self st) false false (forwarded st ++ [EvForward it])).
    { unfold deliver. rewrite Hd. unfold on_next. now rewrite Hs, Hd. }
    rewrite Hstep, IH by reflexivity. simpl. now rewrite <- app_assoc.
Qed.

(** X8.  The stage of the analyser hands every item on as it came, in
    order, and then the terminal notification of its source; the
    subscription resets the cached resolution and nothing else, and the
    items change nothing in the analyser. *)
Theorem X8_analyser_passes_items_through (items : list item) (a : analyser) :
  let st := run (map Next items) (subscribe a) in
  forwarded st = map EvForward items /\
  self st = _reset a /\ disposed st = false /\
  forwarded (run [Completed] st) = map EvForward items ++ [EvCompleted] /\
  (forall e, forwarded (run [Error e] st) = map EvForward items ++ [EvError e]) /\
  _audio_sample_rate (self st) = _audio_sample_rate a /\
  _audio_channels (self st) = _audio_channels a.
Proof.
  cbv zeta. rewrite analyser_run_items by reflexivity. simpl.
  repeat split; reflexivity.
Qed.

End ProfileProofs.
(* ===================================================================== *)
(** ** Invariants of a session, generically *)

Module SessionProofs.

Import SegmentDumper Invariants Pairing DumperLogic DumperSteps DumperTheorems.

(** A property of the state is kept by every handler as soon as it is
    kept by the steps the handlers are made of. *)
Section Keeps.

Variable E : env.
Variable P : state -> Prop.
Variable C : state -> Prop.
Variable ok : item -> Prop.

Hypothesis P_quiet : forall A (m : M state A), quietly m -> preserves P m.
Hypothesis P_disposed : forall b st, P st -> P (set_disposed b st).
Hypothesis P_stopped : forall b st, P st -> P (set_is_stopped b st).
Hypothesis P_forget : forall st, P st -> P (set_last_init_item None st).
Hypothesis P_retain :
  forall it st, ok it -> kind it = InitSectionData -> P st ->
                P (set_last_init_item (Some it) st).
Hypothesis P_retained : forall st l, P st -> last_init_item st = Some l -> ok l.
(** [C] is what holds between [_close_file] and [_reset]. *)
Hypothesis P_close : hoare P (_close_file E) (fun _ => C) (fun _ => P).
Hypothesis P_reset : hoare C (_reset) (fun _ => P) (fun _ _ => False).
Hypothesis P_rotate : preserves P (rotate E).
Hypothesis P_write : forall it, ok it -> preserves P (write_forward E it).
Hypothesis P_plain : forall ev st, plain ev -> P st -> P (on_world (emit_w ev) st).

Lemma keeps_close_reset : preserves P (bind (_close_file E) (fun _ => _reset)).
Proof.
  eapply hoare_bind; [apply P_close|]. intros u. apply hoare_never_raises, P_reset.
Qed.

Lemma keeps_close_reset_then {A} (k : M state A) :
  preserves P k ->
  preserves P (bind (_close_file E) (fun _ => bind (_reset) (fun _ => k))).
Proof.
  intros Hk. eapply hoare_bind; [apply P_close|]. intros u.
  eapply hoare_bind; [apply hoare_never_raises, P_reset|]. intros u'. exact Hk.
Qed.

Lemma keeps_emit (ev : event) : plain ev -> preserves P (emit ev).
Proof. intros Hev. apply hoare_modify. intros st. now apply P_plain. Qed.

Lemma keeps_dispose_subscription : preserves P (dispose_subscription E).
Proof.
  unfold dispose_subscription. apply preserves_bind; [apply preserves_gets|].
  intros [|]; [apply preserves_ret|]. unfold dispose.
  apply preserves_bind; [apply hoare_modify; intros st; apply P_disposed|]. intros u1.
  apply preserves_bind; [apply hoare_modify; intros st; apply P_forget|]. intros u2.
  apply keeps_close_reset.
Qed.

Lemma keeps_observer_on_error (e : exn) : preserves P (observer_on_error E e).
Proof.
  unfold observer_on_error. apply preserves_bind; [apply preserves_gets|].
  intros [|]; [apply preserves_ret|].
  apply preserves_bind; [apply hoare_modify; intros st; apply P_stopped|]. intros u.
  apply preserves_bind; [now apply keeps_emit|]. intros u'.
  apply keeps_dispose_subscription.
Qed.

Lemma keeps_observer_on_completed : preserves P (observer_on_completed E).
Proof.
  unfold observer_on_completed. apply preserves_bind; [apply preserves_gets|].
  intros [|]; [apply preserves_ret|].
  apply preserves_bind; [apply hoare_modify; intros st; apply P_stopped|]. intros u.
  apply preserves_bind; [now apply keeps_emit|]. intros u'.
  apply keeps_dispose_subscription.
Qed.

Lemma keeps_write_items (b : bool) (it : item) :
  ok it -> preserves P (write_items E b it).
Proof.
  intros Hit. unfold write_items. apply preserves_bind.
  - destruct (b && _); [|apply preserves_ret].
    intros st HP. unfold bind, gets.
    destruct (last_init_item st) as [last|] eqn:Hl; [|exact HP].
    apply (P_write last (P_retained st last HP Hl) st HP).
  - intros u. now apply P_write.
Qed.

Lemma keeps_write_failed (e : exn) : preserves P (write_failed E e).
Proof.
  unfold write_failed. apply preserves_bind; [now apply keeps_emit|]. intros u.
  apply keeps_close_reset_then, keeps_observer_on_error.
Qed.

Lemma keeps_on_next (it : item) : ok it -> preserves P (on_next E it).
Proof.
  intros Hit. unfold on_next. apply preserves_bind.
  - destruct (kind it) eqn:Hk; [|apply preserves_ret].
    apply preserves_bind; [apply preserves_gets|]. intros last.
    destruct (_is_redundant last it); [apply preserves_ret|].
    apply preserves_bind; [apply P_quiet, quietly_must_split_file|].
    intros b. apply preserves_bind;
      [apply hoare_modify; intros st; now apply P_retain|].
    intros u. apply preserves_ret.
  - intros [split_file|]; [|apply preserves_ret].
    apply preserves_bind.
    + destruct (truthy _); [apply P_rotate|apply preserves_ret].
    + intros u. apply preserves_try;
        [now apply keeps_write_items|apply keeps_write_failed].
Qed.

Lemma keeps_handler (n : notification) :
  (forall it, n = Next it -> ok it) -> preserves P (handler E n).
Proof.
  intros Hn. destruct n as [it|e| |]; simpl.
  - apply keeps_on_next. now apply Hn.
  - unfold on_error. apply keeps_close_reset_then, keeps_observer_on_error.
  - unfold on_completed. apply keeps_close_reset_then, keeps_observer_on_completed.
  - unfold cancel.
    apply preserves_bind; [apply hoare_modify; intros st; apply P_stopped|].
    intros u. apply keeps_dispose_subscription.
Qed.

Lemma keeps_deliver (st : state) (n : notification) :
  (forall it, n = Next it -> ok it) -> P st -> P (deliver E st n).
Proof.
  intros Hn HP. unfold deliver. destruct (disposed st); [exact HP|].
  pose proof (keeps_handler n Hn st HP) as H.
  destruct (handler E n st) as [[u|e] st']; [exact H|].
  now apply P_plain.
Qed.

Lemma keeps_run (ns : list notification) (st : state) :
  (forall it, In (Next it) ns -> ok it) -> P st -> P (run E ns st).
Proof.
  revert st. induction ns as [|n ns IH]; intros st Hns HP; simpl; [exact HP|].
  apply IH.
  - intros it Hin. apply Hns. now right.
  - apply keeps_deliver; [|exact HP]. intros it ->. apply Hns. now left.
Qed.

End Keeps.

End SessionProofs.
(* ===================================================================== *)
(** ** The [fileOpened] and [fileClosed] notifications *)

Module PairingProofs.

Import SegmentDumper Invariants Pairing DumperLogic DumperSteps DumperTheorems.
Import SessionProofs.

Lemma opened_app (j1 j2 : list event) :
  file_opened_events (j1 ++ j2) = file_opened_events j1 ++ file_opened_events j2.
Proof. apply flat_map_app. Qed.

Lemma closed_app (j1 j2 : list event) :
  file_closed_events (j1 ++ j2) = file_closed_events j1 ++ file_closed_events j2.
Proof. apply flat_map_app. Qed.

Lemma forwarded_app (j1 j2 : list event) :
  forwarded_items (j1 ++ j2) = forwarded_items j1 ++ forwarded_items j2.
Proof. apply flat_map_app. Qed.

Lemma unnotified_events (evs : list event) :
  Forall unnotified evs ->
  file_opened_events evs = [] /\ file_closed_events evs = [].
Proof.
  induction 1 as [|ev evs Hev _ [IH1 IH2]]; [now split|].
  destruct ev; simpl in *; try contradiction; now split.
Qed.

Lemma quiet_unnotified (evs : list event) : Forall quiet evs -> Forall unnotified evs.
Proof.
  intros H. eapply Forall_impl; [|exact H]. intros ev. now destruct ev.
Qed.

Lemma plain_unnotified (ev : event) : plain ev -> unnotified ev.
Proof. now destruct ev. Qed.

(** Steps that keep the paths and the open or closed state of every
    file object and notify nothing keep the pairing. *)
Lemma paired_shape (st st' : state) (evs : list event) :
  paired st ->
  _path st' = _path st -> _file st' = _file st ->
  map f_path (files (w st')) = map f_path (files (w st)) ->
  map f_path (filter f_closed (files (w st'))) =
    map f_path (filter f_closed (files (w st))) ->
  List.length (files (w st')) = List.length (files (w st)) ->
  (forall fd, f_closed (file_of fd (w st')) = f_closed (file_of fd (w st)) /\
              f_path (file_of fd (w st')) = f_path (file_of fd (w st))) ->
  journal (w st') = journal (w st) ++ evs -> Forall unnotified evs ->
  paired st'.
Proof.
  intros ([H1 H2] & H3) Hp Hf Hm Hmc Hlen Hsame Hj Hev.
  destruct (unnotified_events evs Hev) as [Ho Hc].
  unfold paired, announced.
  rewrite Hp, Hf, Hm, Hmc, Hlen, Hj, opened_app, closed_app, Ho, Hc, !app_nil_r.
  split; [split; [exact H1|exact H2]|].
  intros fd Hfd. destruct (Hsame fd) as [Hc' Hp']. rewrite Hc', Hp'.
  now apply H3.
Qed.

Lemma paired_ext (st st' : state) (evs : list event) :
  paired st ->
  _path st' = _path st -> _file st' = _file st ->
  files (w st') = files (w st) ->
  journal (w st') = journal (w st) ++ evs -> Forall unnotified evs ->
  paired st'.
Proof.
  intros HP Hp Hf Hfs Hj Hev.
  apply (paired_shape st st' evs); auto; try now rewrite Hfs.
  intros fd. unfold file_of. now rewrite Hfs.
Qed.

Lemma update_keeps_shape (fs : list file_obj) (fd : nat) (g d : file_obj) :
  f_path g = f_path (nth fd fs d) -> f_closed g = f_closed (nth fd fs d) ->
  map f_path (update_nth fd (fun _ => g) fs) = map f_path fs /\
  map f_path (filter f_closed (update_nth fd (fun _ => g) fs)) =
    map f_path (filter f_closed fs) /\
  (forall fd', f_closed (nth fd' (update_nth fd (fun _ => g) fs) d) =
                 f_closed (nth fd' fs d) /\
               f_path (nth fd' (update_nth fd (fun _ => g) fs) d) =
                 f_path (nth fd' fs d)).
Proof.
  revert fd. induction fs as [|x fs IH]; intros fd Hp Hc.
  - destruct fd; simpl; repeat split.
  - destruct fd as [|fd]; simpl in *.
    + split; [now rewrite Hp|split].
      * rewrite Hc. destruct (f_closed x); simpl; now rewrite ?Hp.
      * intros [|fd']; simpl; auto.
    + destruct (IH fd Hp Hc) as (I1 & I2 & I3). split; [now rewrite I1|split].
      * destruct (f_closed x); simpl; now rewrite I2.
      * intros [|fd']; simpl; auto.
Qed.

Lemma last_split {A} (l : list A) (n : nat) (d : A) :
  S n = List.length l -> l = firstn n l ++ [nth n l d] /\ List.length (firstn n l) = n.
Proof.
  revert n. induction l as [|x l IH]; intros n Hn; simpl in Hn; [discriminate|].
  destruct n as [|n]; simpl.
  - destruct l; [now split|discriminate].
  - destruct (IH n) as [I1 I2]; [lia|]. split; [now rewrite <- I1|now rewrite I2].
Qed.

Section Pairs.

Variable E : env.

(** In this section closing a file does not fail. *)
Hypothesis closes : close_ok E.

Lemma paired_quiet {A} (m : M state A) : quietly m -> preserves paired m.
Proof.
  intros Hq st HP. specialize (Hq st).
  assert (H : paired (snd (m st))).
  { destruct Hq as (Hp & Hf & _ & _ & _ & _ & Hfs & evs & Hj & Hev).
    apply (paired_ext st _ evs); auto using quiet_unnotified. }
  destruct (m st) as [[a|e] st']; exact H.
Qed.

Lemma paired_plain (ev : event) (st : state) :
  plain ev -> paired st -> paired (on_world (emit_w ev) st).
Proof.
  intros Hev HP. apply (paired_ext st _ [ev]); auto.
  constructor; [now apply plain_unnotified|constructor].
Qed.

Lemma paired_tick (st : state) : paired st -> paired (on_world tick_w st).
Proof.
  intros HP. apply (paired_ext st _ []); auto. simpl. now rewrite app_nil_r.
Qed.

Lemma paired_close :
  hoare paired (_close_file E) (fun _ => announced) (fun _ => paired).
Proof.
  intros st HP. unfold _close_file, bind, gets.
  destruct (_file st) as [fd|] eqn:Hfile; [|exact (proj1 HP)].
  destruct (f_closed (file_of fd (w st))) eqn:Hc; [exact (proj1 HP)|]. cbn [negb].
  destruct (sys_close_cases E fd st) as [Hs|(e & Hs & _ & He)];
    [|rewrite closes in He; discriminate].
  rewrite Hs. simpl.
  destruct HP as ([H1 H2] & H3). destruct (H3 fd Hfile) as (_ & Hlen & Hpath).
  destruct (last_split (files (w st)) fd (mk_file EmptyString [] true) Hlen)
    as [Hsplit Hlen0].
  fold (file_of fd (w st)) in Hsplit.
  set (f := file_of fd (w st)) in *. set (fs0 := firstn fd (files (w st))) in *.
  unfold announced. simpl. fold f.
  clearbody f fs0. subst fd. rewrite Hsplit in *.
  rewrite ProbeProofs.update_nth_snoc.
  rewrite !opened_app, !closed_app. simpl. rewrite !app_nil_r.
  split.
  - rewrite H1. now rewrite !map_app.
  - rewrite H2. rewrite !filter_app, !map_app. simpl.
    rewrite Hc. simpl. now rewrite app_nil_r, Hpath.
Qed.

Lemma paired_reset :
  hoare announced (_reset) (fun _ st => paired st /\ _file st = None)
        (fun _ _ => False).
Proof.
  intros st HA. unfold _reset, bind, modify. simpl.
  split; [|reflexivity]. split; [exact HA|]. discriminate.
Qed.

Lemma paired_open :
  hoare (fun st => paired st /\ _file st = None) (_open_file E)
        (fun _ => paired) (fun _ => paired).
Proof.
  intros st [HP Hnone]. unfold _open_file, bind, call_path_provider.
  destruct (path_provider E (clock (w st))) as [[path ts]|e]; simpl;
    [|now apply paired_tick].
  assert (Hset : forall p st0, paired st0 -> _file st0 = None -> paired (set_path p st0)).
  { intros p st0 (HA & H3) Hn. split; [exact HA|].
    intros fd Hfd. simpl in Hfd. congruence. }
  unfold lift. destruct (with_suffix_m4s E path) as [p|e]; simpl;
    [|now apply paired_tick].
  unfold sys_open. simpl.
  destruct (open_wb E (S (clock (w st))) p) as [e|]; simpl.
  - apply paired_tick. apply Hset; [now apply paired_tick|exact Hnone].
  - destruct HP as ([H1 H2] & H3). unfold paired, announced. simpl.
    rewrite !opened_app, !closed_app. simpl. rewrite !app_nil_r.
    rewrite filter_app, !map_app. simpl. rewrite app_nil_r.
    split; [split; [now rewrite H1|exact H2]|].
    intros fd Hfd. injection Hfd as <-. unfold file_of. simpl.
    rewrite ProbeProofs.nth_length_snoc. split; [reflexivity|]. split.
    + rewrite length_app. simpl. lia.
    + reflexivity.
Qed.

Lemma paired_rotate : preserves paired (rotate E).
Proof.
  unfold rotate.
  eapply hoare_bind; [apply paired_close|]. intros u.
  eapply hoare_bind; [apply hoare_never_raises, paired_reset|]. intros u'.
  apply paired_open.
Qed.

Lemma paired_reset' :
  hoare announced (_reset) (fun _ => paired) (fun _ _ => False).
Proof.
  eapply hoare_weaken; [apply paired_reset|auto|intros a st [H _]; exact H|auto].
Qed.

Lemma paired_write (it : item) : preserves paired (write_forward E it).
Proof.
  intros st HP. unfold write_forward, _write_data, bind, gets.
  destruct (_file st) as [fd|] eqn:Hfile; [|exact HP].
  unfold sys_tell. destruct (f_closed (file_of fd (w st))) eqn:Hc; [exact HP|].
  unfold sys_write. rewrite Hc.
  destruct (file_write E (clock (w st)) (payload it)) as [e|]; simpl;
    [now apply paired_tick|].
  unfold item_len. rewrite Z.eqb_refl. unfold ret, _update_filesize, modify. simpl.
  set (f := file_of fd (w st)) in *.
  destruct (update_keeps_shape (files (w st)) fd
              (mk_file (f_path f) (f_data f ++ payload it) false)
              (mk_file EmptyString [] true) eq_refl (eq_sym Hc))
    as (U1 & U2 & U3).
  unfold observer_on_next, bind, gets. simpl.
  destruct (is_stopped st); unfold emit, modify, ret; simpl.
  - apply (paired_shape st _ [EvWrite fd (payload it)]); simpl; auto.
    + apply update_nth_length.
    + repeat constructor.
  - apply (paired_shape st _ [EvWrite fd (payload it);
             EvForward (evolve_offset it (Z.of_nat (List.length (f_data f))))]);
      simpl; auto.
    + apply update_nth_length.
    + now rewrite <- app_assoc.
    + repeat constructor.
Qed.

(** The pairing holds throughout a session. *)
Lemma paired_run (ns : list notification) (st : state) :
  paired st -> paired (run E ns st).
Proof.
  intros HP.
  apply (keeps_run E paired announced (fun _ => True)).
  - intros A m. apply paired_quiet.
  - intros b st0 HP0. exact HP0.
  - intros b st0 HP0. exact HP0.
  - intros st0 HP0. exact HP0.
  - intros it st0 _ _ HP0. exact HP0.
  - intros st0 l _ _. exact I.
  - apply paired_close.
  - apply paired_reset'.
  - apply paired_rotate.
  - intros it _. apply paired_write.
  - intros ev st0. apply paired_plain.
  - intros it _. exact I.
  - exact HP.
Qed.

Lemma paired_subscribed (wd : world) :
  files wd = [] -> file_opened_events (journal wd) = [] ->
  file_closed_events (journal wd) = [] -> paired (subscribed wd).
Proof.
  intros Hf Ho Hc. unfold paired, announced. simpl. rewrite Hf, Ho, Hc.
  split; [split; reflexivity|discriminate].
Qed.

End Pairs.

End PairingProofs.
(* ===================================================================== *)
(** ** Where the forwarded items come from *)

Module OriginProofs.

Import SegmentDumper Invariants Pairing DumperLogic DumperSteps DumperTheorems.
Import SessionProofs PairingProofs.

Lemma same_item_evolve (it : item) (off : Z) : same_item it (evolve_offset it off).
Proof. repeat split. Qed.

Lemma no_forward_quiet (evs : list event) :
  Forall quiet evs -> forwarded_items evs = [].
Proof.
  induction 1 as [|ev evs Hev _ IH]; [reflexivity|].
  destruct ev; simpl in *; try contradiction; exact IH.
Qed.

Section Origin.

Variable E : env.
Variable src : item -> Prop.

Lemma stems_ext (st st' : state) (evs : list event) :
  stems_from src st ->
  last_init_item st' = last_init_item st ->
  journal (w st') = journal (w st) ++ evs ->
  (forall f, In f (forwarded_items evs) -> exists it, src it /\ same_item it f) ->
  stems_from src st'.
Proof.
  intros [H1 H2] Hl Hj Hev. split.
  - intros f. rewrite Hj, forwarded_app, in_app_iff. intros [Hin|Hin]; auto.
  - now rewrite Hl.
Qed.

Lemma stems_silent (st st' : state) (evs : list event) :
  stems_from src st ->
  last_init_item st' = last_init_item st ->
  journal (w st') = journal (w st) ++ evs -> forwarded_items evs = [] ->
  stems_from src st'.
Proof.
  intros HP Hl Hj Hev. apply (stems_ext st st' evs); auto.
  rewrite Hev. contradiction.
Qed.

Lemma stems_tick (st : state) : stems_from src st -> stems_from src (on_world tick_w st).
Proof.
  intros HP. apply (stems_silent st _ []); auto. simpl. now rewrite app_nil_r.
Qed.

Lemma stems_quiet {A} (m : M state A) : quietly m -> preserves (stems_from src) m.
Proof.
  intros Hq st HP. specialize (Hq st).
  assert (H : stems_from src (snd (m st))).
  { destruct Hq as (_ & _ & _ & _ & Hl & _ & _ & evs & Hj & Hev).
    apply (stems_silent st _ evs); auto using no_forward_quiet. }
  destruct (m st) as [[a|e] st']; exact H.
Qed.

Lemma stems_close : preserves (stems_from src) (_close_file E).
Proof.
  intros st HP. unfold _close_file, bind, gets.
  destruct (_file st) as [fd|]; [|exact HP].
  destruct (f_closed (file_of fd (w st))); [exact HP|]. cbn [negb].
  destruct (sys_close_cases E fd st) as [Hs|(e & Hs & _)]; rewrite Hs; simpl.
  - apply (stems_silent st _ [EvClose fd; EvLog Debug "Closed file";
                              EvFileClosed (_path st)]); auto.
    simpl. now rewrite <- !app_assoc.
  - apply (stems_silent st _ [EvClose fd]); auto.
Qed.

Lemma stems_reset :
  hoare (stems_from src) (_reset) (fun _ => stems_from src) (fun _ _ => False).
Proof. intros st HP. exact HP. Qed.

Lemma stems_open : preserves (stems_from src) (_open_file E).
Proof.
  intros st HP. unfold _open_file, bind, call_path_provider.
  destruct (path_provider E (clock (w st))) as [[path ts]|e]; simpl;
    [|now apply stems_tick].
  unfold lift. destruct (with_suffix_m4s E path) as [p|e]; simpl;
    [|now apply stems_tick].
  unfold sys_open. simpl.
  destruct (open_wb E (S (clock (w st))) p) as [e|]; simpl.
  - apply (stems_silent st _ []); auto. simpl. now rewrite app_nil_r.
  - apply (stems_silent st _ [EvOpen (List.length (files (w st))) p;
                              EvLog Debug "Opened file"; EvFileOpened p ts]); auto.
    simpl. now rewrite <- !app_assoc.
Qed.

Lemma stems_rotate : preserves (stems_from src) (rotate E).
Proof.
  unfold rotate.
  apply preserves_bind; [apply stems_close|]. intros u.
  apply preserves_bind; [apply hoare_never_raises, stems_reset|]. intros u'.
  apply stems_open.
Qed.

Lemma stems_write (it : item) :
  src it -> preserves (stems_from src) (write_forward E it).
Proof.
  intros Hit st HP. unfold write_forward, _write_data, bind, gets.
  destruct (_file st) as [fd|] eqn:Hfile; [|exact HP].
  unfold sys_tell. destruct (f_closed (file_of fd (w st))) eqn:Hc; [exact HP|].
  unfold sys_write. rewrite Hc.
  destruct (file_write E (clock (w st)) (payload it)) as [e|]; simpl;
    [now apply stems_tick|].
  unfold item_len. rewrite Z.eqb_refl. unfold ret, _update_filesize, modify. simpl.
  unfold observer_on_next, bind, gets. simpl.
  destruct (is_stopped st); unfold emit, modify, ret; simpl.
  - apply (stems_silent st _ [EvWrite fd (payload it)]); auto.
  - apply (stems_ext st _ [EvWrite fd (payload it);
             EvForward (evolve_offset it
               (Z.of_nat (List.length (f_data (file_of fd (w st))))))]); auto.
    + simpl. now rewrite <- app_assoc.
    + simpl. intros f [<-|[]]. exists it. split; [exact Hit|apply same_item_evolve].
Qed.

Lemma stems_plain (ev : event) (st : state) :
  plain ev -> stems_from src st -> stems_from src (on_world (emit_w ev) st).
Proof.
  intros Hev HP. apply (stems_silent st _ [ev]); auto. now destruct ev.
Qed.

Lemma stems_run (ns : list notification) (st : state) :
  (forall it, In (Next it) ns -> src it) ->
  stems_from src st -> stems_from src (run E ns st).
Proof.
  intros Hns HP.
  apply (keeps_run E (stems_from src) (stems_from src) src).
  - intros A m. apply stems_quiet.
  - intros b st0 HP0. exact HP0.
  - intros b st0 HP0. exact HP0.
  - intros st0 [H1 H2]. split; [exact H1|discriminate].
  - intros it st0 Hit _ [H1 H2]. split; [exact H1|].
    intros l Hl. simpl in Hl. now injection Hl as <-.
  - intros st0 l [H1 H2]. apply H2.
  - apply stems_close.
  - apply stems_reset.
  - apply stems_rotate.
  - apply stems_write.
  - intros ev st0. apply stems_plain.
  - exact Hns.
  - exact HP.
Qed.

End Origin.

End OriginProofs.
(* ===================================================================== *)
(** ** Sessions of the segment dumper *)

Module SessionTheorems.

Import SegmentDumper Invariants Pairing DumperLogic DumperSteps DumperTheorems.
Import SessionProofs PairingProofs OriginProofs.

(** Evaluation of the handlers on a state given field by field, as far
    as the answers of the environment allow. *)
Ltac eval_handlers :=
  cbv [ _path _file _filesize disposed last_init_item is_stopped w
        files procs journal clock f_path f_data f_closed
        kind custom_parser_values payload offset
        set_path set_file set_filesize set_disposed set_last_init_item
        set_is_stopped on_world emit_w tick_w emit
        bind ret raise lift gets modify try_except_Exception
        write_forward write_items write_failed _write_data _update_filesize
        _open_file _close_file _reset call_path_provider rotate
        sys_open sys_tell sys_write sys_close observer_on_next
        observer_on_error dispose_subscription dispose is_Exception
        item_len evolve_offset file_of
        deliver handler on_next negb andb fst snd ];
  cbn [truthy nth update_nth app List.length].

Lemma filter_all_closed (fs : list file_obj) :
  all_closed fs -> filter f_closed fs = fs.
Proof.
  induction 1 as [|f fs Hf _ IH]; simpl; [reflexivity|]. now rewrite Hf, IH.
Qed.


(** With the invariants, the files before the one at hand are closed. *)
Lemma closed_before (fs0 : list file_obj) (f : file_obj) :
  (forall fd' f', nth_error (fs0 ++ [f]) fd' = Some f' -> f_closed f' = false ->
                  fd' = List.length fs0) ->
  all_closed fs0.
Proof.
  intros Huniq. apply Forall_forall. intros x Hin.
  destruct (In_nth_error _ _ Hin) as [n Hn].
  assert (Hlt : (n < List.length fs0)%nat) by (apply nth_error_Some; congruence).
  destruct (f_closed x) eqn:Hc; [reflexivity|].
  assert (n = List.length fs0); [|lia].
  apply (Huniq n x); [|exact Hc]. now rewrite nth_error_app1.
Qed.

(** The paths announced as opened are those announced as closed,
    followed by the path of the file at hand. *)
Lemma opened_paths (st : state) :
  Inv st -> paired st ->
  map fst (file_opened_events (journal (w st))) =
  file_closed_events (journal (w st)) ++
  match _file st with Some _ => [_path st] | None => [] end.
Proof.
  intros [_ Ha] ([H1 H2] & H3). unfold accounted in Ha.
  destruct (_file st) as [fd|] eqn:Hf.
  - destruct Ha as (f & Hn & _ & _ & Huniq).
    pose proof (file_of_nth_error _ _ _ Hn) as Hfo.
    destruct (H3 fd eq_refl) as (Hc & Hlen & Hp). rewrite Hfo in Hc.
    destruct (last_split (files (w st)) fd (mk_file EmptyString [] true) Hlen)
      as [Hs Hl0].
    fold (file_of fd (w st)) in Hs. rewrite Hfo in Hs, Hp.
    rewrite H1, H2, Hp. clear H1 H2 H3 Hn Hfo.
    set (fs0 := firstn fd (files (w st))) in *. clearbody fs0. subst fd.
    rewrite Hs in *. rewrite filter_app, !map_app. simpl. rewrite Hc. simpl.
    now rewrite app_nil_r, (filter_all_closed fs0 (closed_before fs0 f Huniq)).
  - destruct Ha as (_ & _ & Hall).
    now rewrite H1, H2, (filter_all_closed _ Hall), app_nil_r.
Qed.

Lemma paired_init : paired init_state.
Proof. now apply paired_subscribed. Qed.

Section Session.

Variable E : env.

(** X9.  Throughout a session in which no [close()] fails, whatever
    else the environment does: every file object that [open] returned
    was announced by exactly one [fileOpened] notification carrying its
    path, in the order of creation; every closed one by exactly one
    [fileClosed]; the file at hand is open; and the opened paths are
    the closed paths followed by the path of the file at hand, if there
    is one.  So at most one announced file is not yet announced as
    closed, and it is the last one. *)
Theorem X9_files_announced_in_order (ns : list notification) :
  close_ok E ->
  let st := run E ns init_state in
  let j := journal (w st) in
  map fst (file_opened_events j) = map f_path (files (w st)) /\
  file_closed_events j = map f_path (filter f_closed (files (w st))) /\
  (forall fd, _file st = Some fd -> f_closed (file_of fd (w st)) = false) /\
  map fst (file_opened_events j) =
    file_closed_events j ++
    match _file st with Some _ => [_path st] | None => [] end.
Proof.
  intros Hclose st j.
  assert (HP : paired st) by (apply paired_run; [exact Hclose|apply paired_init]).
  assert (HI : Inv st) by apply run_Inv, Inv_init.
  split; [apply HP|split; [apply HP|split; [|now apply opened_paths]]].
  intros fd Hfd. now apply HP.
Qed.

(** X10.  When no [close()] fails, a terminal notification
    ([on_completed], [on_error]) or the disposal of the subscription
    ends the session, whatever came before: the attributes are as after
    [__init__], the closure is disposed of, every file is closed and
    every [fileOpened] has its [fileClosed]; a later [subscribe] starts
    from the state of a new dumper, and no notification delivered to
    the old subscription changes anything. *)
Theorem X10_terminal_notification_ends_session
    (ns : list notification) (n : notification) :
  close_ok E ->
  (forall it, n <> Next it) ->
  let st := run E (ns ++ [n]) init_state in
  _path st = EmptyString /\ _file st = None /\ _filesize st = 0 /\
  disposed st = true /\ last_init_item st = None /\
  all_closed (files (w st)) /\
  file_closed_events (journal (w st)) =
    map fst (file_opened_events (journal (w st))) /\
  subscribe st = subscribed (w st) /\
  forall more, run E more st = st.
Proof.
  intros Hclose Hn st.
  pose proof (Lifecycle.terminal_finishes E Hclose ns n Hn) as Hfin. fold st in Hfin.
  pose proof Hfin as (Hp & Hf & Hsz & Hd & Hl & Hall).
  assert (HP : paired st) by (apply paired_run; [exact Hclose|apply paired_init]).
  assert (HI : Inv st) by apply run_Inv, Inv_init.
  repeat (split; [assumption|]).
  split; [|split].
  - rewrite (opened_paths st HI HP), Hf. now rewrite app_nil_r.
  - now apply Lifecycle.subscribe_after_finished.
  - intros more. now apply run_disposed.
Qed.

(** X11.  Whatever reaches the downstream observer is one of the items
    that were delivered, with only the offset replaced. *)
Theorem X11_forwarded_items_are_inputs (ns : list notification) :
  Forall (fun f => exists it, In (Next it) ns /\ kind f = kind it /\
                     custom_parser_values f = custom_parser_values it /\
                     payload f = payload it)
         (forwarded_items (journal (w (run E ns init_state)))).
Proof.
  apply Forall_forall. intros f Hin.
  destruct (stems_run E (delivered ns) ns init_state) as [H _].
  - intros it Hit. exact Hit.
  - split; [intros f0 []|discriminate].
  - destruct (H f Hin) as (it & Hit & Hsame). exists it. split; [exact Hit|exact Hsame].
Qed.

(** X12.  A segment that arrives while no file is open and that does not
    force a split fails the assertion of [_write_data]: nothing is
    opened or written, the error is logged, the observer receives
    [AssertionError] and the subscription is disposed of. *)
Theorem X12_segment_without_file (st : state) (it : item) :
  live st -> _file st = None ->
  kind it = SegmentData -> truthy (_need_split_file it) = false ->
  let st' := deliver E st (Next it) in
  journal (w st') =
    journal (w st) ++ [EvLog ErrorLevel "Failed to write data"; EvError AssertionError] /\
  files (w st') = files (w st) /\
  _file st' = None /\ _filesize st' = 0 /\ last_init_item st' = None /\
  disposed st' = true /\ is_stopped st' = true.
Proof.
  intros [Hd Hs] Hf Hk Hsplit st'. subst st'.
  destruct st as [p f n d l s [fs ps j c]]. simpl in Hd, Hs, Hf. subst d s f.
  destruct it as [k cpv pl off]. simpl in Hk. subst k.
  repeat (progress (eval_handlers; rewrite ?Hsplit)).
  rewrite <- app_assoc. repeat split.
Qed.

(** X13.  A segment that forces a split while no InitSection is
    retained produces an empty file: with a working file system the
    file is opened and announced, the assertion of line 161 fails
    before anything is written, the file is closed and announced as
    closed, and the observer receives [AssertionError]. *)
Theorem X13_forced_split_without_init (st : state) (it : item) :
  live st -> _file st = None -> last_init_item st = None ->
  kind it = SegmentData -> truthy (_need_split_file it) = true ->
  reliable_io E ->
  let st' := deliver E st (Next it) in
  exists q t,
    files (w st') = files (w st) ++ [mk_file q [] true] /\
    journal (w st') =
      journal (w st) ++
      [ EvOpen (List.length (files (w st))) q; EvLog Debug "Opened file";
        EvFileOpened q t; EvLog ErrorLevel "Failed to write data";
        EvClose (List.length (files (w st))); EvLog Debug "Closed file";
        EvFileClosed q; EvError AssertionError ] /\
    _file st' = None /\ disposed st' = true /\ is_stopped st' = true.
Proof.
  intros [Hd Hs] Hf Hl Hk Hsplit (Hpp & Hsuf & Hopen & Hwrite) st'. subst st'.
  destruct st as [p f n d l s [fs ps j c]]. simpl in Hd, Hs, Hf, Hl. subst d s f l.
  destruct it as [k cpv pl off]. simpl in Hk. subst k.
  destruct (Hpp c) as (p1 & t1 & Hp1). destruct (Hsuf p1) as (q1 & Hq1).
  exists q1, t1.
  repeat (progress (eval_handlers;
                    rewrite ?Hsplit, ?Hp1, ?Hq1, ?Hopen,
                            ?ProbeProofs.nth_length_snoc,
                            ?ProbeProofs.update_nth_snoc)).
  rewrite <- !app_assoc. repeat split.
Qed.



End Session.

End SessionTheorems.
(* ===================================================================== *)
(** ** Every file begins with an InitSection *)

Module HeaderProofs.

Import SegmentDumper Invariants Pairing DumperLogic DumperSteps DumperTheorems.
Import SessionProofs PairingProofs OriginProofs.

Lemma Forall_update_nth {A} (P : A -> Prop) (n : nat) (g : A) (l : list A) :
  Forall P l -> P g -> Forall P (update_nth n (fun _ => g) l).
Proof.
  intros Hl Hg. revert n. induction Hl as [|x l Hx Hl IH]; intros n.
  - destruct n; constructor.
  - destruct n as [|n]; simpl; constructor; auto.
Qed.

Lemma nth_update_nth_same {A} (n : nat) (g d : A) (l : list A) :
  (n < List.length l)%nat -> nth n (update_nth n (fun _ => g) l) d = g.
Proof.
  revert n. induction l as [|x l IH]; intros n Hn; simpl in Hn; [lia|].
  destruct n as [|n]; simpl; [reflexivity|]. apply IH. lia.
Qed.

Section Headers.

Variable E : env.
Variable src : item -> Prop.

Hypothesis write_raises_Exception :
  forall n d e, file_write E n d = Some e -> is_Exception e = true.

Lemma headed_file_of (st : state) (fd : nat) :
  Forall (headed src) (files (w st)) -> headed src (file_of fd (w st)).
Proof.
  intros H. unfold file_of.
  destruct (nth_in_or_default fd (files (w st)) (mk_file EmptyString [] true))
    as [Hin|Hdef].
  - rewrite Forall_forall in H. now apply H.
  - rewrite Hdef. now left.
Qed.

Lemma open_in_range (st : state) (fd : nat) :
  f_closed (file_of fd (w st)) = false -> (fd < List.length (files (w st)))%nat.
Proof.
  intros Hc. destruct (Nat.lt_ge_cases fd (List.length (files (w st)))) as [|Hge];
    [assumption|].
  unfold file_of in Hc. rewrite nth_overflow in Hc by assumption. discriminate.
Qed.

Lemma files_headed_ext (st st' : state) :
  files_headed src st ->
  files (w st') = files (w st) -> last_init_item st' = last_init_item st ->
  files_headed src st'.
Proof. intros [H1 H2] Hf Hl. split; [now rewrite Hf|now rewrite Hl]. Qed.

Lemma init_headed_ext (st st' : state) :
  init_headed src st ->
  files (w st') = files (w st) -> last_init_item st' = last_init_item st ->
  _file st' = _file st ->
  init_headed src st'.
Proof.
  intros [H1 H2] Hf Hl Hfile. split; [now apply (files_headed_ext st)|].
  unfold file_of. rewrite Hf, Hfile. exact H2.
Qed.

Lemma no_file_headed (st : state) :
  files_headed src st /\ _file st = None -> init_headed src st.
Proof. intros [H Hn]. split; [exact H|]. intros fd Hfd. congruence. Qed.

Lemma hd_quiet {A} (m : M state A) : quietly m -> preserves (init_headed src) m.
Proof.
  intros Hq st HP. specialize (Hq st).
  assert (H : init_headed src (snd (m st))).
  { destruct Hq as (_ & Hf & _ & _ & Hl & _ & Hfs & _).
    now apply (init_headed_ext st). }
  destruct (m st) as [[a|e] st']; exact H.
Qed.

(** Lines 59-63.  When [close()] raises, the file at hand has data, so
    it begins with its InitSection. *)
Lemma hd_close :
  hoare (files_headed src) (_close_file E)
        (fun _ => files_headed src) (fun _ => init_headed src).
Proof.
  intros st [H1 H2]. unfold _close_file, bind, gets.
  destruct (_file st) as [fd|] eqn:Hfile; [|now split].
  destruct (f_closed (file_of fd (w st))) eqn:Hc; simpl; [now split|].
  pose proof (headed_file_of st fd H1) as Hhd.
  pose proof (open_in_range st fd Hc) as Hlt.
  destruct (sys_close_cases E fd st) as [Hs|(e & Hs & Hdata & _)]; rewrite Hs.
  - unfold emit, modify. simpl. split; [|exact H2]. simpl.
    now apply Forall_update_nth.
  - split; [split|]; simpl; [now apply Forall_update_nth|exact H2|].
    intros fd' Hfd'. rewrite Hfile in Hfd'. injection Hfd' as <-.
    unfold file_of. simpl. rewrite nth_update_nth_same by assumption. simpl.
    destruct Hhd as [Hnil|Hhd]; [contradiction|exact Hhd].
Qed.

Lemma hd_reset :
  hoare (files_headed src) (_reset)
        (fun _ st => files_headed src st /\ _file st = None) (fun _ _ => False).
Proof. intros st H. split; [exact H|reflexivity]. Qed.

Lemma hd_close_none :
  hoare (fun st => files_headed src st /\ _file st = None) (_close_file E)
        (fun _ st => files_headed src st /\ _file st = None) (fun _ _ => False).
Proof.
  intros st [H Hn]. unfold _close_file, bind, gets. rewrite Hn. simpl. now split.
Qed.

Lemma hd_open :
  hoare (fun st => files_headed src st /\ _file st = None) (_open_file E)
        (fun _ st => files_headed src st /\ fresh_file st)
        (fun _ st => files_headed src st /\ _file st = None).
Proof.
  intros st [[H1 H2] Hnone]. unfold _open_file, bind, call_path_provider.
  destruct (path_provider E (clock (w st))) as [[path ts]|e]; simpl;
    [|now split].
  unfold lift. destruct (with_suffix_m4s E path) as [p|e]; simpl; [|now split].
  unfold sys_open. simpl.
  destruct (open_wb E (S (clock (w st))) p) as [e|]; simpl; [now split|].
  split; [split|].
  - simpl. apply Forall_app. split; [exact H1|]. constructor; [now left|constructor].
  - exact H2.
  - intros fd Hfd _. simpl in Hfd. injection Hfd as <-. unfold file_of. simpl.
    now rewrite ProbeProofs.nth_length_snoc.
Qed.

Lemma hd_rotate :
  hoare (files_headed src) (rotate E)
        (fun _ st => files_headed src st /\ fresh_file st)
        (fun _ => init_headed src).
Proof.
  unfold rotate.
  eapply hoare_bind; [apply hd_close|]. intros u.
  eapply hoare_bind; [apply hoare_never_raises, hd_reset|]. intros u'.
  eapply hoare_weaken; [apply hd_open|auto|auto|].
  intros e st. apply no_file_headed.
Qed.

(** The first write to a new file, with an InitSection. *)
Lemma hd_write_fresh (x : item) :
  init_of src x ->
  hoare (fun st => files_headed src st /\ fresh_file st) (write_forward E x)
        (fun _ => init_headed src)
        (fun e st => files_headed src st /\ is_Exception e = true).
Proof.
  intros Hx st [[H1 H2] Hfresh]. unfold write_forward, _write_data, bind, gets.
  destruct (_file st) as [fd|] eqn:Hfile;
    [|unfold raise; simpl; split; [now split|reflexivity]].
  unfold sys_tell. destruct (f_closed (file_of fd (w st))) eqn:Hc;
    [simpl; split; [now split|reflexivity]|].
  unfold sys_write. rewrite Hc.
  destruct (file_write E (clock (w st)) (payload x)) as [e|] eqn:Hw; simpl.
  { split; [now split|]. now apply (write_raises_Exception _ _ _ Hw). }
  unfold item_len. rewrite Z.eqb_refl. unfold ret, _update_filesize, modify. simpl.
  unfold observer_on_next, bind, gets. simpl.
  rewrite (Hfresh fd Hfile Hc). simpl.
  assert (Hhd : headed src (mk_file (f_path (file_of fd (w st))) (payload x) false)).
  { right. exists x. split; [exact Hx|]. exists []. simpl. now rewrite app_nil_r. }
  pose proof (open_in_range st fd Hc) as Hlt.
  destruct (is_stopped st); unfold emit, modify, ret; simpl.
  - split; [split|]; simpl; [now apply Forall_update_nth|exact H2|].
    intros fd' Hfd'. rewrite Hfile in Hfd'. injection Hfd' as <-.
    unfold file_of. simpl. rewrite nth_update_nth_same by assumption. simpl.
    exists x. split; [exact Hx|]. exists []. now rewrite app_nil_r.
  - split; [split|]; simpl; [now apply Forall_update_nth|exact H2|].
    intros fd' Hfd'. rewrite Hfile in Hfd'. injection Hfd' as <-.
    unfold file_of. simpl. rewrite nth_update_nth_same by assumption. simpl.
    exists x. split; [exact Hx|]. exists []. now rewrite app_nil_r.
Qed.

(** A write to a file that has its InitSection. *)
Lemma hd_write (x : item) :
  hoare (init_headed src) (write_forward E x)
        (fun _ => init_headed src)
        (fun e st => files_headed src st /\ is_Exception e = true).
Proof.
  intros st [[H1 H2] H3]. unfold write_forward, _write_data, bind, gets.
  destruct (_file st) as [fd|] eqn:Hfile;
    [|unfold raise; simpl; split; [now split|reflexivity]].
  unfold sys_tell. destruct (f_closed (file_of fd (w st))) eqn:Hc;
    [simpl; split; [now split|reflexivity]|].
  unfold sys_write. rewrite Hc.
  destruct (file_write E (clock (w st)) (payload x)) as [e|] eqn:Hw; simpl.
  { split; [now split|]. now apply (write_raises_Exception _ _ _ Hw). }
  unfold item_len. rewrite Z.eqb_refl. unfold ret, _update_filesize, modify. simpl.
  unfold observer_on_next, bind, gets. simpl.
  destruct (H3 fd eq_refl) as (i & Hi & rest & Hrest).
  assert (Hst : starts_with (payload i) (f_data (file_of fd (w st)) ++ payload x)).
  { exists (rest ++ payload x). now rewrite Hrest, app_assoc. }
  assert (Hhd : headed src (mk_file (f_path (file_of fd (w st)))
                                    (f_data (file_of fd (w st)) ++ payload x) false)).
  { right. exists i. now split. }
  pose proof (open_in_range st fd Hc) as Hlt.
  destruct (is_stopped st); unfold emit, modify, ret; simpl.
  - split; [split|]; simpl; [now apply Forall_update_nth|exact H2|].
    intros fd' Hfd'. rewrite Hfile in Hfd'. injection Hfd' as <-.
    unfold file_of. simpl. rewrite nth_update_nth_same by assumption. simpl.
    exists i. now split.
  - split; [split|]; simpl; [now apply Forall_update_nth|exact H2|].
    intros fd' Hfd'. rewrite Hfile in Hfd'. injection Hfd' as <-.
    unfold file_of. simpl. rewrite nth_update_nth_same by assumption. simpl.
    exists i. now split.
Qed.

Lemma hd_loosen (st : state) : init_headed src st -> files_headed src st.
Proof. now intros [H _]. Qed.

Lemma hd_emit (ev : event) (st : state) :
  files_headed src st -> files_headed src (on_world (emit_w ev) st).
Proof. intros H. now apply (files_headed_ext st). Qed.

Lemma hd_emit' (ev : event) (st : state) :
  init_headed src st -> init_headed src (on_world (emit_w ev) st).
Proof. intros H. now apply (init_headed_ext st). Qed.

(** Lines 185-191. *)
Lemma hd_dispose :
  hoare (files_headed src) (dispose E)
        (fun _ => init_headed src) (fun _ => init_headed src).
Proof.
  unfold dispose.
  apply (hoare_bind _ _ _ (fun _ => files_headed src)).
  { apply hoare_modify. intros st H. exact H. }
  intros u1. apply (hoare_bind _ _ _ (fun _ => files_headed src)).
  { apply hoare_modify. intros st [H1 H2]. split; [exact H1|discriminate]. }
  intros u2. apply (hoare_bind _ _ _ (fun _ => files_headed src)); [apply hd_close|].
  intros u3.
  eapply hoare_weaken; [apply hd_reset|auto| |].
  - intros a st. apply no_file_headed.
  - intros e st [].
Qed.

Lemma hd_dispose_subscription : preserves (init_headed src) (dispose_subscription E).
Proof.
  unfold dispose_subscription. apply preserves_bind; [apply preserves_gets|].
  intros [|]; [apply preserves_ret|].
  eapply hoare_weaken; [apply hd_dispose|apply hd_loosen|auto|auto].
Qed.

Lemma hd_observer_on_error (e : exn) : preserves (init_headed src) (observer_on_error E e).
Proof.
  unfold observer_on_error. apply preserves_bind; [apply preserves_gets|].
  intros [|]; [apply preserves_ret|].
  apply preserves_bind; [apply hoare_modify; intros st H; exact H|]. intros u.
  apply preserves_bind; [apply hoare_modify; intros st; apply hd_emit'|]. intros u'.
  apply hd_dispose_subscription.
Qed.

Lemma hd_observer_on_completed : preserves (init_headed src) (observer_on_completed E).
Proof.
  unfold observer_on_completed. apply preserves_bind; [apply preserves_gets|].
  intros [|]; [apply preserves_ret|].
  apply preserves_bind; [apply hoare_modify; intros st H; exact H|]. intros u.
  apply preserves_bind; [apply hoare_modify; intros st; apply hd_emit'|]. intros u'.
  apply hd_dispose_subscription.
Qed.

(** [_close_file], [_reset] and then something that keeps the
    invariant. *)
Lemma hd_close_reset_then {A} (k : M state A) :
  preserves (init_headed src) k ->
  hoare (files_headed src)
        (bind (_close_file E) (fun _ => bind (_reset) (fun _ => k)))
        (fun _ => init_headed src) (fun _ => init_headed src).
Proof.
  intros Hk.
  eapply hoare_bind; [apply hd_close|]. intros u.
  eapply hoare_bind; [apply hoare_never_raises, hd_reset|]. intros u'.
  eapply hoare_weaken; [apply Hk|apply no_file_headed|auto|auto].
Qed.

(** Lines 169-173. *)
Lemma hd_write_failed (e : exn) :
  hoare (files_headed src) (write_failed E e)
        (fun _ => init_headed src) (fun _ => init_headed src).
Proof.
  unfold write_failed.
  apply (hoare_bind _ _ _ (fun _ => files_headed src));
    [apply hoare_modify; intros st; apply hd_emit|].
  intros u. apply hd_close_reset_then, hd_observer_on_error.
Qed.

(** Lines 159-168 when no split was decided. *)
Lemma hd_write_items_same (it : item) :
  hoare (init_headed src) (write_items E false it)
        (fun _ => init_headed src)
        (fun e st => files_headed src st /\ is_Exception e = true).
Proof.
  unfold write_items. cbn [andb].
  apply (hoare_bind _ _ _ (fun _ => init_headed src));
    [apply hoare_ret; intros st H; exact H|].
  intros u. apply (hd_write it).
Qed.

(** Lines 159-168 right after a new file was opened. *)
Lemma hd_write_items_split (it : item) :
  src it ->
  hoare (fun st => files_headed src st /\ fresh_file st) (write_items E true it)
        (fun _ => init_headed src)
        (fun e st => files_headed src st /\ is_Exception e = true).
Proof.
  intros Hit. unfold write_items. cbn [andb].
  destruct (kind it) eqn:Hk.
  - apply (hoare_bind _ _ _ (fun _ st => files_headed src st /\ fresh_file st));
      [apply hoare_ret; intros st H; exact H|].
    intros u. apply (hd_write_fresh it). now split.
  - apply (hoare_bind _ _ _ (fun _ => init_headed src));
      [|intros u; apply (hd_write it)].
    intros st [Hfh Hfresh]. unfold bind at 1. unfold gets.
    destruct (last_init_item st) as [l|] eqn:Hl.
    + apply (hd_write_fresh l (proj2 Hfh l Hl) st). now split.
    + unfold raise. split; [exact Hfh|reflexivity].
Qed.

(** Lines 141-173. *)
Lemma hd_on_next (it : item) : src it -> preserves (init_headed src) (on_next E it).
Proof.
  intros Hit. unfold on_next. apply preserves_bind.
  - destruct (kind it) eqn:Hk; [|apply preserves_ret].
    apply preserves_bind; [apply preserves_gets|]. intros last.
    destruct (_is_redundant last it); [apply preserves_ret|].
    apply preserves_bind; [apply hd_quiet, quietly_must_split_file|].
    intros b. apply preserves_bind; [|intros u; apply preserves_ret].
    apply hoare_modify. intros st [[H1 H2] H3]. split; [split|exact H3].
    + exact H1.
    + intros l Hl. simpl in Hl. injection Hl as <-. now split.
  - intros [split_file|]; [|apply preserves_ret].
    destruct (truthy (if negb (truthy split_file) then _need_split_file it
                      else split_file)).
    + apply (hoare_bind _ _ _ (fun _ st => files_headed src st /\ fresh_file st)).
      * eapply hoare_weaken; [apply hd_rotate|apply hd_loosen| |auto].
        intros a st H. exact H.
      * intros u. simpl. eapply hoare_try.
        -- now apply hd_write_items_split.
        -- intros e He. eapply hoare_weaken; [apply hd_write_failed| |auto|auto].
           now intros st [H _].
        -- intros e st He [_ He']. congruence.
    + apply (hoare_bind _ _ _ (fun _ => init_headed src));
        [apply hoare_ret; intros st H; exact H|].
      intros u. simpl. eapply hoare_try.
      * apply hd_write_items_same.
      * intros e He. eapply hoare_weaken; [apply hd_write_failed| |auto|auto].
        now intros st [H _].
      * intros e st He [_ He']. congruence.
Qed.

Lemma hd_handler (n : notification) :
  (forall it, n = Next it -> src it) -> preserves (init_headed src) (handler E n).
Proof.
  intros Hn. destruct n as [it|e| |]; simpl.
  - now apply hd_on_next, Hn.
  - unfold on_error.
    eapply hoare_weaken;
      [apply hd_close_reset_then, hd_observer_on_error|apply hd_loosen|auto|auto].
  - unfold on_completed.
    eapply hoare_weaken;
      [apply hd_close_reset_then, hd_observer_on_completed|apply hd_loosen|auto|auto].
  - unfold cancel.
    apply preserves_bind; [apply hoare_modify; intros st H; exact H|].
    intros u. apply hd_dispose_subscription.
Qed.

Lemma hd_deliver (st : state) (n : notification) :
  (forall it, n = Next it -> src it) ->
  init_headed src st -> init_headed src (deliver E st n).
Proof.
  intros Hn HP. unfold deliver. destruct (disposed st); [exact HP|].
  pose proof (hd_handler n Hn st HP) as H.
  destruct (handler E n st) as [[u|e] st']; [exact H|].
  now apply hd_emit'.
Qed.

Lemma hd_run (ns : list notification) (st : state) :
  (forall it, In (Next it) ns -> src it) ->
  init_headed src st -> init_headed src (run E ns st).
Proof.
  revert st. induction ns as [|n ns IH]; intros st Hns HP; simpl; [exact HP|].
  apply IH.
  - intros it Hin. apply Hns. now right.
  - apply hd_deliver; [|exact HP]. intros it ->. apply Hns. now left.
Qed.

End Headers.

End HeaderProofs.
(* ===================================================================== *)
(** ** The content of the files *)

Module HeaderTheorems.

Import SegmentDumper Invariants Pairing DumperLogic DumperSteps DumperTheorems.
Import HeaderProofs.

Lemma init_headed_init (src : item -> Prop) : init_headed src init_state.
Proof.
  split; [split|]; simpl; [constructor|discriminate|discriminate].
Qed.

(** X15.  When a failing [write] raises an [Exception] (as [OSError]
    is), every file of a session is empty or begins with the payload of
    an InitSection that was delivered, and the file at hand always
    begins with one: no segment is ever written to a file before an
    InitSection. *)
Theorem X15_files_begin_with_init_section (E : env) (ns : list notification) :
  (forall n d e, file_write E n d = Some e -> is_Exception e = true) ->
  let st := run E ns init_state in
  Forall (fun f => f_data f = [] \/
                   exists it rest, In (Next it) ns /\ kind it = InitSectionData /\
                                   f_data f = payload it ++ rest)
         (files (w st)) /\
  (forall fd, _file st = Some fd ->
     exists it rest, In (Next it) ns /\ kind it = InitSectionData /\
                     f_data (file_of fd (w st)) = payload it ++ rest).
Proof.
  intros Hw st.
  destruct (hd_run E (delivered ns) Hw ns init_state) as [[H1 _] H2].
  { intros it Hit. exact Hit. }
  { apply init_headed_init. }
  fold st in H1, H2. split.
  - eapply Forall_impl; [|exact H1]. intros f [Hf|(it & [Hit Hk] & rest & Hrest)].
    + now left.
    + right. now exists it, rest.
  - intros fd Hfd.
    destruct (H2 fd Hfd) as (it & [Hit Hk] & rest & Hrest).
    now exists it, rest.
Qed.

End HeaderTheorems.

(* ===================================================================== *)
(** ** The session theorems on examples *)

Module SessionExamples.

Import SegmentDumper Invariants Pairing.

Lemma X9_files_announced_in_order_witness :
  let st := run Examples.calm
                [Next Examples.initA; Next Examples.seg1; Next Examples.seg2]
                init_state in
  map fst (file_opened_events (journal (w st))) =
    ["rec.m4s"%string; "rec.m4s"%string] /\
  file_closed_events (journal (w st)) = ["rec.m4s"%string] /\
  f_closed (file_of 1 (w st)) = false.
Proof.
  pose proof (SessionTheorems.X9_files_announced_in_order Examples.calm
                [Next Examples.initA; Next Examples.seg1; Next Examples.seg2]
                Findings.calm_closes) as H.
  cbv zeta in H. cbv zeta.
  destruct H as (Ho & Hc & Hopen & _).
  rewrite Ho, Hc. split; [vm_compute; reflexivity|].
  split; [vm_compute; reflexivity|].
  apply Hopen. vm_compute. reflexivity.
Defined.

Lemma X10_terminal_notification_ends_session_witness :
  let st := run Examples.calm
                ([Next Examples.initA; Next Examples.seg1] ++ [Completed])
                init_state in
  _file st = None /\ all_closed (files (w st)) /\
  file_closed_events (journal (w st)) = ["rec.m4s"%string] /\
  run Examples.calm [Next Examples.seg3] st = st.
Proof.
  assert (Hn : forall it, Completed <> Next it) by discriminate.
  pose proof (SessionTheorems.X10_terminal_notification_ends_session Examples.calm
                [Next Examples.initA; Next Examples.seg1] Completed
                Findings.calm_closes Hn) as H.
  cbv zeta in H. cbv zeta.
  destruct H as (_ & Hf & _ & _ & _ & Hall & Hcl & _ & Hrun).
  split; [exact Hf|]. split; [exact Hall|].
  split; [rewrite Hcl; vm_compute; reflexivity|apply Hrun].
Defined.

Lemma X12_segment_without_file_witness :
  let st' := deliver Examples.calm init_state (Next Examples.seg1) in
  journal (w st') =
    [EvLog ErrorLevel "Failed to write data"; EvError AssertionError] /\
  files (w st') = [] /\ disposed st' = true.
Proof.
  assert (Hl : live init_state) by (split; reflexivity).
  pose proof (SessionTheorems.X12_segment_without_file Examples.calm init_state
                Examples.seg1 Hl eq_refl eq_refl eq_refl) as H.
  cbv zeta in H. cbv zeta.
  destruct H as (Hj & Hfs & _ & _ & _ & Hd & _).
  split; [exact Hj|]. split; [exact Hfs|exact Hd].
Defined.

Lemma X13_forced_split_without_init_witness :
  let st' := deliver Examples.calm init_state (Next Examples.seg2) in
  exists q t,
    files (w st') = [mk_file q [] true] /\
    file_opened_events (journal (w st')) = [(q, t)] /\
    file_closed_events (journal (w st')) = [q] /\
    last (journal (w st')) EvCompleted = EvError AssertionError.
Proof.
  assert (Hl : live init_state) by (split; reflexivity).
  pose proof (SessionTheorems.X13_forced_split_without_init Examples.calm init_state
                Examples.seg2 Hl eq_refl eq_refl eq_refl eq_refl
                Findings.calm_reliable) as H.
  cbv zeta in H. cbv zeta.
  destruct H as (q & t & Hfs & Hj & _).
  exists q, t. rewrite Hfs, Hj. repeat split.
Defined.


Lemma X15_files_begin_with_init_section_witness :
  let ns := [Next Examples.initA; Next Examples.seg1; Next Examples.seg3] in
  Forall (fun f => f_data f = [] \/
                   exists it rest, In (Next it) ns /\ kind it = InitSectionData /\
                                   f_data f = payload it ++ rest)
         (files (w (run Examples.disk_full ns init_state))).
Proof.
  assert (Hw : forall n d e, file_write Examples.disk_full n d = Some e ->
                             is_Exception e = true).
  { intros n d e. unfold Examples.disk_full. cbn [file_write].
    destruct (5 <=? n)%nat; [|discriminate]. intros H. now inversion H. }
  exact (proj1 (HeaderTheorems.X15_files_begin_with_init_section Examples.disk_full
                  [Next Examples.initA; Next Examples.seg1; Next Examples.seg3] Hw)).
Defined.

End SessionExamples.
(* ===================================================================== *)
(** ** The comparisons of [_must_split_file] after normalisation *)

Module ComparisonProofs.

Import Ffprobe Streams SegmentDumper Invariants Comparison.
Import FfprobeProofs StreamProofs ProfileProofs.

Lemma first_of_kind_head (k : string) (s : json) (rest : list json) :
  is_kind k s = true -> first_of_kind k (s :: rest) = Ok s.
Proof.
  unfold is_kind. simpl. destruct (py_get s "codec_type" JNull) as [t|e];
    [|discriminate].
  simpl. now intros ->.
Qed.

Lemma first_of_kind_skip (k : string) (s : json) (rest : list json) :
  is_dict s = true -> is_kind k s = false ->
  first_of_kind k (s :: rest) = first_of_kind k rest.
Proof.
  destruct s; try discriminate. unfold is_kind. simpl. now intros _ ->.
Qed.

Lemma is_kind_truthy (k : string) (s : json) : is_kind k s = true -> truthy s = true.
Proof.
  destruct s as [| | | | |d]; try discriminate. now destruct d.
Qed.

(** After normalisation both lookups of lines 98-101 find a
    descriptor. *)
Lemma find_stream_normalized (profile p : json) :
  normalize_streams profile = Ok p ->
  exists v a,
    find_stream "video" p = Ok v /\ find_stream "audio" p = Ok a /\
    is_kind "video" v = true /\ is_kind "audio" a = true.
Proof.
  intros Hn.
  destruct (normalized_heads _ _ Hn) as (v & a & vt & at_ & Hs & Hv & Ha & _).
  destruct (normalize_streams_shape _ _ Hn) as (d & raw & enc & vs & _ & _ & _ & _ & Hp).
  subst p. rewrite streams_of_set in Hs.
  inversion Hv as [|? ? Hv0 _]. inversion Ha as [|? ? Ha0 _]. subst.
  exists v, a. unfold find_stream, py_getitem. rewrite dict_get_set_same.
  simpl. rewrite Hs, merge_streams_cons.
  split; [now apply first_of_kind_head|]. split; [|now split].
  rewrite first_of_kind_skip.
  - now apply first_of_kind_head.
  - now apply (is_kind_is_dict "video").
  - now apply kinds_disjoint.
Qed.

Lemma differs_keys (a b : json) (k : string) :
  is_dict a = true -> is_dict b = true -> key_error_only [k] (differs a b k).
Proof.
  destruct a as [| | | | |da]; try discriminate.
  destruct b as [| | | | |db]; try discriminate. intros _ _.
  unfold differs, py_getitem.
  destruct (dict_get k da) as [x|]; simpl.
  - destruct (dict_get k db) as [y|]; simpl.
    + left. now eexists.
    + right. exists k. split; [now left|reflexivity].
  - right. exists k. split; [now left|reflexivity].
Qed.

Lemma differs_get_returns (a b : json) (k : string) :
  is_dict a = true -> is_dict b = true -> key_error_only [] (differs_get a b k).
Proof.
  destruct a as [| | | | |da]; try discriminate.
  destruct b as [| | | | |db]; try discriminate. intros _ _.
  left. unfold differs_get. simpl. now eexists.
Qed.

Lemma or_else_keys (ks1 ks2 : list string) (c1 c2 : result bool) :
  key_error_only ks1 c1 -> key_error_only ks2 c2 ->
  key_error_only (ks1 ++ ks2) (or_else c1 c2).
Proof.
  intros [[b1 ->]|(k & Hk & ->)] H2; unfold or_else; simpl.
  - destruct b1; [left; now eexists|].
    destruct H2 as [[b2 ->]|(k & Hk & ->)]; [left; now eexists|].
    right. exists k. split; [apply in_or_app; now right|reflexivity].
  - right. exists k. split; [apply in_or_app; now left|reflexivity].
Qed.

Section Effects.

Variable E : env.

(** Lines 105-114 on two descriptors: the comparison is made. *)
Lemma compare_audio_effect (a b : json) (st : state) :
  is_kind "audio" a = true -> is_kind "audio" b = true ->
  exists evs,
    w (snd (compare_audio a b st)) =
      mk_world (files (w st)) (procs (w st)) (journal (w st) ++ evs) (clock (w st)) /\
    (evs = [] \/ evs = [EvLog Warning "Audio parameters changed"]) /\
    key_error_only audio_keys (fst (compare_audio a b st)).
Proof.
  intros Ha Hb. unfold compare_audio.
  rewrite (is_kind_truthy _ _ Ha), (is_kind_truthy _ _ Hb). simpl andb. cbv iota.
  pose proof (is_kind_is_dict _ _ Ha) as Hda. pose proof (is_kind_is_dict _ _ Hb) as Hdb.
  pose proof (or_else_keys _ _ _ _ (differs_keys a b "codec_name" Hda Hdb)
               (or_else_keys _ _ _ _ (differs_keys a b "channels" Hda Hdb)
                 (or_else_keys _ _ _ _ (differs_keys a b "sample_rate" Hda Hdb)
                    (differs_get_returns a b "bit_rate" Hda Hdb)))) as H.
  simpl app in H. fold audio_keys in H.
  unfold bind, lift.
  destruct H as [[c Hc]|(k & Hk & Hc)]; rewrite Hc.
  - destruct c; simpl.
    + exists [EvLog Warning "Audio parameters changed"].
      split; [reflexivity|]. split; [now right|]. left. now eexists.
    + exists []. rewrite app_nil_r. split; [now destruct st as [? ? ? ? ? ? []]|].
      split; [now left|]. left. now eexists.
  - exists []. rewrite app_nil_r. simpl. split; [now destruct st as [? ? ? ? ? ? []]|].
    split; [now left|]. right. now exists k.
Qed.

(** Lines 116-123 on two descriptors. *)
Lemma compare_video_effect (a b : json) (st : state) :
  is_kind "video" a = true -> is_kind "video" b = true ->
  exists evs,
    w (snd (compare_video a b st)) =
      mk_world (files (w st)) (procs (w st)) (journal (w st) ++ evs) (clock (w st)) /\
    (evs = [] \/ evs = [EvLog Warning "Video parameters changed"]) /\
    key_error_only video_keys (fst (compare_video a b st)).
Proof.
  intros Ha Hb. unfold compare_video.
  pose proof (is_kind_is_dict _ _ Ha) as Hda. pose proof (is_kind_is_dict _ _ Hb) as Hdb.
  pose proof (or_else_keys _ _ _ _ (differs_keys a b "codec_name" Hda Hdb)
               (or_else_keys _ _ _ _ (differs_keys a b "width" Hda Hdb)
                 (or_else_keys _ _ _ _ (differs_keys a b "height" Hda Hdb)
                   (or_else_keys _ _ _ _ (differs_keys a b "coded_width" Hda Hdb)
                      (differs_keys a b "coded_height" Hda Hdb))))) as H.
  simpl app in H. fold video_keys in H.
  unfold bind, lift.
  destruct H as [[c Hc]|(k & Hk & Hc)]; rewrite Hc.
  - destruct c; simpl.
    + exists [EvLog Warning "Video parameters changed"].
      split; [reflexivity|]. split; [now right|]. left. now eexists.
    + exists []. rewrite app_nil_r. split; [now destruct st as [? ? ? ? ? ? []]|].
      split; [now left|]. left. now eexists.
  - exists []. rewrite app_nil_r. simpl. split; [now destruct st as [? ? ? ? ? ? []]|].
    split; [now left|]. right. now exists k.
Qed.

End Effects.

Section Split.

Variable E : env.

(** Lines 83-125 once both probes have returned. *)
Lemma must_split_file_compares (prev : option item) (curr : item) (st : state)
    (p1 p2 : json) (w1 w2 : world) (v1 a1 v2 a2 : json) :
  no_usable_prev prev = false ->
  ffprobe E (payload_of prev) (w st) = (Ok p1, w1) ->
  ffprobe E (payload curr)
          (emit_w (EvLog Debug "previous init section profile") w1) = (Ok p2, w2) ->
  find_stream "video" p1 = Ok v1 -> find_stream "video" p2 = Ok v2 ->
  find_stream "audio" p1 = Ok a1 -> find_stream "audio" p2 = Ok a2 ->
  _must_split_file E prev curr st =
  bind (compare_audio a1 a2) (fun _ => bind (compare_video v1 v2) (fun _ => ret true))
       (on_world (fun _ => emit_w (EvLog Debug "current init section profile") w2) st).
Proof.
  intros Hno Hp1 Hp2 Hv1 Hv2 Ha1 Ha2.
  destruct st as [p f n d l s wd]. cbn [w] in Hp1.
  unfold _must_split_file. rewrite Hno.
  repeat (progress (cbv [bind liftW emit modify lift gets ret w on_world
                         _path _file _filesize disposed last_init_item is_stopped];
                    rewrite ?Hp1, ?Hp2, ?Hv1, ?Hv2, ?Ha1, ?Ha2)).
  reflexivity.
Qed.

(** X16.  When a usable InitSection is retained and both probes return,
    the comparisons of [_must_split_file] always have descriptors to
    compare: the lookups find a video and an audio descriptor in each
    profile, placeholders included, so the branch that skips the audio
    comparison is never taken; and the call returns [True] or raises
    [KeyError] for one of the keys it reads with [[]], nothing else. *)
Theorem X16_comparisons_after_probes (prev : option item) (curr : item) (st : state)
    (p1 p2 : json) (w1 w2 : world) :
  no_usable_prev prev = false ->
  ffprobe E (payload_of prev) (w st) = (Ok p1, w1) ->
  ffprobe E (payload curr)
          (emit_w (EvLog Debug "previous init section profile") w1) = (Ok p2, w2) ->
  let r := _must_split_file E prev curr st in
  (exists v1 a1 v2 a2,
      find_stream "video" p1 = Ok v1 /\ find_stream "audio" p1 = Ok a1 /\
      find_stream "video" p2 = Ok v2 /\ find_stream "audio" p2 = Ok a2 /\
      is_kind "video" v1 = true /\ is_kind "audio" a1 = true /\
      is_kind "video" v2 = true /\ is_kind "audio" a2 = true) /\
  (exists evs,
      journal (w (snd r)) = journal (w st) ++ evs /\
      ~ In (EvLog Debug "skip audio comparison") evs) /\
  (fst r = Ok true \/
   exists k, In k (audio_keys ++ video_keys) /\ fst r = Raise (KeyError k)).
Proof.
  intros Hno Hp1 Hp2 r.
  destruct (ProbeProofs.ffprobe_ok_normalized E _ _ _ _ Hp1) as (so1 & pr1 & _ & _ & Hn1).
  destruct (ProbeProofs.ffprobe_ok_normalized E _ _ _ _ Hp2) as (so2 & pr2 & _ & _ & Hn2).
  destruct (find_stream_normalized _ _ Hn1) as (v1 & a1 & Hv1 & Ha1 & Kv1 & Ka1).
  destruct (find_stream_normalized _ _ Hn2) as (v2 & a2 & Hv2 & Ha2 & Kv2 & Ka2).
  split; [exists v1, a1, v2, a2; repeat split; assumption|].
  assert (Hw1 : w1 = after_probe (w st) [EvWait (List.length (procs (w st))) Reaped]).
  { pose proof (Scenario.probe_ok_world E (payload_of prev) (w st) p1) as H.
    rewrite Hp1 in H. specialize (H eq_refl). now inversion H. }
  assert (Hw2 : w2 = after_probe (emit_w (EvLog Debug "previous init section profile") w1)
                       [EvWait (List.length (procs w1)) Reaped]).
  { pose proof (Scenario.probe_ok_world E (payload curr)
                  (emit_w (EvLog Debug "previous init section profile") w1) p2) as H.
    rewrite Hp2 in H. specialize (H eq_refl). now inversion H. }
  subst r.
  rewrite (must_split_file_compares prev curr st p1 p2 w1 w2 v1 a1 v2 a2
             Hno Hp1 Hp2 Hv1 Hv2 Ha1 Ha2).
  set (st4 := on_world (fun _ => emit_w (EvLog Debug "current init section profile") w2) st).
  assert (Hj4 : journal (w st4) =
                journal (w st) ++
                [ EvSpawn (List.length (procs (w st)));
                  EvWait (List.length (procs (w st))) Reaped;
                  EvLog Debug "previous init section profile";
                  EvSpawn (List.length (procs w1));
                  EvWait (List.length (procs w1)) Reaped;
                  EvLog Debug "current init section profile" ]).
  { assert (Hj1 : journal w1 =
                   journal (w st) ++
                   [ EvSpawn (List.length (procs (w st)));
                     EvWait (List.length (procs (w st))) Reaped ])
      by (rewrite Hw1; reflexivity).
    subst st4. rewrite Hw2. clear Hw1 Hw2. simpl. rewrite Hj1.
    now rewrite <- !app_assoc. }
  destruct (compare_audio_effect a1 a2 st4 Ka1 Ka2) as (evsA & HwA & HevA & HrA).
  unfold bind.
  destruct (compare_audio a1 a2 st4) as [[u|e] st5] eqn:HcA; cbn [fst snd] in HwA, HrA.
  - destruct (compare_video_effect v1 v2 st5 Kv1 Kv2) as (evsV & HwV & HevV & HrV).
    destruct (compare_video v1 v2 st5) as [[u'|e] st6] eqn:HcV; cbn [fst snd] in HwV, HrV.
    + split; [|now left]. unfold ret. cbn [fst snd]. rewrite HwV. cbn [journal].
      rewrite HwA. cbn [journal]. rewrite Hj4.
      eexists. split; [rewrite <- !app_assoc; reflexivity|].
      intros Hin. repeat (apply in_app_or in Hin; destruct Hin as [Hin|Hin]).
      * simpl in Hin. repeat (destruct Hin as [Hin|Hin]; [discriminate|]). exact Hin.
      * destruct HevA as [-> | ->]; [exact Hin|]. destruct Hin as [Hin|[]]. discriminate.
      * destruct HevV as [-> | ->]; [exact Hin|]. destruct Hin as [Hin|[]]. discriminate.
    + split.
      * cbn [fst snd]. rewrite HwV. cbn [journal]. rewrite HwA. cbn [journal]. rewrite Hj4.
        eexists. split; [rewrite <- !app_assoc; reflexivity|].
        intros Hin. repeat (apply in_app_or in Hin; destruct Hin as [Hin|Hin]).
        -- simpl in Hin. repeat (destruct Hin as [Hin|Hin]; [discriminate|]). exact Hin.
        -- destruct HevA as [-> | ->]; [exact Hin|]. destruct Hin as [Hin|[]]. discriminate.
        -- destruct HevV as [-> | ->]; [exact Hin|]. destruct Hin as [Hin|[]]. discriminate.
      * right. cbn [fst]. destruct HrV as [[x Hx]|(k & Hk & Hx)]; [discriminate|].
        exists k. split; [apply in_or_app; now right|]. now injection Hx as ->.
  - split.
    + cbn [fst snd]. rewrite HwA. cbn [journal]. rewrite Hj4.
      eexists. split; [rewrite <- !app_assoc; reflexivity|].
      intros Hin. repeat (apply in_app_or in Hin; destruct Hin as [Hin|Hin]).
      * simpl in Hin. repeat (destruct Hin as [Hin|Hin]; [discriminate|]). exact Hin.
      * destruct HevA as [-> | ->]; [exact Hin|]. destruct Hin as [Hin|[]]. discriminate.
    + right. cbn [fst]. destruct HrA as [[x Hx]|(k & Hk & Hx)]; [discriminate|].
      exists k. split; [apply in_or_app; now left|]. now injection Hx as ->.
Qed.

End Split.

Lemma X16_comparisons_after_probes_witness :
  let r := _must_split_file Examples.codec_change (Some Examples.initA)
                            Examples.initB init_state in
  (exists evs,
      journal (w (snd r)) = journal (w init_state) ++ evs /\
      ~ In (EvLog Debug "skip audio comparison") evs) /\
  (fst r = Ok true \/
   exists k, In k (audio_keys ++ video_keys) /\ fst r = Raise (KeyError k)).
Proof.
  set (E := Examples.codec_change).
  set (r1 := ffprobe E (payload_of (Some Examples.initA)) (w init_state)).
  set (r2 := ffprobe E (payload Examples.initB)
                     (emit_w (EvLog Debug "previous init section profile") (snd r1))).
  assert (Hp1 : r1 = (Ok (match fst r1 with Ok p => p | Raise _ => JNull end), snd r1))
    by (vm_compute; reflexivity).
  assert (Hp2 : r2 = (Ok (match fst r2 with Ok p => p | Raise _ => JNull end), snd r2))
    by (vm_compute; reflexivity).
  exact (proj2 (X16_comparisons_after_probes E (Some Examples.initA) Examples.initB
                  init_state _ _ _ _ eq_refl Hp1 Hp2)).
Defined.

End ComparisonProofs.

(* ===================================================================== *)
(** ** The decision of [_must_split_file] *)

Module DecisionTheorems.

Import Ffprobe Streams SegmentDumper Invariants Comparison.
Import FfprobeProofs StreamProofs ProfileProofs ComparisonProofs.

Lemma has_keys_cons (k : string) (ks : list string) (s : json) :
  has_keys (k :: ks) s = true ->
  (exists v, field_of k s = Some v) /\ has_keys ks s = true.
Proof.
  unfold has_keys. simpl. intros H. apply andb_prop in H. destruct H as [H1 H2].
  split; [|exact H2]. destruct (field_of k s) as [v|]; [now exists v|discriminate].
Qed.

(** [a[k] != b[k]] when both descriptors have the key. *)
Lemma differs_parameter (a b : json) (k : string) (x y : json) :
  field_of k a = Some x -> field_of k b = Some y ->
  differs a b k = Ok (negb (py_eq (parameter k a) (parameter k b))).
Proof.
  unfold parameter. intros Ha Hb. rewrite Ha, Hb.
  destruct a as [| | | | |da]; try discriminate.
  destruct b as [| | | | |db]; try discriminate.
  simpl in Ha, Hb. unfold differs, py_getitem. now rewrite Ha, Hb.
Qed.

(** [a.get(k) != b.get(k)] on two descriptors. *)
Lemma differs_get_parameter (a b : json) (k : string) :
  is_dict a = true -> is_dict b = true ->
  differs_get a b k = Ok (negb (py_eq (parameter k a) (parameter k b))).
Proof.
  destruct a as [| | | | |da]; try discriminate.
  destruct b as [| | | | |db]; try discriminate. intros _ _.
  unfold differs_get, parameter, field_of. simpl.
  now destruct (dict_get k da), (dict_get k db).
Qed.

Lemma or_else_ok (b : bool) (c : bool) (r : result bool) :
  r = Ok c -> or_else (Ok b) r = Ok (b || c).
Proof. intros ->. unfold or_else. simpl. now destruct b. Qed.

(** Lines 105-114 on two audio descriptors that have the keys read
    with [[]]: the warning is logged exactly on a mismatch. *)
Lemma compare_audio_logs (a b : json) (st : state) :
  is_kind "audio" a = true -> is_kind "audio" b = true ->
  has_keys audio_keys a = true -> has_keys audio_keys b = true ->
  compare_audio a b st =
  (Ok tt,
   if mismatch audio_parameters a b
   then on_world (emit_w (EvLog Warning "Audio parameters changed")) st
   else st).
Proof.
  intros Ka Kb Ha Hb. unfold compare_audio.
  rewrite (is_kind_truthy _ _ Ka), (is_kind_truthy _ _ Kb). simpl andb. cbv iota.
  pose proof (is_kind_is_dict _ _ Ka) as Hda. pose proof (is_kind_is_dict _ _ Kb) as Hdb.
  unfold audio_keys in Ha, Hb.
  apply has_keys_cons in Ha. destruct Ha as [[x1 Hx1] Ha].
  apply has_keys_cons in Ha. destruct Ha as [[x2 Hx2] Ha].
  apply has_keys_cons in Ha. destruct Ha as [[x3 Hx3] _].
  apply has_keys_cons in Hb. destruct Hb as [[y1 Hy1] Hb].
  apply has_keys_cons in Hb. destruct Hb as [[y2 Hy2] Hb].
  apply has_keys_cons in Hb. destruct Hb as [[y3 Hy3] _].
  rewrite (differs_parameter a b "codec_name" x1 y1 Hx1 Hy1).
  rewrite (differs_parameter a b "channels" x2 y2 Hx2 Hy2).
  rewrite (differs_parameter a b "sample_rate" x3 y3 Hx3 Hy3).
  rewrite (differs_get_parameter a b "bit_rate" Hda Hdb).
  rewrite (or_else_ok _ _ _ eq_refl).
  rewrite (or_else_ok _ _ _ eq_refl).
  rewrite (or_else_ok _ _ _ eq_refl).
  unfold mismatch, audio_parameters. cbn [existsb]. rewrite orb_false_r.
  unfold bind, lift.
  destruct (_ || _); reflexivity.
Qed.

(** Lines 116-123 on two video descriptors that have the keys read with
    [[]]. *)
Lemma compare_video_logs (a b : json) (st : state) :
  has_keys video_keys a = true -> has_keys video_keys b = true ->
  compare_video a b st =
  (Ok tt,
   if mismatch video_parameters a b
   then on_world (emit_w (EvLog Warning "Video parameters changed")) st
   else st).
Proof.
  intros Ha Hb. unfold compare_video.
  unfold video_keys in Ha, Hb.
  apply has_keys_cons in Ha. destruct Ha as [[x1 Hx1] Ha].
  apply has_keys_cons in Ha. destruct Ha as [[x2 Hx2] Ha].
  apply has_keys_cons in Ha. destruct Ha as [[x3 Hx3] Ha].
  apply has_keys_cons in Ha. destruct Ha as [[x4 Hx4] Ha].
  apply has_keys_cons in Ha. destruct Ha as [[x5 Hx5] _].
  apply has_keys_cons in Hb. destruct Hb as [[y1 Hy1] Hb].
  apply has_keys_cons in Hb. destruct Hb as [[y2 Hy2] Hb].
  apply has_keys_cons in Hb. destruct Hb as [[y3 Hy3] Hb].
  apply has_keys_cons in Hb. destruct Hb as [[y4 Hy4] Hb].
  apply has_keys_cons in Hb. destruct Hb as [[y5 Hy5] _].
  rewrite (differs_parameter a b "codec_name" x1 y1 Hx1 Hy1).
  rewrite (differs_parameter a b "width" x2 y2 Hx2 Hy2).
  rewrite (differs_parameter a b "height" x3 y3 Hx3 Hy3).
  rewrite (differs_parameter a b "coded_width" x4 y4 Hx4 Hy4).
  rewrite (differs_parameter a b "coded_height" x5 y5 Hx5 Hy5).
  rewrite (or_else_ok _ _ _ eq_refl).
  rewrite (or_else_ok _ _ _ eq_refl).
  rewrite (or_else_ok _ _ _ eq_refl).
  rewrite (or_else_ok _ _ _ eq_refl).
  unfold mismatch, video_parameters. cbn [existsb]. rewrite orb_false_r.
  unfold bind, lift.
  destruct (_ || _); reflexivity.
Qed.

Section Decision.

Variable E : env.

(** Line 88: without a usable retained InitSection the call is the
    probe of the current payload. *)
Lemma must_split_file_first (prev : option item) (curr : item) (st : state) :
  no_usable_prev prev = true ->
  fst (_must_split_file E prev curr st) =
  match fst (ffprobe E (payload curr) (w st)) with
  | Ok _ => Ok true
  | Raise e => Raise e
  end.
Proof.
  intros Hno. unfold _must_split_file. rewrite Hno. unfold bind, liftW.
  now destruct (ffprobe E (payload curr) (w st)) as [[p|e] w1].
Qed.

(** Line 93: an exception of the first probe leaves the call. *)
Lemma must_split_file_prev_fails (prev : option item) (curr : item) (st : state)
    (e : exn) :
  no_usable_prev prev = false ->
  fst (ffprobe E (payload_of prev) (w st)) = Raise e ->
  fst (_must_split_file E prev curr st) = Raise e.
Proof.
  intros Hno Hp. unfold _must_split_file. rewrite Hno. unfold bind, liftW.
  destruct (ffprobe E (payload_of prev) (w st)) as [[p|e'] w1]; [discriminate|].
  cbn [fst] in Hp. injection Hp as ->. reflexivity.
Qed.

(** Line 95: so does an exception of the second probe. *)
Lemma must_split_file_curr_fails (prev : option item) (curr : item) (st : state)
    (p1 : json) (w1 : world) (e : exn) :
  no_usable_prev prev = false ->
  ffprobe E (payload_of prev) (w st) = (Ok p1, w1) ->
  fst (ffprobe E (payload curr)
         (emit_w (EvLog Debug "previous init section profile") w1)) = Raise e ->
  fst (_must_split_file E prev curr st) = Raise e.
Proof.
  intros Hno Hp1 Hp2.
  destruct st as [p f n d l s wd]. cbn [w] in Hp1.
  unfold _must_split_file. rewrite Hno.
  destruct (ffprobe E (payload curr)
              (emit_w (EvLog Debug "previous init section profile") w1))
    as [[p2|e'] w2] eqn:H2; [discriminate|].
  cbn [fst] in Hp2. injection Hp2 as ->.
  repeat (progress (cbv [bind liftW emit modify lift gets ret w on_world
                         _path _file _filesize disposed last_init_item is_stopped];
                    rewrite ?Hp1, ?H2)).
  reflexivity.
Qed.

(** C2.  The decision of [_must_split_file] is never negative: whenever
    the call returns, it returns [True], and it touches neither the
    dumper nor a file.  Without a usable retained InitSection the call
    returns [True] when the probe of the current payload returns, and
    raises the exception of the probe otherwise.  With one, an
    exception of either probe leaves the call; when both probes return,
    each profile has a video and an audio descriptor, and if these have
    the keys that are read with [[]], the call returns [True] and logs,
    after the two profiles, the warning [Audio parameters changed]
    exactly when the audio descriptors differ in codec, channel count,
    sample rate or bit rate, and then [Video parameters changed]
    exactly when the video descriptors differ in codec, resolution or
    coded size. *)
Theorem C2_must_split_always_affirmative
    (prev : option item) (curr : item) (st : state) :
  let r := _must_split_file E prev curr st in
  let r1 := ffprobe E (payload_of prev) (w st) in
  let r2 := ffprobe E (payload curr)
                    (emit_w (EvLog Debug "previous init section profile") (snd r1)) in
  (forall b, fst r = Ok b -> b = true) /\
  quiet_step st (snd r) /\
  (no_usable_prev prev = true ->
   fst r = match fst (ffprobe E (payload curr) (w st)) with
           | Ok _ => Ok true
           | Raise e => Raise e
           end) /\
  (no_usable_prev prev = false ->
   (forall e, fst r1 = Raise e -> fst r = Raise e) /\
   (forall p1 e, fst r1 = Ok p1 -> fst r2 = Raise e -> fst r = Raise e) /\
   (forall p1 p2, fst r1 = Ok p1 -> fst r2 = Ok p2 ->
      exists v1 a1 v2 a2,
        find_stream "video" p1 = Ok v1 /\ find_stream "audio" p1 = Ok a1 /\
        find_stream "video" p2 = Ok v2 /\ find_stream "audio" p2 = Ok a2 /\
        (has_keys audio_keys a1 = true -> has_keys audio_keys a2 = true ->
         has_keys video_keys v1 = true -> has_keys video_keys v2 = true ->
         fst r = Ok true /\
         journal (w (snd r)) =
           journal (snd r2) ++
           [EvLog Debug "current init section profile"] ++
           mismatch_warnings a1 a2 v1 v2))).
Proof.
  intros r r1 r2.
  split; [exact (DumperSteps.must_split_file_yields_true E prev curr st)|].
  split; [exact (DumperSteps.quietly_must_split_file E prev curr st)|].
  split; [now apply must_split_file_first|].
  intros Hno. split; [|split].
  - intros e He. now apply must_split_file_prev_fails.
  - intros p1 e Hp1 Hp2. subst r r1 r2.
    destruct (ffprobe E (payload_of prev) (w st)) as [q1 w1] eqn:H1.
    cbn [fst snd] in Hp1, Hp2. subst q1.
    now apply (must_split_file_curr_fails prev curr st p1 w1 e).
  - intros p1 p2 Hp1 Hp2. subst r r1 r2.
    destruct (ffprobe E (payload_of prev) (w st)) as [q1 w1] eqn:H1.
    cbn [fst snd] in Hp1, Hp2 |- *. subst q1.
    destruct (ffprobe E (payload curr)
                (emit_w (EvLog Debug "previous init section profile") w1))
      as [q2 w2] eqn:H2.
    cbn [fst snd] in Hp2 |- *. subst q2.
    destruct (ProbeProofs.ffprobe_ok_normalized E _ _ _ _ H1) as (so1 & pr1 & _ & _ & Hn1).
    destruct (ProbeProofs.ffprobe_ok_normalized E _ _ _ _ H2) as (so2 & pr2 & _ & _ & Hn2).
    destruct (find_stream_normalized _ _ Hn1) as (v1 & a1 & Hv1 & Ha1 & Kv1 & Ka1).
    destruct (find_stream_normalized _ _ Hn2) as (v2 & a2 & Hv2 & Ha2 & Kv2 & Ka2).
    exists v1, a1, v2, a2. repeat (split; [assumption|]).
    intros Ja1 Ja2 Jv1 Jv2.
    rewrite (must_split_file_compares E prev curr st p1 p2 w1 w2 v1 a1 v2 a2
               Hno H1 H2 Hv1 Hv2 Ha1 Ha2).
    unfold bind. rewrite (compare_audio_logs a1 a2 _ Ka1 Ka2 Ja1 Ja2).
    rewrite (compare_video_logs v1 v2 _ Jv1 Jv2).
    unfold ret, mismatch_warnings. cbn [fst snd]. split; [reflexivity|].
    destruct st as [p f n d l s wd].
    destruct (mismatch audio_parameters a1 a2), (mismatch video_parameters v1 v2);
      cbn; rewrite <- ?app_assoc; reflexivity.
Qed.

End Decision.

Lemma C2_must_split_always_affirmative_witness :
  let r := _must_split_file Examples.codec_change (Some Examples.initA)
                            Examples.initB init_state in
  fst r = Ok true /\
  journal (w (snd r)) =
    [ EvSpawn 0; EvWait 0 Reaped; EvLog Debug "previous init section profile";
      EvSpawn 1; EvWait 1 Reaped; EvLog Debug "current init section profile";
      EvLog Warning "Video parameters changed" ].
Proof.
  pose proof (C2_must_split_always_affirmative Examples.codec_change
                (Some Examples.initA) Examples.initB init_state) as H.
  cbv zeta in H. cbv zeta.
  destruct H as (_ & _ & _ & H). destruct (H eq_refl) as (_ & _ & Hlog). clear H.
  set (r1 := ffprobe Examples.codec_change (payload_of (Some Examples.initA))
                     (w init_state)) in *.
  set (r2 := ffprobe Examples.codec_change (payload Examples.initB)
                     (emit_w (EvLog Debug "previous init section profile") (snd r1)))
    in *.
  assert (Hp1 : fst r1 = Ok (match fst r1 with Ok p => p | Raise _ => JNull end))
    by (vm_compute; reflexivity).
  assert (Hp2 : fst r2 = Ok (match fst r2 with Ok p => p | Raise _ => JNull end))
    by (vm_compute; reflexivity).
  destruct (Hlog _ _ Hp1 Hp2) as (v1 & a1 & v2 & a2 & Hv1 & Ha1 & Hv2 & Ha2 & Hret).
  vm_compute in Hv1, Ha1, Hv2, Ha2.
  injection Hv1 as <-. injection Ha1 as <-. injection Hv2 as <-. injection Ha2 as <-.
  destruct (Hret eq_refl eq_refl eq_refl eq_refl) as [Hr Hj].
  split; [exact Hr|]. rewrite Hj. vm_compute. reflexivity.
Defined.

(** Without a retained InitSection, a probe that runs into its timeout
    leaves [_must_split_file] with [TimeoutExpired] instead of a
    decision: the InitSection that was delivered starts no file and is
    not written. *)
Lemma C2_no_decision_when_probe_fails :
  _is_redundant None Examples.initB = false /\
  fst (_must_split_file Examples.probe_hangs None Examples.initB init_state) =
    Raise TimeoutExpired /\
  (forall b, fst (_must_split_file Examples.probe_hangs None Examples.initB
                                   init_state) <> Ok b) /\
  let st' := deliver Examples.probe_hangs init_state (Next Examples.initB) in
  files (w st') = [] /\ _file st' = None /\
  file_opened_events (journal (w st')) = [] /\
  forwarded_items (journal (w st')) = [].
Proof.
  split; [reflexivity|]. split; [vm_compute; reflexivity|].
  split; [intros b; vm_compute; discriminate|].
  vm_compute. repeat split.
Qed.

End DecisionTheorems.
